(** * Hindenburg: the reliable transport of [Worker.ts] and the chat-command
      dispatcher of [api/chat/CommandHander.ts]

    The development is a shallow embedding.

    - JavaScript strings are Rocq [string]s (every character the code
      inspects is ASCII) and exceptions are a result type.
    - The [Record<string, string>] that [verify] fills is a [gmap] of its
      own properties; it is a plain object, so an assignment under the key
      [__proto__] reaches the setter of [Object.prototype] and binds
      nothing.  A JavaScript [Map], whose iteration order is its insertion
      order, is an association list kept in that order.
    - The worker is a record that is passed along.  [Connection] objects
      are shared and mutated in place, so they live in a store indexed by
      their identity and the registry refers to them.
    - What the worker does to the outside (datagrams, log lines, events,
      calls into rooms) is appended to a list of effects.
    - [handleMessage] and the callback of the ticker each run to their end
      without another one in between, and each reads the clock once: the
      time is an argument. *)

From Stdlib Require Import ZArith Ascii String List Bool Lia.
From stdpp Require Import base gmap strings list pretty.
Import ListNotations.

Local Open Scope string_scope.
Local Open Scope list_scope.

(** ** Results of code that may throw *)

Inductive Throws (A : Type) : Type :=
| Ok (a : A)
| TypeError (msg : string)
| CallError (msg : string).
Arguments Ok {A} a.
Arguments TypeError {A} msg.
Arguments CallError {A} msg.

(** ** JavaScript string primitives used by the sources *)

Module Js.

Definition LF : string := String (ascii_of_nat 10) EmptyString.

(** Truthiness of a string: the empty string is falsy. *)
Definition truthy (s : string) : bool :=
  match s with EmptyString => false | String _ _ => true end.

(** [Array.prototype.join]. *)
Fixpoint join (sep : string) (l : list string) : string :=
  match l with
  | [] => EmptyString
  | [x] => x
  | x :: rest => x +:+ sep +:+ join sep rest
  end.

(** [String.prototype.startsWith] and [endsWith]. *)
Definition startsWith (p s : string) : bool := String.prefix p s.

Fixpoint endsWith (p s : string) : bool :=
  String.eqb p s ||
  match s with
  | EmptyString => false
  | String _ r => endsWith p r
  end.

(** [String.prototype.includes]. *)
Fixpoint includes (p s : string) : bool :=
  String.prefix p s ||
  match s with
  | EmptyString => false
  | String _ r => includes p r
  end.

(** [String.prototype.substr(start, length)]. *)
Definition substr (start len : nat) (s : string) : string :=
  String.substring start len s.

(** White space as [String.prototype.trim] sees it, on the characters a
    [string] holds: TAB, LF, VT, FF, CR, space and NBSP. *)
Definition is_ws (c : ascii) : bool :=
  let n := nat_of_ascii c in
  ((9 <=? n)%nat && (n <=? 13)%nat) || (n =? 32)%nat || (n =? 160)%nat.

Fixpoint trimStart (s : string) : string :=
  match s with
  | EmptyString => EmptyString
  | String c r => if is_ws c then trimStart r else s
  end.

Fixpoint trimEnd (s : string) : string :=
  match s with
  | EmptyString => EmptyString
  | String c r =>
      match trimEnd r with
      | EmptyString => if is_ws c then EmptyString else String c EmptyString
      | r' => String c r'
      end
  end.

Definition trim (s : string) : string := trimEnd (trimStart s).

End Js.

(** ** [api/chat/CommandHander.ts] *)

Module Chat.

(** [betterSplitOnSpaces]: the loop over the characters of [input], with
    its three local variables as accumulators. *)
Fixpoint splitLoop (input collector : string) (output : list string)
         (in_string : bool) : list string :=
  match input with
  | EmptyString =>
      if Js.truthy collector then output ++ [collector] else output
  | String char rest =>
      if Ascii.eqb char "'" then
        splitLoop rest collector output (negb in_string)
      else if Ascii.eqb char " " && negb in_string then
        splitLoop rest EmptyString (output ++ [collector]) in_string
      else
        splitLoop rest (collector +:+ String char EmptyString) output in_string
  end.

Definition betterSplitOnSpaces (input : string) : list string :=
  splitLoop input EmptyString [] false.

Record ChatCommandParameter : Type := mkParam {
  isRest : bool;
  required : bool;
  name : string
}.

(** The callback of a command is opaque to the dispatcher; it is left out
    of the record and dispatch returns what the callback is called with. *)
Record RegisteredChatCommand : Type := mkCommand {
  cmdName : string;
  params : list ChatCommandParameter;
  description : string
}.

(** Split [s] at the first occurrence of [c]: what is before it and what
    is after it. *)
Fixpoint cutAt (c : ascii) (s : string) : option (string * string) :=
  match s with
  | EmptyString => None
  | String x r =>
      if Ascii.eqb x c then Some (EmptyString, r)
      else match cutAt c r with
           | Some (a, b) => Some (String x a, b)
           | None => None
           end
  end.

(** The global match of the parameter pattern of [parse] (a square
    bracket, characters other than the closing one, the closing one; or
    the same with angle brackets): the matches from left to right.  At an opening bracket the greedy class runs to the first
    closing bracket of the same kind; when there is none the match fails
    at this position and the scan moves one character on.  Every step
    drops at least one character, so [length usage] steps are enough. *)
Fixpoint matchParamsFrom (fuel : nat) (usage : string) : list string :=
  match fuel with
  | O => []
  | S fuel' =>
      match usage with
      | EmptyString => []
      | String c rest =>
          if Ascii.eqb c "[" then
            match cutAt "]" rest with
            | Some (inner, tail) =>
                String "[" (inner +:+ "]") :: matchParamsFrom fuel' tail
            | None => matchParamsFrom fuel' rest
            end
          else if Ascii.eqb c "<" then
            match cutAt ">" rest with
            | Some (inner, tail) =>
                String "<" (inner +:+ ">") :: matchParamsFrom fuel' tail
            | None => matchParamsFrom fuel' rest
            end
          else matchParamsFrom fuel' rest
      end
  end.

Definition matchParams (usage : string) : list string :=
  matchParamsFrom (String.length usage) usage.

(** The first match of the command-name pattern of [parse], anchored at
    the start of [usage]: the longest prefix without an opening square or
    angle bracket (the pattern always matches, possibly the empty
    string). *)
Fixpoint matchCmdPrefix (usage : string) : string :=
  match usage with
  | EmptyString => EmptyString
  | String c rest =>
      if Ascii.eqb c "[" || Ascii.eqb c "<" then EmptyString
      else String c (matchCmdPrefix rest)
  end.

(** The [for] loop of [parse]; [i] is the index of the head of
    [matchedParams] and [len] is [matchedParams.length] of the whole
    array. *)
Fixpoint parseLoop (matchedParams : list string) (i len : nat)
         (wasOptional : bool) (cmdParams : list ChatCommandParameter)
  : Throws (list ChatCommandParameter) :=
  match matchedParams with
  | [] => Ok cmdParams
  | matchedParam :: more =>
      let wasOptional :=
        if Js.startsWith "[" matchedParam then true else wasOptional in
      if Js.startsWith "<" matchedParam && wasOptional then
        TypeError "Required parameter cannot come after an optional parameter."
      else
        let required := Js.startsWith "<" matchedParam in
        let matchedParam1 :=
          Js.substr 1 (String.length matchedParam - 2) matchedParam in
        if Js.endsWith "..." matchedParam1 then
          if negb (i =? len - 1)%nat then
            TypeError "Rest parameter must be last."
          else
            parseLoop more (S i) len wasOptional
              (cmdParams ++
               [mkParam true required
                  (Js.substr 0 (String.length matchedParam1 - 3) matchedParam1)])
        else
          parseLoop more (S i) len wasOptional
            (cmdParams ++ [mkParam false required matchedParam1])
  end.

(** [RegisteredChatCommand.parse]. *)
Definition parse (usage description : string) : Throws RegisteredChatCommand :=
  let matchedParams := matchParams usage in
  let matchedCmdName := Js.trim (matchCmdPrefix usage) in
  if negb (Js.truthy matchedCmdName) then
    TypeError "Invalid command name."
  else if Js.includes "  " matchedCmdName then
    TypeError "Command name cannot contain spaces."
  else
    match parseLoop matchedParams 0 (List.length matchedParams) false [] with
    | Ok cmdParams => Ok (mkCommand matchedCmdName cmdParams description)
    | TypeError m => TypeError m
    | CallError m => CallError m
    end.

Definition renderParam (param : ChatCommandParameter) : string :=
  (if required param then "<" else "[")
  +:+ name param
  +:+ (if required param then ">" else "]").

(** [createUsage]. *)
Definition createUsage (cmd : RegisteredChatCommand) : string :=
  "/" +:+ cmdName cmd +:+ " " +:+ Js.join " " (map renderParam (params cmd)).

Definition missingMessage (cmd : RegisteredChatCommand)
           (param : ChatCommandParameter) : string :=
  "Usage: <color=#12a50a>" +:+ createUsage cmd +:+ "</color>" +:+ Js.LF
  +:+ "<color=#f7584e>Missing: " +:+ name param +:+ "</color>"
  +:+ Js.LF +:+ Js.LF +:+ description cmd.

(** What [param] consumes: the joined remaining arguments for a rest
    parameter ([join] leaves the array as it is), otherwise the shifted
    head, [None] standing for [undefined]. *)
Definition consumeArg (param : ChatCommandParameter) (argsCloned : list string)
  : option string * list string :=
  if isRest param then (Some (Js.join " " argsCloned), argsCloned)
  else match argsCloned with
       | [] => (None, [])
       | a :: rest => (Some a, rest)
       end.

(** [parsed[key] = value] on the plain object [parsed] that [verify]
    fills, for a string [value].  A plain object inherits the accessor
    [__proto__] from [Object.prototype]: an assignment under that key calls
    its setter, which ignores a value that is not an object, and no
    property is created.  Under every other key the assignment creates or
    overwrites an own property. *)
Definition assignProperty (key value : string) (parsed : gmap string string)
  : gmap string string :=
  if String.eqb key "__proto__" then parsed else <[key := value]> parsed.

(** The loop of [verify] over the parameters still to bind. *)
Fixpoint verifyLoop (cmd : RegisteredChatCommand)
         (todo : list ChatCommandParameter) (argsCloned : list string)
         (parsed : gmap string string) : Throws (gmap string string) :=
  match todo with
  | [] => Ok parsed
  | param :: more =>
      match consumeArg param argsCloned with
      | (Some consume, argsCloned') =>
          if Js.truthy consume then
            verifyLoop cmd more argsCloned'
              (assignProperty (name param) consume parsed)
          else if required param then CallError (missingMessage cmd param)
          else Ok parsed
      | (None, _) =>
          if required param then CallError (missingMessage cmd param)
          else Ok parsed
      end
  end.

Definition verify (cmd : RegisteredChatCommand) (args : list string)
  : Throws (gmap string string) :=
  verifyLoop cmd (params cmd) args ∅.

(** [ChatCommandHandler]: the command table and [registerCommand]. *)
Definition Commands : Type := list (string * RegisteredChatCommand).

Fixpoint getCommand (commands : Commands) (commandName : string)
  : option RegisteredChatCommand :=
  match commands with
  | [] => None
  | (k, c) :: rest =>
      if String.eqb k commandName then Some c else getCommand rest commandName
  end.

Fixpoint setCommand (commands : Commands) (c : RegisteredChatCommand)
  : Commands :=
  match commands with
  | [] => [(cmdName c, c)]
  | (k, c0) :: rest =>
      if String.eqb k (cmdName c) then (k, c) :: rest
      else (k, c0) :: setCommand rest c
  end.

Definition registerCommand (commands : Commands) (usage description : string)
  : Throws Commands :=
  match parse usage description with
  | Ok parsedCommand => Ok (setCommand commands parsedCommand)
  | TypeError m => TypeError m
  | CallError m => CallError m
  end.

(** [parseMessage]: the result is the command whose callback is called
    and the arguments it is called with. *)
Definition parseMessage (commands : Commands) (message : string)
  : Throws (RegisteredChatCommand * gmap string string) :=
  match betterSplitOnSpaces message with
  | [] => CallError "Bad command call."
  | commandName :: args =>
      if negb (Js.truthy commandName) then CallError "Bad command call."
      else
        match getCommand commands commandName with
        | None => CallError ("No command with name: " +:+ commandName)
        | Some command =>
            match verify command args with
            | Ok parsed => Ok (command, parsed)
            | TypeError m => TypeError m
            | CallError m => CallError m
            end
        end
  end.

(** The [player.chat] listener: a message that starts with a slash is
    dispatched without it; any other message is left alone ([None]). *)
Definition onPlayerChat (commands : Commands) (message : string)
  : option (Throws (RegisteredChatCommand * gmap string string)) :=
  if Js.startsWith "/" message then
    Some (parseMessage commands (Js.substr 1 (String.length message - 1) message))
  else None.

End Chat.


(** ** JavaScript [Map]: an association list in insertion order *)

Module JsMap.

Section Ops.
Context {K V : Type} `{EqDecision K}.

Fixpoint mget (k : K) (m : list (K * V)) : option V :=
  match m with
  | [] => None
  | (k', v) :: rest => if decide (k' = k) then Some v else mget k rest
  end.

(** [set] replaces the value of a key that is present, in place, and
    appends a key that is not. *)
Fixpoint mset (k : K) (v : V) (m : list (K * V)) : list (K * V) :=
  match m with
  | [] => [(k, v)]
  | (k', v') :: rest =>
      if decide (k' = k) then (k', v) :: rest else (k', v') :: mset k v rest
  end.

(** [delete]; a [Map] holds a key once, and every entry with the key
    goes. *)
Fixpoint mdelete (k : K) (m : list (K * V)) : list (K * V) :=
  match m with
  | [] => []
  | (k', v') :: rest =>
      if decide (k' = k) then mdelete k rest else (k', v') :: mdelete k rest
  end.

Definition msize (m : list (K * V)) : Z := Z.of_nat (List.length m).

End Ops.

End JsMap.

Import JsMap.

(** ** [Worker.ts] *)

Module Net.

Local Open Scope Z_scope.

Definition Buffer : Type := list Z.

Record RemoteInfo : Type := mkRemote { address : string; port : Z }.

(** The key of the connection registry: [rinfo.address + ":" + rinfo.port]. *)
Definition fmt (rinfo : RemoteInfo) : string :=
  address rinfo +:+ ":" +:+ pretty (port rinfo).

Inductive DisconnectReason : Type :=
| IncorrectVersion | Hacking | GameNotFound | GameFull | GameStarted | Banned.

Inductive I18n : Type :=
| reactor_not_enabled_on_server | reactor_required_on_server
| havent_received_all_mods | missing_required_mod | mod_banned_on_server
| bad_mod_version | mod_not_recognised
| reactor_required_for_room | reactor_not_enabled_for_room.

(** The arguments of [disconnect] and [joinError]: nothing, a reason code,
    or a localized message with the values it is formatted with. *)
Inductive Reason : Type :=
| NoReason
| Code (reason : DisconnectReason)
| Localized (key : I18n) (args : list string).

Inductive ModPluginSide : Type := Clientside | Serverside | Both.

Record ReactorMod : Type := mkReactorMod {
  rmodId : string; rmodVersion : string; rmodSide : ModPluginSide
}.

Inductive ReactorChild : Type :=
| ReactorHandshakeMessage (servername serverver : string) (plugincount : Z)
| ReactorModDeclarationMessage (netId : Z) (declared : ReactorMod).

(** The children of a reliable or unreliable root packet.  The last
    constructor stands for the children whose listeners work on rooms,
    perspectives and listings only (HostGame, GameData, GameDataTo,
    GetGameList, by tag): this development does not embed their bodies. *)
Inductive ChildMessage : Type :=
| JoinGameMessage (code : Z)
| AlterGameMessage (code alterTag value : Z)
| StartGameMessage (code : Z)
| EndGameMessage (code reason : Z) (showAd : bool)
| KickPlayerMessage (code clientid : Z) (banned : bool)
| ReactorMessage (child : ReactorChild)
| OtherMessage (tag : Z).

(** Root packets.  A hello without a mod count is a normal hello
    ([isNormalHello]). *)
Inductive RootPacket : Type :=
| UnreliablePacket (children : list ChildMessage)
| ReliablePacket (nonce : Z) (children : list ChildMessage)
| ModdedHelloPacket (nonce clientver : Z) (username : string) (language : Z)
    (modcount : option Z)
| DisconnectPacket (reason : Reason)
| AcknowledgePacket (nonce : Z) (missingPackets : list Z)
| PingPacket (nonce : Z).

(** [packet.tag], the [SendOption] of the protocol. *)
Definition tag (packet : RootPacket) : Z :=
  match packet with
  | UnreliablePacket _ => 0
  | ReliablePacket _ _ => 1
  | ModdedHelloPacket _ _ _ _ _ => 8
  | DisconnectPacket _ => 9
  | AcknowledgePacket _ _ => 10
  | PingPacket _ => 12
  end.

(** [(packet as ReliableSerializable).nonce], [None] for [undefined]. *)
Definition nonceOf (packet : RootPacket) : option Z :=
  match packet with
  | ReliablePacket n _ | ModdedHelloPacket n _ _ _ _
  | AcknowledgePacket n _ | PingPacket n => Some n
  | UnreliablePacket _ | DisconnectPacket _ => None
  end.

Definition isAcknowledge (packet : RootPacket) : bool :=
  match packet with AcknowledgePacket _ _ => true | _ => false end.

Definition isModdedHello (packet : RootPacket) : bool :=
  match packet with ModdedHelloPacket _ _ _ _ _ => true | _ => false end.

(** What [decoder.parse] does with a datagram: it throws, it returns
    nothing (unknown root tag), or it returns a packet. *)
Inductive ParseResult : Type :=
| Malformed
| UnknownRoot
| Parsed (packet : RootPacket).

Record SentPacket : Type := mkSentPacket {
  sentNonce : Z; buffer : Buffer; sentAt : Z; acked : bool
}.

Record ClientMod : Type := mkClientMod {
  netId : Z; modId : string; modVersion : string; networkSide : ModPluginSide
}.

Record Connection : Type := mkConnection {
  rinfo : RemoteInfo;
  clientId : Z;
  hasIdentified : bool;
  usingReactor : bool;
  username : string;
  language : Z;
  clientVersion : Z;
  numMods : Z;
  mods : list (string * ClientMod);
  receivedPackets : list Z;
  sentPackets : list SentPacket;
  lastNonce : Z;
  nonce : Z;
  roundTripPing : Z;
  room : option Z;
  sentDisconnect : bool
}.

Definition set_hasIdentified (v : bool) (c : Connection) : Connection :=
  {| rinfo := rinfo c; clientId := clientId c; hasIdentified := v;
     usingReactor := usingReactor c; username := username c;
     language := language c; clientVersion := clientVersion c;
     numMods := numMods c; mods := mods c;
     receivedPackets := receivedPackets c; sentPackets := sentPackets c;
     lastNonce := lastNonce c; nonce := nonce c;
     roundTripPing := roundTripPing c; room := room c;
     sentDisconnect := sentDisconnect c |}.

Definition set_usingReactor (v : bool) (c : Connection) : Connection :=
  {| rinfo := rinfo c; clientId := clientId c;
     hasIdentified := hasIdentified c; usingReactor := v;
     username := username c; language := language c;
     clientVersion := clientVersion c; numMods := numMods c;
     mods := mods c; receivedPackets := receivedPackets c;
     sentPackets := sentPackets c; lastNonce := lastNonce c;
     nonce := nonce c; roundTripPing := roundTripPing c; room := room c;
     sentDisconnect := sentDisconnect c |}.

Definition set_username (v : string) (c : Connection) : Connection :=
  {| rinfo := rinfo c; clientId := clientId c;
     hasIdentified := hasIdentified c; usingReactor := usingReactor c;
     username := v; language := language c;
     clientVersion := clientVersion c; numMods := numMods c;
     mods := mods c; receivedPackets := receivedPackets c;
     sentPackets := sentPackets c; lastNonce := lastNonce c;
     nonce := nonce c; roundTripPing := roundTripPing c; room := room c;
     sentDisconnect := sentDisconnect c |}.

Definition set_language (v : Z) (c : Connection) : Connection :=
  {| rinfo := rinfo c; clientId := clientId c;
     hasIdentified := hasIdentified c; usingReactor := usingReactor c;
     username := username c; language := v;
     clientVersion := clientVersion c; numMods := numMods c;
     mods := mods c; receivedPackets := receivedPackets c;
     sentPackets := sentPackets c; lastNonce := lastNonce c;
     nonce := nonce c; roundTripPing := roundTripPing c; room := room c;
     sentDisconnect := sentDisconnect c |}.

Definition set_clientVersion (v : Z) (c : Connection) : Connection :=
  {| rinfo := rinfo c; clientId := clientId c;
     hasIdentified := hasIdentified c; usingReactor := usingReactor c;
     username := username c; language := language c; clientVersion := v;
     numMods := numMods c; mods := mods c;
     receivedPackets := receivedPackets c; sentPackets := sentPackets c;
     lastNonce := lastNonce c; nonce := nonce c;
     roundTripPing := roundTripPing c; room := room c;
     sentDisconnect := sentDisconnect c |}.

Definition set_numMods (v : Z) (c : Connection) : Connection :=
  {| rinfo := rinfo c; clientId := clientId c;
     hasIdentified := hasIdentified c; usingReactor := usingReactor c;
     username := username c; language := language c;
     clientVersion := clientVersion c; numMods := v; mods := mods c;
     receivedPackets := receivedPackets c; sentPackets := sentPackets c;
     lastNonce := lastNonce c; nonce := nonce c;
     roundTripPing := roundTripPing c; room := room c;
     sentDisconnect := sentDisconnect c |}.

Definition set_mods (v : list (string * ClientMod)) (c : Connection) : Connection :=
  {| rinfo := rinfo c; clientId := clientId c;
     hasIdentified := hasIdentified c; usingReactor := usingReactor c;
     username := username c; language := language c;
     clientVersion := clientVersion c; numMods := numMods c; mods := v;
     receivedPackets := receivedPackets c; sentPackets := sentPackets c;
     lastNonce := lastNonce c; nonce := nonce c;
     roundTripPing := roundTripPing c; room := room c;
     sentDisconnect := sentDisconnect c |}.

Definition set_receivedPackets (v : list Z) (c : Connection) : Connection :=
  {| rinfo := rinfo c; clientId := clientId c;
     hasIdentified := hasIdentified c; usingReactor := usingReactor c;
     username := username c; language := language c;
     clientVersion := clientVersion c; numMods := numMods c;
     mods := mods c; receivedPackets := v; sentPackets := sentPackets c;
     lastNonce := lastNonce c; nonce := nonce c;
     roundTripPing := roundTripPing c; room := room c;
     sentDisconnect := sentDisconnect c |}.

Definition set_sentPackets (v : list SentPacket) (c : Connection) : Connection :=
  {| rinfo := rinfo c; clientId := clientId c;
     hasIdentified := hasIdentified c; usingReactor := usingReactor c;
     username := username c; language := language c;
     clientVersion := clientVersion c; numMods := numMods c;
     mods := mods c; receivedPackets := receivedPackets c;
     sentPackets := v; lastNonce := lastNonce c; nonce := nonce c;
     roundTripPing := roundTripPing c; room := room c;
     sentDisconnect := sentDisconnect c |}.

Definition set_lastNonce (v : Z) (c : Connection) : Connection :=
  {| rinfo := rinfo c; clientId := clientId c;
     hasIdentified := hasIdentified c; usingReactor := usingReactor c;
     username := username c; language := language c;
     clientVersion := clientVersion c; numMods := numMods c;
     mods := mods c; receivedPackets := receivedPackets c;
     sentPackets := sentPackets c; lastNonce := v; nonce := nonce c;
     roundTripPing := roundTripPing c; room := room c;
     sentDisconnect := sentDisconnect c |}.

Definition set_nonce (v : Z) (c : Connection) : Connection :=
  {| rinfo := rinfo c; clientId := clientId c;
     hasIdentified := hasIdentified c; usingReactor := usingReactor c;
     username := username c; language := language c;
     clientVersion := clientVersion c; numMods := numMods c;
     mods := mods c; receivedPackets := receivedPackets c;
     sentPackets := sentPackets c; lastNonce := lastNonce c; nonce := v;
     roundTripPing := roundTripPing c; room := room c;
     sentDisconnect := sentDisconnect c |}.

Definition set_roundTripPing (v : Z) (c : Connection) : Connection :=
  {| rinfo := rinfo c; clientId := clientId c;
     hasIdentified := hasIdentified c; usingReactor := usingReactor c;
     username := username c; language := language c;
     clientVersion := clientVersion c; numMods := numMods c;
     mods := mods c; receivedPackets := receivedPackets c;
     sentPackets := sentPackets c; lastNonce := lastNonce c;
     nonce := nonce c; roundTripPing := v; room := room c;
     sentDisconnect := sentDisconnect c |}.

Definition set_sentDisconnect (v : bool) (c : Connection) : Connection :=
  {| rinfo := rinfo c; clientId := clientId c;
     hasIdentified := hasIdentified c; usingReactor := usingReactor c;
     username := username c; language := language c;
     clientVersion := clientVersion c; numMods := numMods c;
     mods := mods c; receivedPackets := receivedPackets c;
     sentPackets := sentPackets c; lastNonce := lastNonce c;
     nonce := nonce c; roundTripPing := roundTripPing c; room := room c;
     sentDisconnect := v |}.

#[export] Instance Connection_inhabited : Inhabited Connection :=
  populate (mkConnection (mkRemote EmptyString 0) 0 false false EmptyString 0 0
              0 [] [] [] 0 0 0 None false).

Inductive GameState : Type := NotStarted | Started | Ended | Destroyed.

(** What the worker reads of a room: its code, state, the [maxPlayers] of
    its settings, the client id of its host (0 for none), its members (the
    keys of [room.connections]) and its bans. *)
Record Room : Type := mkRoom {
  roomCode : Z;
  state : GameState;
  maxPlayers : Z;
  hostid : Z;
  members : list Z;
  bans : list string
}.

Inductive LogLevel : Type := LogError | LogWarn | LogInfo.

(** What a run of the worker does to the outside, in order: datagrams on
    the socket, log lines, events handed to plugins and calls into rooms.
    [Dispatch] is a ghost event: it marks that [emitDecoded] handed a child
    message to its listeners. *)
Inductive Effect : Type :=
| SocketSend (remote : RemoteInfo) (bytes : Buffer)
| Log (level : LogLevel) (message : string)
| Dispatch (cid : Z) (message : ChildMessage)
| EmitClientConnect (cid : Z)
| EmitClientLeave (cid code : Z)
| ConnJoinError (cid : Z) (reason : Reason)
| RoomHandleRemoteJoin (code cid : Z)
| RoomDecode (code : Z) (message : ChildMessage) (cid : Z)
| RoomBroadcast (code : Z) (messages : list ChildMessage).

(** The worker.  A [Connection] is a mutable object that the registry, the
    rooms and the running listener all refer to: [objects] holds the
    objects by identity (their client id, which is never reused) and
    [connections] is the registry from [address:port] to the object. *)
Record Worker : Type := mkWorker {
  connections : list (string * Z);
  objects : gmap Z Connection;
  rooms : list (Z * Room);
  lastClientId : Z;
  effects : list Effect
}.

Definition with_connections (v : list (string * Z)) (w : Worker) : Worker :=
  {| connections := v; objects := objects w; rooms := rooms w;
     lastClientId := lastClientId w; effects := effects w |}.

Definition with_objects (v : gmap Z Connection) (w : Worker) : Worker :=
  {| connections := connections w; objects := v; rooms := rooms w;
     lastClientId := lastClientId w; effects := effects w |}.

Definition with_lastClientId (v : Z) (w : Worker) : Worker :=
  {| connections := connections w; objects := objects w; rooms := rooms w;
     lastClientId := v; effects := effects w |}.

Definition with_effects (v : list Effect) (w : Worker) : Worker :=
  {| connections := connections w; objects := objects w; rooms := rooms w;
     lastClientId := lastClientId w; effects := v |}.

(** [config.reactor.mods[id]]: [true], [false] or an object. *)
Inductive ModConfig : Type :=
| ModTrue
| ModFalse
| ModObject (version : option string) (banned optional : bool).

Record ReactorObject : Type := mkReactor {
  blockClientSideOnly : bool;
  modsConfig : list (string * ModConfig);
  allowExtraMods : bool;
  requireHostMods : bool;
  allowNormalClients : bool
}.

(** [config.reactor]: [false], [true] or an object. *)
Inductive ReactorConfig : Type :=
| ReactorFalse
| ReactorTrue
| ReactorObj (o : ReactorObject).

(** What the worker takes from outside [Worker.ts]: the packet codec, the
    configuration, the loaded plugins (id and version), the glob matcher,
    the [lastNonce] of a new [Connection], the nonce that a [Connection]
    assigns once its counter has reached the last 16-bit value, and what
    the listeners of the plugins answer to a [WorkerBeforeJoinEvent]
    (whether it is canceled, and the code of the room to join, if any). *)
Record Env : Type := mkEnv {
  parse : Buffer -> ParseResult;
  write : RootPacket -> Buffer;
  reactor : ReactorConfig;
  validVersions : list Z;
  loadedPlugins : list (string * string);
  minimatch : string -> string -> bool;
  freshLastNonce : Z;
  nonceAfterLast : Z;
  beforeJoin : Z -> Z -> option Z -> bool * option Z
}.

Section Operations.
Context (env : Env).

(** Reading a connection object, and writing to it in place. *)
Definition the (w : Worker) (cid : Z) : Connection := objects w !!! cid.

Definition modify (cid : Z) (f : Connection -> Connection) (w : Worker)
  : Worker :=
  with_objects (alter f cid (objects w)) w.

(** One more effect on the outside. *)
Definition emit (e : Effect) (w : Worker) : Worker :=
  with_effects (effects w ++ [e]) w.

(** [this.logger.error], [warn] and [info], with the template of the
    line. *)
Definition log (level : LogLevel) (message : string) (w : Worker) : Worker :=
  emit (Log level message) w.

(** [getNextClientId]. *)
Definition getNextClientId (w : Worker) : Z * Worker :=
  (lastClientId w + 1, with_lastClientId (lastClientId w + 1) w).

(** Modelled from the spec: the constructor of [Connection] (Connection.ts
    is not part of the sources).  A new connection has not completed its
    hello, has announced no mods, has empty deques, belongs to no room and
    has not initiated a disconnect; its nonce counter is such that the
    first nonce it assigns is 1. *)
Definition newConnection (remote : RemoteInfo) (clientid : Z) : Connection :=
  {| rinfo := remote; clientId := clientid; hasIdentified := false;
     usingReactor := false; username := EmptyString; language := 0;
     clientVersion := 0; numMods := 0; mods := [];
     receivedPackets := []; sentPackets := [];
     lastNonce := freshLastNonce env; nonce := 0; roundTripPing := 0;
     room := None; sentDisconnect := false |}.

(** [new Connection(this, rinfo, this.getNextClientId())] followed by
    [this.connections.set(fmt, connection)]. *)
Definition createConnection (remote : RemoteInfo) (w : Worker) : Z * Worker :=
  let '(clientid, w1) := getNextClientId w in
  let w2 := with_objects (<[clientid := newConnection remote clientid]> (objects w1)) w1 in
  (clientid, with_connections (mset (fmt remote) clientid (connections w2)) w2).

(** [getOrCreateConnection]. *)
Definition getOrCreateConnection (remote : RemoteInfo) (w : Worker)
  : Z * Worker :=
  match mget (fmt remote) (connections w) with
  | Some cached => (cached, w)
  | None => createConnection remote w
  end.

(** [removeConnection]. *)
Definition removeConnection (cid : Z) (w : Worker) : Worker :=
  log LogInfo "Remove %s"
    (with_connections (mdelete (fmt (rinfo (the w cid))) (connections w)) w).

(** [_sendPacket]. *)
Definition socketSend (remote : RemoteInfo) (bytes : Buffer) (w : Worker)
  : Worker :=
  emit (SocketSend remote bytes) w.

(** The bytes [sendPacket] builds: the tag, then the packet as the codec
    writes it. *)
Definition serialize (packet : RootPacket) : Buffer :=
  tag packet :: write env packet.

(** What [Worker.sendPacket] does once its writer has built the bytes: a
    packet that carries a nonce and is not an Acknowledge is recorded at
    the head of [connection.sentPackets], which is cut to eight entries,
    and the bytes go out on the socket; [now] is what [Date.now()]
    reads. *)
Definition deliver (now cid : Z) (packet : RootPacket) (w : Worker)
  : Worker :=
  let bytes := serialize packet in
  match nonceOf packet with
  | Some n =>
      if isAcknowledge packet then socketSend (rinfo (the w cid)) bytes w
      else
        let w1 :=
          modify cid
            (fun c =>
               set_sentPackets
                 (take 8%nat (mkSentPacket n bytes now false :: sentPackets c)) c)
            w in
        socketSend (rinfo (the w1 cid)) bytes w1
  | None => socketSend (rinfo (the w cid)) bytes w
  end.

(** The writer of the protocol library writes a nonce as an unsigned
    16-bit integer: it accepts the values from 0 to 65535 and throws for
    any other. *)
Definition writable (packet : RootPacket) : bool :=
  match nonceOf packet with
  | Some n => (0 <=? n) && (n <=? 65535)
  | None => true
  end.

(** [Worker.sendPacket].  The packet is serialised first, so that the
    exception of the writer ([None]) leaves the deque and the socket
    untouched. *)
Definition sendPacket (now cid : Z) (packet : RootPacket) (w : Worker)
  : option Worker :=
  if writable packet then Some (deliver now cid packet w) else None.

(** Modelled from the spec: [Connection.sendPacket] (Connection.ts is not
    part of the sources).  What is sent to a connection goes through the
    reliability layer as the spec describes the sending (4.2): the packet
    is serialised, recorded at the head of the in-flight deque unless it
    is an Acknowledge, the deque is cut to eight, and the bytes are
    transmitted.  The spec describes no failure of it. *)
Definition connectionSendPacket (now cid : Z) (packet : RootPacket)
           (w : Worker) : Worker :=
  deliver now cid packet w.

(** Modelled from the spec: [Connection.getNextNonce] (Connection.ts is
    not part of the sources) assigns the next nonce of the connection,
    starting at 1.  The nonce of the spec is a 16-bit integer that
    increases monotonically: below 65535 the next nonce is one more than
    the last.  The spec does not say what follows 65535; that nonce is a
    parameter. *)
Definition nextNonce (c : Connection) : Z :=
  if nonce c <? 65535 then nonce c + 1 else nonceAfterLast env.

Definition getNextNonce (cid : Z) (w : Worker) : Z * Worker :=
  let w1 := modify cid (fun c => set_nonce (nextNonce c) c) w in
  (nonce (the w1 cid), w1).

(** Modelled from the spec: [Connection.disconnect] (Connection.ts is not
    part of the sources) as a graceful disconnect (4.3), which the
    listeners ask for: it sends a Disconnect packet with the reason, marks
    the disconnect as initiated, removes the connection from the registry,
    and emits a ClientLeave event when the connection was in a room. *)
Definition disconnect (now cid : Z) (reason : Reason) (w : Worker) : Worker :=
  let w1 := connectionSendPacket now cid (DisconnectPacket reason) w in
  let w2 := modify cid (set_sentDisconnect true) w1 in
  let w3 := removeConnection cid w2 in
  match room (the w3 cid) with
  | Some code => emit (EmitClientLeave cid code) w3
  | None => w3
  end.

(** Modelled from the spec: [Connection.disconnect] after a liveness
    failure, which the ticker asks for (Connection.ts is not part of the
    sources).  The spec (4.3, 7) has it as an abrupt remove: the
    connection is just removed from the registry, silently, and a
    ClientLeave event is emitted when the connection was in a room. *)
Definition abruptRemove (cid : Z) (w : Worker) : Worker :=
  let w1 := removeConnection cid w in
  match room (the w1 cid) with
  | Some code => emit (EmitClientLeave cid code) w1
  | None => w1
  end.

(** Modelled from the spec: [Connection.address] (Connection.ts is not part
    of the sources) is the identity key of the connection, the
    [address:port] pair that the registry and the bans of a room use. *)
Definition connectionAddress (w : Worker) (cid : Z) : string :=
  fmt (rinfo (the w cid)).

(** [Connection.joinError] is a call into Connection.ts: it is recorded. *)
Definition joinError (cid : Z) (reason : Reason) (w : Worker) : Worker :=
  emit (ConnJoinError cid reason) w.

(** Modelled from the spec: [Connection.getPlayer] and the [ishost] of the
    player it returns (neither is part of the sources).  A connection has a
    player when it refers to a room of the worker that has it as a member;
    the player is the host when the host client id of the room is its
    own.  The result is the room and that flag. *)
Definition getPlayer (w : Worker) (cid : Z) : option (Room * bool) :=
  match room (the w cid) with
  | None => None
  | Some code =>
      match mget code (rooms w) with
      | None => None
      | Some r =>
          if bool_decide (cid ∈ members r)
          then Some (r, bool_decide (hostid r = cid))
          else None
      end
  end.

(** *** The listeners of [registerPacketHandlers] *)

(** On [ReliablePacket], [ModdedHelloPacket] and [PingPacket]. *)
Definition onNonced (now cid nonce : Z) (w : Worker) : Worker :=
  let w1 :=
    modify cid
      (fun c => set_receivedPackets (take 8%nat (nonce :: receivedPackets c)) c) w in
  connectionSendPacket now cid (AcknowledgePacket nonce []) w1.

(** Modelled from the spec: [chunkArr] (util/chunkArr.ts is not part of the
    sources) cuts a list into chunks of at most [n] elements. *)
Fixpoint chunkArr {A : Type} (fuel n : nat) (l : list A) : list (list A) :=
  match fuel with
  | O => []
  | S fuel' =>
      match l with
      | [] => []
      | _ => take n l :: chunkArr fuel' n (drop n l)
      end
  end.

Fixpoint sendPluginChunks (now cid : Z) (i : Z)
         (chunks : list (list (string * string))) (w : Worker) : Worker :=
  match chunks with
  | [] => w
  | chunk :: more =>
      let '(n, w1) := getNextNonce cid w in
      let w2 :=
        connectionSendPacket now cid
          (ReliablePacket n
             (map (fun plugin : string * string =>
                     ReactorMessage
                       (ReactorModDeclarationMessage i
                          (mkReactorMod (fst plugin) (snd plugin) Both)))
                  chunk))
          w1 in
      sendPluginChunks now cid (i + 1) more w2
  end.

(** On [ModdedHelloPacket]. *)
Definition onModdedHello (now cid : Z) (clientver : Z) (uname : string)
           (lang : Z) (modcount : option Z) (w : Worker) : Worker :=
  if hasIdentified (the w cid) then w
  else
    let isReactor := match modcount with Some _ => true | None => false end in
    let w1 :=
      modify cid
        (fun c =>
           let c1 :=
             set_clientVersion clientver
               (set_language lang
                  (set_username uname
                     (set_usingReactor isReactor (set_hasIdentified true c)))) in
           match modcount with
           | Some m => set_numMods m c1
           | None => c1
           end)
        w in
    if negb (bool_decide (clientver ∈ validVersions env)) then
      disconnect now cid (Code IncorrectVersion)
        (log LogWarn "%s connected with invalid client version: %s" w1)
    else
      let w2 := log LogInfo "%s connected, language: %s" w1 in
      if isReactor then
        match reactor env with
        | ReactorFalse =>
            disconnect now cid (Localized reactor_not_enabled_on_server []) w2
        | _ =>
            let '(n, w3) := getNextNonce cid w2 in
            let w4 :=
              connectionSendPacket now cid
                (ReliablePacket n
                   [ReactorMessage
                      (ReactorHandshakeMessage "Hindenburg" "1.0.0" 0)])
                w3 in
            let entries := loadedPlugins env in
            let w5 :=
              sendPluginChunks now cid 0
                (chunkArr (List.length entries) 4%nat entries) w4 in
            emit (EmitClientConnect cid) w5
        end
      else
        match reactor env with
        | ReactorFalse => emit (EmitClientConnect cid) w2
        | ReactorTrue =>
            disconnect now cid (Localized reactor_required_on_server []) w2
        | ReactorObj o =>
            if negb (allowNormalClients o) then
              disconnect now cid (Localized reactor_required_on_server []) w2
            else emit (EmitClientConnect cid) w2
        end.

(** On [ReactorModDeclarationMessage]. *)
Definition onModDeclaration (cid : Z) (declNetId : Z) (declared : ReactorMod)
           (w : Worker) : Worker :=
  let c := the w cid in
  if (numMods c <=? msize (mods c))%Z then w
  else
    let clientMod :=
      mkClientMod declNetId (rmodId declared) (rmodVersion declared)
      (rmodSide declared) in
    let w1 := modify cid (fun c => set_mods (mset (modId clientMod) clientMod (mods c)) c) w in
    let size := msize (mods (the w1 cid)) in
    if (size =? 4)%Z then
      log LogInfo "... Got more mods from %s, use '%s' to see more" w1
    else if (size <? 4)%Z then log LogInfo "Got mod from %s: %s" w1
    else w1.

(** On [DisconnectPacket].  The [disconnect] that answers the packet of
    the client is the graceful one, without a reason: the spec (3) has a
    connection destroyed after a disconnect packet is exchanged. *)
Definition onDisconnect (now cid : Z) (w : Worker) : Worker :=
  let w1 :=
    if negb (sentDisconnect (the w cid)) then disconnect now cid NoReason w
    else w in
  removeConnection cid w1.

(** The loop of the [AcknowledgePacket] listener: the first sent packet
    with the nonce is marked, and the round trip is measured from it. *)
Fixpoint markAcked (now nonce : Z) (sent : list SentPacket)
  : option (list SentPacket * Z) :=
  match sent with
  | [] => None
  | sentPacket :: rest =>
      if (sentNonce sentPacket =? nonce)%Z then
        Some (mkSentPacket (sentNonce sentPacket) (buffer sentPacket)
                (sentAt sentPacket) true :: rest,
              now - sentAt sentPacket)%Z
      else
        match markAcked now nonce rest with
        | Some (rest', rtt) => Some (sentPacket :: rest', rtt)
        | None => None
        end
  end.

(** On [AcknowledgePacket]. *)
Definition onAcknowledge (now cid nonce : Z) (w : Worker) : Worker :=
  modify cid
    (fun c =>
       match markAcked now nonce (sentPackets c) with
       | Some (sent', rtt) => set_roundTripPing rtt (set_sentPackets sent' c)
       | None => c
       end)
    w.

(** *** [checkClientMods] *)

(** The loop over [Object.entries(this.config.reactor.mods)]: [None] when
    the loop runs to its end, otherwise what the function returns from
    inside the loop ([Some None] for a [return] without a value). *)
Fixpoint checkConfigEntries (now cid : Z) (entries : list (string * ModConfig))
         (w : Worker) : option (option bool) * Worker :=
  match entries with
  | [] => (None, w)
  | (entryId, modConfig) :: more =>
      match mget entryId (mods (the w cid)) with
      | None =>
          match modConfig with
          | ModFalse => (Some None, w)
          | ModTrue =>
              checkConfigEntries now cid more
                (disconnect now cid
                   (Localized missing_required_mod [entryId; "any"]) w)
          | ModObject version _ optional =>
              if negb optional then
                checkConfigEntries now cid more
                  (disconnect now cid
                     (Localized missing_required_mod
                        [entryId;
                         match version with
                         | Some v => if Js.truthy v then "v" +:+ v else "any"
                         | None => "any"
                         end]) w)
              else checkConfigEntries now cid more w
          end
      | Some clientMod =>
          match modConfig with
          | ModFalse =>
              (Some (Some false),
               disconnect now cid (Localized mod_banned_on_server [entryId]) w)
          | ModTrue => checkConfigEntries now cid more w
          | ModObject version banned _ =>
              if banned then
                (Some (Some false),
                 disconnect now cid (Localized mod_banned_on_server [entryId]) w)
              else
                match version with
                | Some v =>
                    if Js.truthy v && negb (minimatch env (modVersion clientMod) v)
                    then
                      (Some (Some false),
                       disconnect now cid
                         (Localized bad_mod_version
                            [entryId; "v" +:+ modVersion clientMod; "v" +:+ v])
                         w)
                    else checkConfigEntries now cid more w
                | None => checkConfigEntries now cid more w
                end
          end
      end
  end.

(** The names of the properties that a plain object inherits from
    [Object.prototype].  Reading one of them on an object that has no own
    property of that name gives a function (the prototype itself for
    [__proto__]), which is truthy. *)
Definition objectPrototypeNames : list string :=
  ["constructor"; "__defineGetter__"; "__defineSetter__"; "hasOwnProperty";
   "__lookupGetter__"; "__lookupSetter__"; "isPrototypeOf";
   "propertyIsEnumerable"; "toString"; "valueOf"; "__proto__";
   "toLocaleString"].

(** [!this.config.reactor.mods[modId]]: the table is a plain object whose
    own properties are the entries of the configuration.  An entry that is
    [false] is falsy, [true] and an object are truthy; without an entry
    the read falls through to [Object.prototype] and is falsy
    ([undefined]) unless the name is one of its properties. *)
Definition unrecognised (config : list (string * ModConfig)) (modId : string)
  : bool :=
  match mget modId config with
  | Some ModFalse => true
  | Some _ => false
  | None => negb (bool_decide (modId ∈ objectPrototypeNames))
  end.

(** The loop over [connection.mods] when extra mods are not allowed: the
    first mod of the client that the table does not recognise. *)
Fixpoint firstExtraMod (config : list (string * ModConfig))
         (clientMods : list (string * ClientMod)) : option ClientMod :=
  match clientMods with
  | [] => None
  | (_, clientMod) :: more =>
      if unrecognised config (modId clientMod) then Some clientMod
      else firstExtraMod config more
  end.

(** [checkClientMods]: what it returns ([None] for [undefined]) and the
    worker after it. *)
Definition checkClientMods (now cid : Z) (w : Worker) : option bool * Worker :=
  let c := the w cid in
  if negb (usingReactor c) then (Some true, w)
  else if (msize (mods c) <? numMods c)%Z then
    (Some false, disconnect now cid (Localized havent_received_all_mods []) w)
  else
    match reactor env with
    | ReactorFalse =>
        (Some false,
         disconnect now cid (Localized reactor_not_enabled_on_server []) w)
    | ReactorTrue => (Some true, w)
    | ReactorObj o =>
        match checkConfigEntries now cid (modsConfig o) w with
        | (Some result, w1) => (result, w1)
        | (None, w1) =>
            if negb (allowExtraMods o) then
              match firstExtraMod (modsConfig o) (mods (the w1 cid)) with
              | Some clientMod =>
                  (Some false,
                   disconnect now cid
                     (Localized mod_not_recognised [modId clientMod]) w1)
              | None => (Some true, w1)
              end
            else (Some true, w1)
        end
    end.

(** *** The [JoinGameMessage] listener *)

Definition isClientside (side : ModPluginSide) : bool :=
  match side with Clientside => true | _ => false end.

(** The loop over the mods of the host: the first join error, if any. *)
Fixpoint hostModsError (block : bool) (clientMods hostMods : list (string * ClientMod))
  : option Reason :=
  match hostMods with
  | [] => None
  | (hostModId, hostMod) :: more =>
      if isClientside (networkSide hostMod) && block then
        hostModsError block clientMods more
      else
        match mget hostModId clientMods with
        | None =>
            Some (Localized missing_required_mod
                    [modId hostMod; modVersion hostMod])
        | Some clientMod =>
            if negb (String.eqb (modVersion clientMod) (modVersion hostMod)) then
              Some (Localized bad_mod_version
                      [modId clientMod; modVersion clientMod; modVersion hostMod])
            else hostModsError block clientMods more
        end
  end.

(** The loop over the mods of the joining client. *)
Fixpoint clientModsError (block : bool) (hostMods clientMods : list (string * ClientMod))
  : option Reason :=
  match clientMods with
  | [] => None
  | (clientModId, clientMod) :: more =>
      if isClientside (networkSide clientMod) && block then
        clientModsError block hostMods more
      else
        match mget clientModId hostMods with
        | None => Some (Localized mod_not_recognised [modId clientMod])
        | Some _ => clientModsError block hostMods more
        end
  end.

(** The host-mod requirement of the listener: the join error it ends
    with, if any. *)
Definition hostRequirementError (w : Worker) (cid : Z) (r : Room)
  : option Reason :=
  let required :=
    match reactor env with
    | ReactorFalse => false
    | ReactorTrue => true
    | ReactorObj o => requireHostMods o
    end in
  let block :=
    match reactor env with
    | ReactorObj o => blockClientSideOnly o
    | _ => true
    end in
  if required && negb (hostid r =? 0)%Z && bool_decide (hostid r ∈ members r)
  then
    let host := the w (hostid r) in
    let c := the w cid in
    if usingReactor host && negb (usingReactor c) then
      Some (Localized reactor_required_for_room [])
    else if negb (usingReactor host) && usingReactor c then
      Some (Localized reactor_not_enabled_for_room [])
    else
      match hostModsError block (mods c) (mods host) with
      | Some e => Some e
      | None => clientModsError block (mods host) (mods c)
      end
  else None.

(** On [JoinGameMessage].  [Room.handleRemoteJoin] is a call into Room.ts:
    it is recorded. *)
Definition onJoinGame (now cid code : Z) (w : Worker) : Worker :=
  match room (the w cid) with
  | Some _ => w
  | None =>
      match checkClientMods now cid w with
      | (Some true, w1) =>
          let foundRoom := option_map roomCode (mget code (rooms w1)) in
          let '(canceled, alteredCode) := beforeJoin env cid code foundRoom in
          if canceled then w1
          else
            match alteredCode ≫= (fun k => mget k (rooms w1)) with
            | None =>
                joinError cid (Code GameNotFound)
                  (log LogInfo
                     "%s attempted to join %s but there was no room with that code"
                     w1)
            | Some alteredRoom =>
                if bool_decide (connectionAddress w1 cid ∈ bans alteredRoom) then
                  disconnect now cid (Code Banned)
                    (log LogWarn "%s attempted to join %s but they were banned" w1)
                else if (maxPlayers alteredRoom <=? Z.of_nat (List.length (members alteredRoom)))%Z then
                  joinError cid (Code GameFull)
                    (log LogWarn "%s attempted to join %s but it was full" w1)
                else
                  match state alteredRoom with
                  | Started =>
                      joinError cid (Code GameStarted)
                        (log LogWarn
                           "%s attempted to join %s but the game had already started"
                           w1)
                  | _ =>
                      match hostRequirementError w1 cid alteredRoom with
                      | Some e => joinError cid e w1
                      | None =>
                          emit (RoomHandleRemoteJoin (roomCode alteredRoom) cid)
                            (log LogInfo "%s joining room %s" w1)
                      end
                  end
            end
      | (_, w1) => w1
      end
  end.

(** *** The host-only listeners *)

(** On [AlterGameMessage], [StartGameMessage] and [EndGameMessage]: a
    sender that has a player and is not the host is disconnected; for the
    host the message is decoded by the room and broadcast again (calls into
    Room.ts, recorded). *)
Definition onHostOnly (now cid : Z) (message rebroadcast : ChildMessage)
           (w : Worker) : Worker :=
  match getPlayer w cid with
  | None => w
  | Some (r, ishost) =>
      if negb ishost then disconnect now cid (Code Hacking) w
      else
        emit (RoomBroadcast (roomCode r) [rebroadcast])
          (emit (RoomDecode (roomCode r) message cid) w)
  end.

(** On [KickPlayerMessage]: what follows the host check is commented out
    in the source. *)
Definition onKickPlayer (now cid : Z) (w : Worker) : Worker :=
  match getPlayer w cid with
  | None => w
  | Some (_, ishost) =>
      if negb ishost then disconnect now cid (Code Hacking) w else w
  end.

(** The room code the host-only listeners put into the message they
    broadcast: [connection.room.code]. *)
Definition ownRoomCode (w : Worker) (cid : Z) : Z :=
  match room (the w cid) with Some code => code | None => 0 end.

(** *** [emitDecoded] *)

(** The listeners of one child message.  A reactor message hands its child
    on to the listener of the mod declaration. *)
Definition emitChild (now cid : Z) (message : ChildMessage) (w : Worker)
  : Worker :=
  let w := emit (Dispatch cid message) w in
  match message with
  | JoinGameMessage code => onJoinGame now cid code w
  | AlterGameMessage _ alterTag value =>
      onHostOnly now cid message
        (AlterGameMessage (ownRoomCode w cid) alterTag value) w
  | StartGameMessage _ =>
      onHostOnly now cid message (StartGameMessage (ownRoomCode w cid)) w
  | EndGameMessage _ reason _ =>
      onHostOnly now cid message
        (EndGameMessage (ownRoomCode w cid) reason false) w
  | KickPlayerMessage _ _ _ => onKickPlayer now cid w
  | ReactorMessage (ReactorModDeclarationMessage declNetId declared) =>
      onModDeclaration cid declNetId declared w
  | ReactorMessage (ReactorHandshakeMessage _ _ _) => w
  | OtherMessage _ => w
  end.

Definition emitChildren (now cid : Z) (children : list ChildMessage)
           (w : Worker) : Worker :=
  fold_left (fun w message => emitChild now cid message w) children w.

(** [decoder.emitDecoded(packet, Serverbound, connection)]: the decoder of
    the protocol library emits the children of a message, in order, and
    then the message itself to its listeners, in the order of their
    registration. *)
Definition emitDecoded (now cid : Z) (packet : RootPacket) (w : Worker)
  : Worker :=
  match packet with
  | UnreliablePacket children => emitChildren now cid children w
  | ReliablePacket nonce children =>
      onNonced now cid nonce (emitChildren now cid children w)
  | ModdedHelloPacket nonce clientver uname lang modcount =>
      onModdedHello now cid clientver uname lang modcount
        (onNonced now cid nonce w)
  | DisconnectPacket _ => onDisconnect now cid w
  | AcknowledgePacket nonce _ => onAcknowledge now cid nonce w
  | PingPacket nonce => onNonced now cid nonce w
  end.

(** *** [handleMessage] *)

(** [buffer[5] !== 0xff]. *)
Definition notReactorByte (bytes : Buffer) : bool :=
  negb (bool_decide (bytes !! 5%nat = Some 255%Z)).

(** [handleMessage(buffer, rinfo)].  The listeners of this model do not
    throw, so the inner [catch] has nothing to catch. *)
Definition handleMessage (now : Z) (bytes : Buffer) (remote : RemoteInfo)
           (w : Worker) : Worker :=
  match parse env bytes with
  | Malformed =>
      let '(_, w1) := getOrCreateConnection remote w in
      log LogError "%s sent a malformed packet" w1
  | UnknownRoot =>
      let '(_, w1) := getOrCreateConnection remote w in
      log LogError "%s sent an unknown root packet (%s)" w1
  | Parsed parsedPacket =>
      match mget (fmt remote) (connections w) with
      | Some cachedConnection =>
          match nonceOf parsedPacket with
          | Some nonce =>
              if isAcknowledge parsedPacket then
                emitDecoded now cachedConnection parsedPacket w
              else if (nonce <=? lastNonce (the w cachedConnection))%Z then
                let w1 :=
                  log LogWarn "%s is behind (got %s, last nonce was %s)" w in
                if notReactorByte bytes then w1
                else
                  emitDecoded now cachedConnection parsedPacket
                    (modify cachedConnection (set_lastNonce nonce) w1)
              else
                emitDecoded now cachedConnection parsedPacket
                  (modify cachedConnection (set_lastNonce nonce) w)
          | None => emitDecoded now cachedConnection parsedPacket w
          end
      | None =>
          if negb (isModdedHello parsedPacket) then w
          else
            let '(connection, w1) := createConnection remote w in
            let w2 :=
              match nonceOf parsedPacket with
              | Some nonce => modify connection (set_lastNonce nonce) w1
              | None => w1
              end in
            emitDecoded now connection parsedPacket w2
      end
  end.

(** *** The reliability ticker *)

(** The loop over [connection.sentPackets]: the deque after it and the
    datagrams it sends. *)
Fixpoint resendLoop (now : Z) (remote : RemoteInfo) (sent : list SentPacket)
  : list SentPacket * list Effect :=
  match sent with
  | [] => ([], [])
  | s :: rest =>
      let '(rest', sends) := resendLoop now remote rest in
      if negb (acked s) && (500 <? now - sentAt s)%Z then
        (mkSentPacket (sentNonce s) (buffer s) now (acked s) :: rest',
         SocketSend remote (buffer s) :: sends)
      else (s :: rest', sends)
  end.

(** The body of the loop over the connections.  The [disconnect] of a
    connection that is presumed dead is the abrupt remove of the spec. *)
Definition tickConnection (now cid : Z) (w : Worker) : Worker :=
  let c := the w cid in
  if (List.length (sentPackets c) =? 8)%nat
     && forallb (fun packet => negb (acked packet)) (sentPackets c)
  then
    abruptRemove cid
      (log LogWarn
         "%s failed to acknowledge any of the last 8 reliable packets sent, presumed dead"
         w)
  else
    let '(n, w1) := getNextNonce cid w in
    let w2 := connectionSendPacket now cid (PingPacket n) w1 in
    let c2 := the w2 cid in
    let '(sent', sends) := resendLoop now (rinfo c2) (sentPackets c2) in
    with_effects (effects w2 ++ sends)
      (modify cid (set_sentPackets sent') w2).

(** The callback of [setInterval]: the connections are visited in the
    order of the registry; one that was removed before its turn is not
    visited. *)
Definition tick (now : Z) (w : Worker) : Worker :=
  fold_left
    (fun w (entry : string * Z) =>
       match mget (fst entry) (connections w) with
       | Some cid => tickConnection now cid w
       | None => w
       end)
    (connections w) w.

(** A run of the worker over the datagrams it receives. *)
Definition run (datagrams : list (Z * Buffer * RemoteInfo)) (w : Worker)
  : Worker :=
  fold_left
    (fun w (d : Z * Buffer * RemoteInfo) =>
       handleMessage (fst (fst d)) (snd (fst d)) (snd d) w)
    datagrams w.

End Operations.

End Net.

(** ** Vocabulary of the statements *)

Module Spec.
Import Chat.

(** [c] occurs in [s]. *)
Fixpoint hasChar (c : ascii) (s : string) : bool :=
  match s with
  | EmptyString => false
  | String x r => Ascii.eqb x c || hasChar c r
  end.

Definition noBracket (s : string) : Prop :=
  hasChar "[" s = false /\ hasChar "<" s = false.

(** A parameter that [createUsage] renders so that the parameter pattern
    finds it again: its name does not hold its own closing bracket. *)
Definition rendersBack (p : ChatCommandParameter) : Prop :=
  hasChar (if required p then ">" else "]")%char (name p) = false.

(** No required parameter after an optional one; [wasOptional] tells
    whether an optional one came before the list. *)
Fixpoint ordered (wasOptional : bool) (ps : list ChatCommandParameter) : Prop :=
  match ps with
  | [] => True
  | p :: more =>
      (required p = true -> wasOptional = false)
      /\ ordered (wasOptional || negb (required p)) more
  end.

Definition noRest (ps : list ChatCommandParameter) : Prop :=
  Forall (fun p => isRest p = false) ps.

Definition noDots (p : ChatCommandParameter) : Prop :=
  Js.endsWith "..." (name p) = false.

(** A match of the parameter pattern: a bracket, an inner part without
    the closing bracket, the closing bracket. *)
Definition isMatch (m : string) : Prop :=
  exists inner,
    (m = String "[" (inner +:+ "]") /\ hasChar "]" inner = false)
    \/ (m = String "<" (inner +:+ ">") /\ hasChar ">" inner = false).

(** A token of the splitter: no quote and no space in it. *)
Definition plainToken (t : string) : Prop :=
  hasChar "'" t = false /\ hasChar " " t = false.

(** The tokens with the last one dropped when it is empty. *)
Fixpoint dropTrailingEmpty (ts : list string) : list string :=
  match ts with
  | [] => []
  | [t] => if Js.truthy t then [t] else []
  | t :: rest => t :: dropTrailingEmpty rest
  end.

(** Binding parameters to the tokens they consume, one each, by the
    assignment [parsed[name] = token]. *)
Fixpoint bindAll (ps : list ChatCommandParameter) (ts : list string)
         (parsed : gmap string string) : gmap string string :=
  match ps, ts with
  | p :: ps', t :: ts' =>
      bindAll ps' ts' (assignProperty (name p) t parsed)
  | _, _ => parsed
  end.

End Spec.

(** ** Concrete inputs *)

Module Scenario.
Import Chat.

Definition kickUsage : string := "kick <name> [reason...]".

Definition kickCommand (description : string) : RegisteredChatCommand :=
  mkCommand "kick"
    [mkParam false true "name"; mkParam true false "reason"] description.

End Scenario.

(** ** Vocabulary of the statements about the worker *)

Module NetSpec.
Import Net.

Local Open Scope Z_scope.

(** The last-seen nonce of the connection object [cid], if there is one. *)
Definition lastNonceOf (w : Worker) (cid : Z) : option Z :=
  lastNonce <$> objects w !! cid.

(** Every connection object carries a client id that was handed out. *)
Definition allocated (w : Worker) : Prop :=
  forall id, lastClientId w < id -> objects w !! id = None.

(** [w'] has the client-id counter and the last-seen nonces of [w], and
    no registry entry that [w] has not. *)
Definition keeps (w w' : Worker) : Prop :=
  lastClientId w' = lastClientId w
  /\ (forall id, lastNonceOf w' id = lastNonceOf w id)
  /\ (forall k v, mget k (connections w') = Some v ->
                  mget k (connections w) = Some v).

(** No connection object is lost and no last-seen nonce is lower in [w']
    than in [w]. *)
Definition neverLower (w w' : Worker) : Prop :=
  forall id n,
    lastNonceOf w id = Some n ->
    exists n', lastNonceOf w' id = Some n' /\ n <= n'.

(** Datagrams on the socket that start with the tag of an Acknowledge. *)
Definition isAckSend (e : Effect) : bool :=
  match e with
  | SocketSend _ (t :: _) => (t =? 10)
  | _ => false
  end.

Definition isDispatch (e : Effect) : bool :=
  match e with Dispatch _ _ => true | _ => false end.

Definition isRoomCall (e : Effect) : bool :=
  match e with
  | RoomBroadcast _ _ | RoomDecode _ _ _ | RoomHandleRemoteJoin _ _ => true
  | _ => false
  end.

Definition count (p : Effect -> bool) (w : Worker) : nat :=
  List.length (List.filter p (effects w)).

(** From [w] to [w'] no Acknowledge went out and no child message was
    handed to its listeners. *)
Definition quiet (w w' : Worker) : Prop :=
  count isAckSend w' = count isAckSend w
  /\ count isDispatch w' = count isDispatch w.

(** The packets that [sendPacket] records as in flight. *)
Definition tracked (packet : RootPacket) : bool :=
  match nonceOf packet with
  | Some _ => negb (isAcknowledge packet)
  | None => false
  end.

(** A call of [sendPacket]: the time, the connection and the packet. *)
Definition SendCall : Type := Z * Z * RootPacket.

(** A sequence of calls of [sendPacket], each on the worker that the
    calls before it left; a call that throws leaves the worker as it
    is. *)
Definition sendAll (env : Env) (calls : list SendCall) (w : Worker) : Worker :=
  fold_left
    (fun w (call : SendCall) =>
       default w
         (sendPacket env (fst (fst call)) (snd (fst call)) (snd call) w))
    calls w.

(** The entry that a tracked packet leaves in the deque. *)
Definition sentEntry (env : Env) (call : SendCall) : SentPacket :=
  mkSentPacket (default 0 (nonceOf (snd call))) (serialize env (snd call))
    (fst (fst call)) false.

(** A call that leaves an entry in the deque of [cid]: it is for [cid],
    its packet is tracked and the writer accepts it. *)
Definition records (cid : Z) (call : SendCall) : bool :=
  bool_decide (snd (fst call) = cid) && tracked (snd call)
  && writable (snd call).

(** The entries that the calls leave in the deque of [cid], the last call
    first. *)
Definition newEntries (env : Env) (cid : Z) (calls : list SendCall)
  : list SentPacket :=
  rev (map (sentEntry env) (List.filter (records cid) calls)).

(** The test of the ticker on a connection: eight packets in flight and
    none of them acknowledged. *)
Definition presumedDead (c : Connection) : bool :=
  (List.length (sentPackets c) =? 8)%nat
  && forallb (fun packet => negb (acked packet)) (sentPackets c).

(** A sent packet that is not acknowledged and older than 500 ms. *)
Definition due (now : Z) (s : SentPacket) : bool :=
  negb (acked s) && (500 <? now - sentAt s).

(** The same packet, same bytes, with [sentAt] set to [now] when due. *)
Definition refresh (now : Z) (s : SentPacket) : SentPacket :=
  if due now s then mkSentPacket (sentNonce s) (buffer s) now (acked s) else s.

(** The deque once the ping of the tick is recorded in it. *)
Definition withPing (env : Env) (now : Z) (c : Connection) : list SentPacket :=
  take 8%nat
    (mkSentPacket (nextNonce env c)
       (serialize env (PingPacket (nextNonce env c))) now false
     :: sentPackets c).

(** What a turn of the ticker leaves of a connection: as it was when it
    is presumed dead; otherwise with the next nonce used for the ping, the
    ping recorded, and the entries that are due refreshed. *)
Definition tickedObject (env : Env) (now : Z) (c : Connection) : Connection :=
  if presumedDead c then c
  else set_sentPackets (map (refresh now) (withPing env now c))
         (set_nonce (nextNonce env c) c).

(** What a turn of the ticker does to the outside for a connection. *)
Definition tickedEffects (env : Env) (now cid : Z) (c : Connection)
  : list Effect :=
  if presumedDead c then
    [Log LogWarn
       "%s failed to acknowledge any of the last 8 reliable packets sent, presumed dead";
     Log LogInfo "Remove %s"]
    ++ match room c with
       | Some code => [EmitClientLeave cid code]
       | None => []
       end
  else
    SocketSend (rinfo c) (serialize env (PingPacket (nextNonce env c)))
    :: map (fun s => SocketSend (rinfo c) (buffer s))
         (List.filter (due now) (withPing env now c)).

(** The registry holds a key once, and a connection is registered under
    the key of its own endpoint. *)
Definition registryOk (w : Worker) : Prop :=
  NoDup (map fst (connections w))
  /\ forall k cid,
      mget k (connections w) = Some cid -> fmt (rinfo (the w cid)) = k.

(** The messages that only the host of a room may send. *)
Definition hostOnly (message : ChildMessage) : bool :=
  match message with
  | AlterGameMessage _ _ _ | StartGameMessage _ | EndGameMessage _ _ _
  | KickPlayerMessage _ _ _ => true
  | _ => false
  end.

Definition behindWarning : Effect :=
  Log LogWarn "%s is behind (got %s, last nonce was %s)".

Definition presumedDeadWarning : Effect :=
  Log LogWarn
    "%s failed to acknowledge any of the last 8 reliable packets sent, presumed dead".

#[export] Instance RemoteInfo_eq_dec : EqDecision RemoteInfo.
Proof. solve_decision. Defined.

(** The datagrams on the socket for the endpoint [remote]. *)
Definition sentTo (remote : RemoteInfo) (e : Effect) : bool :=
  match e with
  | SocketSend r _ => bool_decide (r = remote)
  | _ => false
  end.

(** The ping that a turn of the ticker sends to a connection, and the
    datagrams of that turn for the connection: the ping, then the packets
    on record that are due, in the order of the deque. *)
Definition pingOf (env : Env) (c : Connection) : RootPacket :=
  PingPacket (nextNonce env c).

Definition tickDatagrams (env : Env) (now : Z) (c : Connection)
  : list Effect :=
  SocketSend (rinfo c) (serialize env (pingOf env c))
  :: map (fun s => SocketSend (rinfo c) (buffer s))
       (List.filter (due now) (withPing env now c)).

End NetSpec.

(** ** Concrete inputs for the worker *)

Module NetScenario.
Import Net.

Local Open Scope Z_scope.

Definition client : RemoteInfo := mkRemote "10.0.0.7" 50123.
Definition host : RemoteInfo := mkRemote "10.0.0.1" 50001.

(** Datagrams: a reliable packet with nonce 5 and a StartGame child; a
    reliable packet with nonce 3 whose first child is a reactor handshake
    (tag 0xff at offset 5); a reliable packet with nonce 9 and a JoinGame
    child; a truncated reliable packet; a datagram with a root tag that
    the protocol does not have. *)
Definition reliable5 : Buffer := [1; 0; 5; 4; 0; 2; 32; 0; 0; 0].
Definition reactor3 : Buffer := [1; 0; 3; 3; 0; 255; 0; 1; 0].
Definition join9 : Buffer := [1; 0; 9; 4; 0; 1; 32; 0; 0; 0].
Definition truncated : Buffer := [1; 0].
Definition unknownTag : Buffer := [99; 0; 1].

(** A codec for the scenarios: it decodes the datagrams above and takes
    anything else as malformed; it writes a nonce as two bytes. *)
Definition scenarioParse (bytes : Buffer) : ParseResult :=
  if decide (bytes = reliable5) then
    Parsed (ReliablePacket 5 [StartGameMessage 32])
  else if decide (bytes = reactor3) then
    Parsed (ReliablePacket 3
              [ReactorMessage (ReactorHandshakeMessage "client" "1.0.0" 0)])
  else if decide (bytes = join9) then
    Parsed (ReliablePacket 9 [JoinGameMessage 32])
  else if decide (bytes = unknownTag) then UnknownRoot
  else Malformed.

Definition scenarioWrite (packet : RootPacket) : Buffer :=
  match nonceOf packet with
  | Some n => [n / 256; n mod 256]
  | None => []
  end.

Definition scenarioEnv (config : ReactorConfig) : Env :=
  {| parse := scenarioParse; write := scenarioWrite; reactor := config;
     validVersions := [50516550]; loadedPlugins := [];
     minimatch := String.eqb; freshLastNonce := -1; nonceAfterLast := 1;
     beforeJoin := fun _ _ foundRoom => (false, foundRoom) |}.

Definition plainEnv : Env := scenarioEnv ReactorFalse.

(** A connection that completed its hello, with last-seen nonce 4. *)
Definition seenFour : Connection :=
  set_lastNonce 4 (set_hasIdentified true (newConnection plainEnv client 1)).

Definition oneClient (c : Connection) : Worker :=
  {| connections := [(fmt client, 1)]; objects := {[1 := c]}; rooms := [];
     lastClientId := 1; effects := [] |}.

Definition noClient : Worker :=
  {| connections := []; objects := ∅; rooms := []; lastClientId := 0;
     effects := [] |}.

(** Eight packets in flight, sent at time 0, none acknowledged. *)
Definition eightUnacked : list SentPacket :=
  map (fun n => mkSentPacket n [1; 0; n] 0 false) [8; 7; 6; 5; 4; 3; 2; 1].

Definition silentClient : Connection :=
  set_nonce 8 (set_sentPackets eightUnacked seenFour).

(** The policy that requires [modA], and a reactor client that declared
    no mods. *)
Definition requireModA : ReactorConfig :=
  ReactorObj
    {| blockClientSideOnly := true; modsConfig := [("modA", ModTrue)];
       allowExtraMods := true; requireHostMods := true;
       allowNormalClients := true |}.

Definition modAEnv : Env := scenarioEnv requireModA.

Definition reactorClient : Connection :=
  set_lastNonce 4
    (set_usingReactor true
       (set_hasIdentified true (newConnection modAEnv client 1))).

Definition lobby : Room :=
  {| roomCode := 32; state := NotStarted; maxPlayers := 10; hostid := 0;
     members := []; bans := [] |}.

Definition lobbyWorker : Worker :=
  {| connections := [(fmt client, 1)]; objects := {[1 := reactorClient]};
     rooms := [(32, lobby)]; lastClientId := 1; effects := [] |}.

(** Eight packets in flight, sent at time 0; only the newest one is
    acknowledged. *)
Definition newestAcked : list SentPacket :=
  mkSentPacket 8 [1; 0; 8] 0 true
  :: map (fun n => mkSentPacket n [1; 0; n] 0 false) [7; 6; 5; 4; 3; 2; 1].

Definition busyClient : Connection :=
  set_nonce 8 (set_sentPackets newestAcked seenFour).

(** One packet in flight, sent at time 0 and not acknowledged. *)
Definition onePending : Connection :=
  set_nonce 1 (set_sentPackets [mkSentPacket 1 [1; 0; 1] 0 false] seenFour).

(** A room with two members: client 2 is the host and client 1 is not. *)
Definition party : Room :=
  {| roomCode := 32; state := NotStarted; maxPlayers := 10; hostid := 2;
     members := [2; 1]; bans := [] |}.

Definition member (remote : RemoteInfo) (clientid : Z) : Connection :=
  {| rinfo := remote; clientId := clientid; hasIdentified := true;
     usingReactor := false; username := EmptyString; language := 0;
     clientVersion := 50516550; numMods := 0; mods := [];
     receivedPackets := []; sentPackets := []; lastNonce := 4; nonce := 0;
     roundTripPing := 0; room := Some 32; sentDisconnect := false |}.

Definition partyWorker : Worker :=
  {| connections := [(fmt host, 2); (fmt client, 1)];
     objects := <[1 := member client 1]> {[2 := member host 2]};
     rooms := [(32, party)]; lastClientId := 2; effects := [] |}.

(** Three calls of [sendPacket] to client 1: a ping, an acknowledgement
    and a reliable packet. *)
Definition threeCalls : list (Z * Z * RootPacket) :=
  [(10, 1, PingPacket 1); (20, 1, AcknowledgePacket 5 []);
   (30, 1, ReliablePacket 2 [])].

(** The same calls followed by a reliable packet whose nonce does not fit
    in 16 bits. *)
Definition oversizedCalls : list (Z * Z * RootPacket) :=
  threeCalls ++ [(40, 1, ReliablePacket 65536 [])].

End NetScenario.

(** ** [api/chat/CommandHander.ts]: the rest of [ChatCommandHandler] *)

Module ChatHandler.
Import Chat.

(** [Map.prototype.delete] on the command table. *)
Fixpoint deleteCommand (commands : Commands) (commandName : string) : Commands :=
  match commands with
  | [] => []
  | (k, c) :: rest =>
      if String.eqb k commandName then deleteCommand rest commandName
      else (k, c) :: deleteCommand rest commandName
  end.

(** [removeCommand]. *)
Definition removeCommand (commands : Commands) (commandName : string)
  : Throws Commands :=
  match getCommand commands commandName with
  | None => TypeError ("No command: " +:+ commandName)
  | Some _ => Ok (deleteCommand commands commandName)
  end.

(** The loop of the [help] callback over the command table: one more
    paragraph of [outMessage] for every command, in the order of the
    table. *)
Fixpoint helpLoop (commands : Commands) (outMessage : string) : string :=
  match commands with
  | [] => outMessage
  | (_, command) :: rest =>
      helpLoop rest
        (outMessage +:+ Js.LF +:+ Js.LF +:+ "<space=1em><color=#12a50a>"
         +:+ createUsage command +:+ "</color> - " +:+ description command)
  end.

(** The callback of the built-in [help [command]]: what it replies with.
    [args] is what [verify] returns; [args.command] is [undefined] when
    the key is not bound. *)
Definition helpCallback (commands : Commands) (args : gmap string string)
  : string :=
  let listing :=
    helpLoop commands
      ("Listing " +:+ pretty (List.length commands) +:+ " command(s):") in
  match args !! "command" with
  | Some requested =>
      if Js.truthy requested then
        match getCommand commands requested with
        | None => "No command with name: " +:+ requested
        | Some command =>
            "Usage: <color=#12a50a>" +:+ createUsage command +:+ "</color>"
            +:+ Js.LF +:+ Js.LF +:+ description command
        end
      else listing
  | None => listing
  end.

(** The command that the constructor of [ChatCommandHandler] registers. *)
Definition helpUsage : string := "help [command]".

Definition helpDescription : string :=
  "Get a list of commands and how to use them, or get help for a specific command.".

Definition helpCommand : RegisteredChatCommand :=
  mkCommand "help" [mkParam false false "command"] helpDescription.

End ChatHandler.

(** ** Vocabulary of the further statements about the dispatcher *)

Module ChatSpec.
Import Chat.

(** Only the last parameter may be a rest parameter. *)
Fixpoint restOnlyLast (ps : list ChatCommandParameter) : Prop :=
  match ps with
  | [] => True
  | p :: more => (more <> [] -> isRest p = false) /\ restOnlyLast more
  end.

(** A rest parameter as a usage writes it: the name followed by three
    dots, between the brackets of its kind. *)
Definition renderRest (p : ChatCommandParameter) : string :=
  (if required p then "<" else "[")
  +:+ (name p +:+ "...")
  +:+ (if required p then ">" else "]").

(** An optional parameter is among [ps]. *)
Definition hasOptional (ps : list ChatCommandParameter) : bool :=
  existsb (fun p => negb (required p)) ps.

(** The keys of [parsed] are names of [ps] and its values are not empty. *)
Definition boundWithin (ps : list ChatCommandParameter)
           (parsed : gmap string string) : Prop :=
  forall k v,
    parsed !! k = Some v ->
    Js.truthy v = true /\ exists p, In p ps /\ name p = k.

End ChatSpec.

(** ** [Worker.ts]: the event loop, the rooms and the game list *)

Module Server.
Import Net.

Local Open Scope Z_scope.

(** The worker as its constructor leaves it: no connection, no room, and
    0 as the last client id. *)
Definition newWorker : Worker :=
  {| connections := []; objects := ∅; rooms := []; lastClientId := 0;
     effects := [] |}.

(** The two callbacks that the constructor registers: the listener of the
    [message] event of the socket, which is [handleMessage], and the
    callback of [setInterval], which is the ticker. *)
Inductive Event : Type :=
| Datagram (now : Z) (bytes : Buffer) (remote : RemoteInfo)
| Tick (now : Z).

Definition step (env : Env) (w : Worker) (event : Event) : Worker :=
  match event with
  | Datagram now bytes remote => handleMessage env now bytes remote w
  | Tick now => tick env now w
  end.

Definition runEvents (env : Env) (events : list Event) (w : Worker) : Worker :=
  fold_left (step env) events w.

Definition with_rooms (v : list (Z * Room)) (w : Worker) : Worker :=
  {| connections := connections w; objects := objects w; rooms := v;
     lastClientId := lastClientId w; effects := effects w |}.

(** What [generateRoomCode] and [createRoom] throw. *)
Inductive Raises (A : Type) : Type :=
| Returns (a : A)
| RangeError (msg : string)
| Error (msg : string).
Arguments Returns {A} a.
Arguments RangeError {A} msg.
Arguments Error {A} msg.

(** The loop of [generateRoomCode]: [gen k] is what the generator of the
    protocol library returns at its call number [k].  The loop ends when
    a draw is not the code of a room; [fuel] bounds the number of draws,
    and [None] stands for a loop that has not ended within it. *)
Fixpoint drawLoop (gen : nat -> Z) (fuel k : nat) (rooms : list (Z * Room))
  : option Z :=
  match fuel with
  | O => None
  | S fuel' =>
      let roomCode := gen k in
      match mget roomCode rooms with
      | Some _ => drawLoop gen fuel' (S k) rooms
      | None => Some roomCode
      end
  end.

(** [generateRoomCode(len)], with the generators of the 4-letter and of
    the 6-letter codes. *)
Definition generateRoomCode (v1Gen v2Gen : nat -> Z) (fuel : nat) (len : Z)
           (w : Worker) : option (Raises Z) :=
  if negb (len =? 4) && negb (len =? 6) then
    Some (RangeError "Expected to generate a 4 or 6 digit room code.")
  else
    option_map Returns
      (drawLoop (if len =? 4 then v1Gen else v2Gen) fuel 0 (rooms w)).

(** The game options of a room and of a GetGameList request, as far as
    the worker reads them. *)
Record GameSettings : Type := mkSettings {
  keywords : Z;
  gameMap : Z;
  numImpostors : Z;
  settingsMaxPlayers : Z
}.

(** Modelled from the spec: the constructor of [Room] and [setCode]
    (Room.ts is not part of the sources).  A room is constructed in
    [NotStarted] with no members and the supplied settings, and takes the
    code it is given. *)
Definition newRoom (code : Z) (options : GameSettings) : Room :=
  {| roomCode := code; state := NotStarted;
     maxPlayers := settingsMaxPlayers options; hostid := 0; members := [];
     bans := [] |}.

(** [createRoom(code, options)]; [int2code] is the spelling of a code by
    the protocol library. *)
Definition createRoom (int2code : Z -> string) (code : Z)
           (options : GameSettings) (w : Worker) : Raises (Room * Worker) :=
  match mget code (rooms w) with
  | Some _ =>
      Error ("A room with code '" +:+ int2code code +:+ "' already exists.")
  | None =>
      let createdRoom := newRoom code options in
      Returns (createdRoom, with_rooms (mset code createdRoom (rooms w)) w)
  end.

(** JavaScript's 32-bit integers: [ToInt32], the left shift and the
    bitwise and. *)
Definition toInt32 (z : Z) : Z := (z + 2 ^ 31) mod 2 ^ 32 - 2 ^ 31.

Definition shiftLeft (a n : Z) : Z :=
  toInt32 (Z.shiftl (toInt32 a) (n mod 32)).

Definition bitAnd (a b : Z) : Z := Z.land (toInt32 a) (toInt32 b).

(** What the listing reads of a room beyond [Room]: the time of its
    creation, its game options, and the size of [room.players]. *)
Record RoomDetails : Type := mkDetails {
  createdAt : Z;
  settings : GameSettings;
  playersSize : Z
}.

Record GameListing : Type := mkListing {
  listedCode : Z;
  listedIp : string;
  listedPort : Z;
  listedName : string;
  listedPlayers : Z;
  listedAge : Z;
  listedMap : Z;
  listedImpostors : Z;
  listedMaxPlayers : Z
}.

(** The test of the GetGameList listener on a room. *)
Definition matchesOptions (options roomSettings : GameSettings) : bool :=
  (keywords roomSettings =? keywords options)
  && negb (bitAnd (gameMap options) (shiftLeft 1 (gameMap roomSettings)) =? 0)
  && ((numImpostors roomSettings =? numImpostors options)
      || (numImpostors options =? 0)).

(** The loop of the GetGameList listener over [this.rooms], in the order
    of the map; [socketPort] is [config.socket.port] and [detailsOf] gives
    what the loop reads of a room beyond [Room]. *)
Fixpoint gameListLoop (now socketPort : Z) (options : GameSettings)
         (detailsOf : Room -> RoomDetails) (w : Worker)
         (entries : list (Z * Room)) (returnList : list GameListing)
  : list GameListing :=
  match entries with
  | [] => returnList
  | (gameCode, room) :: more =>
      if gameCode =? 32 then
        gameListLoop now socketPort options detailsOf w more returnList
      else if bool_decide (hostid room ∈ members room) then
        let roomHost := the w (hostid room) in
        let roomAge := (now - createdAt (detailsOf room)) / 1000 in
        if matchesOptions options (settings (detailsOf room)) then
          let gameListing :=
            mkListing (roomCode room) "127.0.0.1" socketPort
              (username roomHost) (playersSize (detailsOf room)) roomAge
              (gameMap (settings (detailsOf room)))
              (numImpostors (settings (detailsOf room)))
              (settingsMaxPlayers (settings (detailsOf room))) in
          let returnList := returnList ++ [gameListing] in
          if (10 <=? List.length returnList)%nat then returnList
          else gameListLoop now socketPort options detailsOf w more returnList
        else gameListLoop now socketPort options detailsOf w more returnList
      else gameListLoop now socketPort options detailsOf w more returnList
  end.

(** The list that the GetGameList listener builds; it replies only when
    the list is not empty. *)
Definition gameList (now socketPort : Z) (options : GameSettings)
           (detailsOf : Room -> RoomDetails) (w : Worker) : list GameListing :=
  gameListLoop now socketPort options detailsOf w (rooms w) [].

(** [createDefaultConfig]: the [reactor] entry of the default
    configuration. *)
Definition defaultReactor : ReactorConfig :=
  ReactorObj
    {| blockClientSideOnly := true; modsConfig := []; allowExtraMods := true;
       requireHostMods := true; allowNormalClients := true |}.

End Server.

(** ** Vocabulary of the further statements about the worker *)

Module ServerSpec.
Import Net NetSpec Server.

Local Open Scope Z_scope.

(** An event without the reactor byte: a tick, or a datagram whose byte
    at offset 5 is not 0xff. *)
Definition withoutReactorByte (event : Event) : bool :=
  match event with
  | Datagram _ bytes _ => notReactorByte bytes
  | Tick _ => true
  end.

(** Datagrams on the socket that start with the tag of a Disconnect. *)
Definition isDisconnectSend (e : Effect) : bool :=
  match e with
  | SocketSend _ (t :: _) => (t =? 9)
  | _ => false
  end.

Definition isClientConnect (e : Effect) : bool :=
  match e with EmitClientConnect _ => true | _ => false end.

(** What the worker itself does to the outside while it checks a client:
    datagrams, log lines and leave events. *)
Definition isWire (e : Effect) : bool :=
  match e with
  | SocketSend _ _ | Log _ _ | EmitClientLeave _ _ => true
  | _ => false
  end.

(** What the hello listener decides from the client version, the kind of
    hello and the configuration: the reason of the disconnect, or [None]
    when the client is let in. *)
Definition helloVerdict (env : Env) (clientver : Z) (modcount : option Z)
  : option Reason :=
  if bool_decide (clientver ∈ validVersions env) then
    match modcount, reactor env with
    | Some _, ReactorFalse => Some (Localized reactor_not_enabled_on_server [])
    | Some _, _ => None
    | None, ReactorFalse => None
    | None, ReactorTrue => Some (Localized reactor_required_on_server [])
    | None, ReactorObj o =>
        if allowNormalClients o then None
        else Some (Localized reactor_required_on_server [])
    end
  else Some (Code IncorrectVersion).

(** The connection once the hello listener has taken the hello in. *)
Definition identified (clientver : Z) (uname : string) (lang : Z)
           (modcount : option Z) (c : Connection) : Connection :=
  let c1 :=
    set_clientVersion clientver
      (set_language lang
         (set_username uname
            (set_usingReactor
               (match modcount with Some _ => true | None => false end)
               (set_hasIdentified true c)))) in
  match modcount with
  | Some m => set_numMods m c1
  | None => c1
  end.

(** Two connections that differ at most in their nonce counter and in
    their deque of sent packets. *)
Definition sameButSent (c c' : Connection) : Prop :=
  set_nonce 0 (set_sentPackets [] c') = set_nonce 0 (set_sentPackets [] c).

(** From [w0] to [w] nothing happened but sending packets other than
    Disconnect packets to the connection [cid]. *)
Definition sends (cid : Z) (w0 w : Worker) : Prop :=
  connections w = connections w0
  /\ count isClientConnect w = count isClientConnect w0
  /\ count isDisconnectSend w = count isDisconnectSend w0
  /\ (exists es, effects w = effects w0 ++ es)
  /\ forall c0, objects w0 !! cid = Some c0 ->
       exists c, objects w !! cid = Some c /\ sameButSent c0 c.

(** What the host-only listeners broadcast for a message of the host:
    the message with the code of the room of the sender; nothing for a
    kick. *)
Definition rebroadcastOf (code : Z) (message : ChildMessage)
  : option ChildMessage :=
  match message with
  | AlterGameMessage _ alterTag value =>
      Some (AlterGameMessage code alterTag value)
  | StartGameMessage _ => Some (StartGameMessage code)
  | EndGameMessage _ reason _ => Some (EndGameMessage code reason false)
  | _ => None
  end.

(** A mod that the host-mod requirement compares: one that is not
    skipped as a client-side mod. *)
Definition compared (block : bool) (m : ClientMod) : bool :=
  negb (isClientside (networkSide m) && block).

(** Both deques of a connection hold at most eight entries. *)
Definition dequesOk (c : Connection) : Prop :=
  (List.length (sentPackets c) <= 8)%nat
  /\ (List.length (receivedPackets c) <= 8)%nat.

(** A connection holds no more mods than its hello announced, and none
    before its hello. *)
Definition modsOk (c : Connection) : Prop :=
  (hasIdentified c = false -> numMods c = 0)
  /\ msize (mods c) <= Z.max 0 (numMods c).

(** What every listener leaves of a connection object. *)
Definition stable (c0 c : Connection) : Prop :=
  rinfo c = rinfo c0 /\ clientId c = clientId c0
  /\ (dequesOk c0 -> dequesOk c) /\ (modsOk c0 -> modsOk c).

(** From [w0] to [w] no client id is handed out, no connection is
    registered, no connection object appears or disappears, and the
    objects are left [stable]. *)
Definition steady (w0 w : Worker) : Prop :=
  lastClientId w = lastClientId w0
  /\ (forall k v, mget k (connections w) = Some v ->
                  mget k (connections w0) = Some v)
  /\ (NoDup (map fst (connections w0)) -> NoDup (map fst (connections w)))
  /\ (forall id,
        match objects w0 !! id, objects w !! id with
        | Some c0, Some c => stable c0 c
        | None, None => True
        | _, _ => False
        end).

(** The state of a worker is well formed: client ids in use were handed
    out, the registry holds a key once and maps the key of an endpoint to
    an existing connection object of that endpoint, and every connection
    object carries its own identity, bounded deques and a bounded mod
    table. *)
Definition wellFormed (w : Worker) : Prop :=
  allocated w
  /\ registryOk w
  /\ (forall k cid, mget k (connections w) = Some cid ->
                    is_Some (objects w !! cid))
  /\ (forall id c, objects w !! id = Some c ->
                   clientId c = id /\ dequesOk c /\ modsOk c).

(** The entry of the deque with [acked] set. *)
Definition ackedEntry (s : SentPacket) : SentPacket :=
  mkSentPacket (sentNonce s) (buffer s) (sentAt s) true.

(** A room that the GetGameList listener lists for [options]: it is not
    registered under the code of a local game, its host is one of its
    connections, and its settings pass the test. *)
Definition listable (options : GameSettings) (detailsOf : Room -> RoomDetails)
           (entry : Z * Room) : bool :=
  negb (fst entry =? 32)
  && bool_decide (hostid (snd entry) ∈ members (snd entry))
  && matchesOptions options (settings (detailsOf (snd entry))).

Definition listingOf (now socketPort : Z) (detailsOf : Room -> RoomDetails)
           (w : Worker) (entry : Z * Room) : GameListing :=
  let room := snd entry in
  mkListing (roomCode room) "127.0.0.1" socketPort
    (username (the w (hostid room))) (playersSize (detailsOf room))
    ((now - createdAt (detailsOf room)) / 1000)
    (gameMap (settings (detailsOf room)))
    (numImpostors (settings (detailsOf room)))
    (settingsMaxPlayers (settings (detailsOf room))).

End ServerSpec.

(** ** Concrete inputs for the further statements *)

Module ServerScenario.
Import Net NetScenario Server.

Local Open Scope Z_scope.

(** A codec that also decodes an Acknowledge and a Ping, each with its
    nonce in two bytes, and a Disconnect. *)
Definition wireParse (bytes : Buffer) : ParseResult :=
  match bytes with
  | [10; hi; lo] => Parsed (AcknowledgePacket (hi * 256 + lo) [])
  | [12; hi; lo] => Parsed (PingPacket (hi * 256 + lo))
  | [9] => Parsed (DisconnectPacket NoReason)
  | _ => scenarioParse bytes
  end.

Definition wireEnv : Env :=
  {| parse := wireParse; write := scenarioWrite; reactor := ReactorFalse;
     validVersions := [50516550]; loadedPlugins := [];
     minimatch := String.eqb; freshLastNonce := -1; nonceAfterLast := 1;
     beforeJoin := fun _ _ foundRoom => (false, foundRoom) |}.

(** A connection that has not sent its hello. *)
Definition newcomer : Connection := newConnection plainEnv client 1.

(** The same connection after a turn of the ticker at time 2000: its
    first ping is in flight. *)
Definition pinged : Connection :=
  set_sentPackets
    [mkSentPacket 1 (serialize plainEnv (PingPacket 1)) 2000 false]
    (set_nonce 1 newcomer).

(** A client with Reactor whose hello announced two mods. *)
Definition modded : Connection := set_numMods 2 reactorClient.

(** A room under the code 77, with client 2 as its host, beside the room
    under the code of a local game. *)
Definition publicRoom : Room :=
  {| roomCode := 77; state := NotStarted; maxPlayers := 10; hostid := 2;
     members := [2; 1]; bans := [] |}.

Definition listedWorker : Worker :=
  {| connections := connections partyWorker; objects := objects partyWorker;
     rooms := [(32, party); (77, publicRoom)]; lastClientId := 2;
     effects := [] |}.

(** Every room plays map 2 with one impostor; the request asks for the
    maps 1 and 2 and any number of impostors. *)
Definition plainDetails (r : Room) : RoomDetails :=
  mkDetails 1000 (mkSettings 0 2 1 10) 2.

Definition anyImpostors : GameSettings := mkSettings 0 6 0 0.

(** The members of [party] with Reactor: the host (client 2) has the
    mod [modA] at 1.0 and the client-side mod [skin]; the other member
    (client 1) has [modA], at 1.0 in the first worker and at 0.9 in the
    second. *)
Definition modA (version : string) : ClientMod :=
  mkClientMod 1 "modA" version Both.

Definition skin : ClientMod := mkClientMod 2 "skin" "2.0" Clientside.

Definition moddedMember (remote : RemoteInfo) (clientid : Z)
           (declared : list (string * ClientMod)) : Connection :=
  set_mods declared (set_usingReactor true (member remote clientid)).

Definition moddedParty (version : string) : Worker :=
  {| connections := connections partyWorker;
     objects :=
       <[1 := moddedMember client 1 [("modA", modA version)]]>
         {[2 := moddedMember host 2 [("modA", modA "1.0"); ("skin", skin)]]};
     rooms := [(32, party)]; lastClientId := 2; effects := [] |}.

(** The policy that bans [modB], which no client of the scenarios has. *)
Definition banModB : ReactorConfig :=
  ReactorObj
    {| blockClientSideOnly := true; modsConfig := [("modB", ModFalse)];
       allowExtraMods := true; requireHostMods := true;
       allowNormalClients := true |}.

Definition modBEnv : Env := scenarioEnv banModB.

(** A generator that draws 32, 33, 34 and so on. *)
Definition countUp (k : nat) : Z := 32 + Z.of_nat k.

End ServerScenario.

(** * Properties of the chat-command dispatcher *)

Import Chat Spec Scenario.

Lemma app_String (c : ascii) (a b : string) :
  String c a +:+ b = String c (a +:+ b).
Proof. reflexivity. Qed.

Lemma app_empty_l (a : string) : EmptyString +:+ a = a.
Proof. reflexivity. Qed.

Lemma app_empty_r (a : string) : a +:+ EmptyString = a.
Proof.
  induction a as [|c a IH]; [reflexivity |]. now rewrite app_String, IH.
Qed.

Lemma app_assoc_str (a b c : string) : (a +:+ b) +:+ c = a +:+ (b +:+ c).
Proof.
  induction a as [|x a IH]; [reflexivity |]. now rewrite !app_String, IH.
Qed.

Lemma length_app_str (a b : string) :
  String.length (a +:+ b) = (String.length a + String.length b)%nat.
Proof.
  induction a as [|x a IH]; [reflexivity |].
  rewrite app_String. simpl. now rewrite IH.
Qed.

Lemma hasChar_app (c : ascii) (a b : string) :
  hasChar c (a +:+ b) = hasChar c a || hasChar c b.
Proof.
  induction a as [|x a IH]; [reflexivity |].
  rewrite app_String. simpl. rewrite IH. now rewrite orb_assoc.
Qed.

(** [cutAt] finds the first occurrence. *)
Lemma cutAt_first (c : ascii) (inner tail : string) :
  hasChar c inner = false ->
  cutAt c (inner +:+ String c tail) = Some (inner, tail).
Proof.
  induction inner as [|x inner IH]; intros H.
  - rewrite app_empty_l. simpl. now rewrite Ascii.eqb_refl.
  - simpl in H. apply orb_false_iff in H as [Hx Hin].
    rewrite app_String. simpl. rewrite Hx, (IH Hin). reflexivity.
Qed.

Lemma cutAt_Some (c : ascii) (s a b : string) :
  cutAt c s = Some (a, b) ->
  s = a +:+ String c b /\ hasChar c a = false.
Proof.
  revert a b. induction s as [|x s IH]; simpl; intros a b H; [discriminate |].
  destruct (Ascii.eqb x c) eqn:E.
  - inversion H; subst. apply Ascii.eqb_eq in E. subst. now split.
  - destruct (cutAt c s) as [[a' b']|] eqn:Hc; [|discriminate].
    inversion H; subst. destruct (IH a' b eq_refl) as [-> Hn].
    split; [reflexivity |]. simpl. now rewrite E.
Qed.

Lemma cutAt_shorter (c : ascii) (s a b : string) :
  cutAt c s = Some (a, b) -> (String.length b < String.length s)%nat.
Proof.
  intros H. apply cutAt_Some in H as [-> _].
  rewrite length_app_str. simpl. lia.
Qed.

(** The scan needs no more fuel than the length of its input. *)
Lemma matchParamsFrom_fuel (n m : nat) (s : string) :
  (String.length s <= n)%nat -> (String.length s <= m)%nat ->
  matchParamsFrom n s = matchParamsFrom m s.
Proof.
  revert m s. induction n as [|n IH]; intros m s Hn Hm.
  - destruct s; simpl in Hn; [|lia]. destruct m; reflexivity.
  - destruct m as [|m]; [destruct s; simpl in Hm; [reflexivity | lia] |].
    destruct s as [|c rest]; [reflexivity |]. simpl in Hn, Hm. simpl.
    assert (Hrest : matchParamsFrom n rest = matchParamsFrom m rest)
      by (apply IH; lia).
    assert (Hcut : forall d a b, cutAt d rest = Some (a, b) ->
                     matchParamsFrom n b = matchParamsFrom m b).
    { intros d a b Hc. apply cutAt_shorter in Hc. apply IH; lia. }
    destruct (Ascii.eqb c "[").
    + destruct (cutAt "]" rest) as [[a b]|] eqn:Hc; [|exact Hrest].
      now rewrite (Hcut _ _ _ Hc).
    + destruct (Ascii.eqb c "<"); [|exact Hrest].
      destruct (cutAt ">" rest) as [[a b]|] eqn:Hc; [|exact Hrest].
      now rewrite (Hcut _ _ _ Hc).
Qed.

Lemma matchParams_nil : matchParams EmptyString = [].
Proof. reflexivity. Qed.

Lemma matchParams_skip (c : ascii) (rest : string) :
  Ascii.eqb c "[" = false -> Ascii.eqb c "<" = false ->
  matchParams (String c rest) = matchParams rest.
Proof.
  intros H1 H2. unfold matchParams. simpl. rewrite H1, H2. reflexivity.
Qed.

Lemma matchParams_square (inner tail : string) :
  hasChar "]" inner = false ->
  matchParams (String "[" (inner +:+ String "]" tail))
  = String "[" (inner +:+ "]") :: matchParams tail.
Proof.
  intros H. unfold matchParams. simpl String.length.
  cbn [matchParamsFrom]. rewrite Ascii.eqb_refl, (cutAt_first _ _ _ H).
  f_equal. apply matchParamsFrom_fuel; [|lia].
  rewrite length_app_str. simpl. lia.
Qed.

Lemma matchParams_angle (inner tail : string) :
  hasChar ">" inner = false ->
  matchParams (String "<" (inner +:+ String ">" tail))
  = String "<" (inner +:+ ">") :: matchParams tail.
Proof.
  intros H. unfold matchParams. simpl String.length.
  cbn [matchParamsFrom]. rewrite (cutAt_first _ _ _ H).
  replace (Ascii.eqb "<" "[") with false by reflexivity.
  rewrite Ascii.eqb_refl.
  f_equal. apply matchParamsFrom_fuel; [|lia].
  rewrite length_app_str. simpl. lia.
Qed.

Lemma matchParams_prefix (pre s : string) :
  noBracket pre -> matchParams (pre +:+ s) = matchParams s.
Proof.
  induction pre as [|c pre IH]; intros [H1 H2]; [reflexivity |].
  simpl in H1, H2. apply orb_false_iff in H1 as [Hc1 Hp1].
  apply orb_false_iff in H2 as [Hc2 Hp2].
  rewrite app_String, matchParams_skip by assumption.
  apply IH. now split.
Qed.

(** *** Rendering a parameter and finding it again *)

Lemma renderParam_required (p : ChatCommandParameter) :
  required p = true -> renderParam p = String "<" (name p +:+ ">").
Proof. unfold renderParam. intros ->. reflexivity. Qed.

Lemma renderParam_optional (p : ChatCommandParameter) :
  required p = false -> renderParam p = String "[" (name p +:+ "]").
Proof. unfold renderParam. intros ->. reflexivity. Qed.

Lemma matchParams_render (p : ChatCommandParameter) (tail : string) :
  rendersBack p ->
  matchParams (renderParam p +:+ tail) = renderParam p :: matchParams tail.
Proof.
  unfold rendersBack. intros H. destruct (required p) eqn:R.
  - rewrite (renderParam_required _ R), app_String, app_assoc_str.
    now apply matchParams_angle.
  - rewrite (renderParam_optional _ R), app_String, app_assoc_str.
    now apply matchParams_square.
Qed.

Lemma join_cons2 (sep x y : string) (l : list string) :
  Js.join sep (x :: y :: l) = x +:+ sep +:+ Js.join sep (y :: l).
Proof. reflexivity. Qed.

Lemma matchParams_join (ps : list ChatCommandParameter) :
  Forall rendersBack ps ->
  matchParams (Js.join " " (map renderParam ps)) = map renderParam ps.
Proof.
  induction ps as [|p ps IH]; intros H; [reflexivity |].
  inversion H as [|? ? Hp Hps]; subst.
  destruct ps as [|q ps].
  - simpl. rewrite <- (app_empty_r (renderParam p)).
    rewrite matchParams_render by assumption. now rewrite app_empty_r.
  - cbn [map]. rewrite join_cons2, matchParams_render by assumption.
    f_equal. rewrite app_String, app_empty_l.
    rewrite matchParams_skip by reflexivity. now apply IH.
Qed.

Lemma substring_0_app (a b : string) :
  String.substring 0 (String.length a) (a +:+ b) = a.
Proof.
  induction a as [|c a IH]; [destruct b; reflexivity |].
  rewrite app_String. simpl. now rewrite IH.
Qed.

(** Removing the surrounding markers of a match gives its inner part. *)
Lemma substr_inner (c d : ascii) (inner : string) :
  let m := String c (inner +:+ String d EmptyString) in
  Js.substr 1 (String.length m - 2) m = inner.
Proof.
  unfold Js.substr. cbn zeta. cbn [String.length].
  rewrite length_app_str. cbn [String.length].
  replace (S (String.length inner + 1) - 2)%nat with (String.length inner)
    by lia.
  cbn [String.substring]. apply substring_0_app.
Qed.

Lemma startsWith_head (c d : ascii) (s : string) :
  Js.startsWith (String c EmptyString) (String d s) = Ascii.eqb c d.
Proof.
  unfold Js.startsWith. simpl. destruct (ascii_dec c d) as [->|Hne].
  - rewrite Ascii.eqb_refl. now destruct s.
  - symmetry. now apply Ascii.eqb_neq.
Qed.

Lemma parseLoop_rendered (ps : list ChatCommandParameter) (i len : nat)
      (wasOptional : bool) (acc : list ChatCommandParameter) :
  noRest ps -> ordered wasOptional ps -> Forall noDots ps ->
  parseLoop (map renderParam ps) i len wasOptional acc = Ok (acc ++ ps).
Proof.
  revert i wasOptional acc.
  induction ps as [|p ps IH]; intros i w acc Hrest Hord Hdots.
  - simpl. now rewrite app_nil_r.
  - inversion Hrest as [|? ? Hp Hps]; subst.
    inversion Hdots as [|? ? Dp Dps]; subst.
    destruct Hord as [Hreq Hord]. unfold noDots in Dp.
    destruct p as [rest req nm]. simpl in Hp, Dp, Hreq, Hord. subst rest.
    cbn [map parseLoop]. destruct req.
    + rewrite (renderParam_required (mkParam false true nm) eq_refl).
      cbn [name]. rewrite (Hreq eq_refl) in *.
      rewrite !startsWith_head. cbn [Ascii.eqb Bool.eqb andb]. rewrite (substr_inner "<" ">" nm), Dp.
      rewrite IH by assumption. now rewrite <- app_assoc.
    + rewrite (renderParam_optional (mkParam false false nm) eq_refl).
      cbn [name].
      rewrite !startsWith_head. cbn [Ascii.eqb Bool.eqb andb]. rewrite (substr_inner "[" "]" nm), Dp.
      rewrite orb_true_r in Hord.
      rewrite IH by assumption. now rewrite <- app_assoc.
Qed.

(** *** The command name of a rendered usage *)

Lemma matchCmdPrefix_render (pre : string) (ps : list ChatCommandParameter) :
  noBracket pre ->
  matchCmdPrefix (pre +:+ Js.join " " (map renderParam ps)) = pre.
Proof.
  induction pre as [|c pre IH]; intros [H1 H2].
  - rewrite app_empty_l. destruct ps as [|p ps]; [reflexivity |].
    assert (Hhead : forall tail, matchCmdPrefix (renderParam p +:+ tail)
                                 = EmptyString).
    { intros tail. unfold renderParam. destruct (required p); reflexivity. }
    destruct ps as [|q ps].
    + simpl. rewrite <- (app_empty_r (renderParam p)). apply Hhead.
    + cbn [map]. rewrite join_cons2. apply Hhead.
  - simpl in H1, H2. apply orb_false_iff in H1 as [Hc1 Hp1].
    apply orb_false_iff in H2 as [Hc2 Hp2].
    rewrite app_String. simpl. rewrite Hc1, Hc2. simpl.
    f_equal. apply IH. now split.
Qed.

Lemma trimEnd_snoc_ws (s : string) (c : ascii) :
  Js.is_ws c = true -> Js.trimEnd (s +:+ String c EmptyString) = Js.trimEnd s.
Proof.
  intros Hc. induction s as [|x s IH].
  - rewrite app_empty_l. simpl. now rewrite Hc.
  - rewrite app_String. simpl. now rewrite IH.
Qed.

Lemma trimEnd_prefix (s : string) : exists b, s = Js.trimEnd s +:+ b.
Proof.
  induction s as [|c s [b IH]]; [now exists EmptyString |].
  simpl. destruct (Js.trimEnd s) as [|y r'] eqn:E.
  - destruct (Js.is_ws c).
    + now exists (String c s).
    + exists s. reflexivity.
  - exists b. rewrite app_String. now rewrite <- IH.
Qed.

Lemma trimStart_suffix (s : string) : exists a, s = a +:+ Js.trimStart s.
Proof.
  induction s as [|c s [a IH]]; [now exists EmptyString |].
  simpl. destruct (Js.is_ws c).
  - exists (String c a). rewrite app_String. now rewrite <- IH.
  - now exists EmptyString.
Qed.

Lemma prefix_app_l (p a b : string) :
  String.prefix p a = true -> String.prefix p (a +:+ b) = true.
Proof.
  revert a. induction p as [|x p IH]; intros a H;
    [now destruct (a +:+ b) |].
  destruct a as [|y a]; [discriminate |].
  rewrite app_String. simpl in *.
  destruct (ascii_dec x y); [now apply IH | discriminate].
Qed.

Lemma includes_cons (p : string) (x : ascii) (a : string) :
  Js.includes p (String x a)
  = String.prefix p (String x a) || Js.includes p a.
Proof. reflexivity. Qed.

Lemma includes_app_l (p a b : string) :
  Js.includes p a = true -> Js.includes p (a +:+ b) = true.
Proof.
  induction a as [|x a IH]; intros H.
  - simpl in H. rewrite orb_false_r in H. rewrite app_empty_l.
    destruct p; [destruct b; reflexivity | discriminate].
  - rewrite app_String, includes_cons. rewrite includes_cons in H.
    apply orb_true_iff in H as [H | H].
    + change (String x (a +:+ b)) with (String x a +:+ b).
      now rewrite (prefix_app_l _ _ _ H).
    + rewrite (IH H). apply orb_true_r.
Qed.

Lemma includes_trimEnd (p s : string) :
  Js.includes p s = false -> Js.includes p (Js.trimEnd s) = false.
Proof.
  intros H. destruct (Js.includes p (Js.trimEnd s)) eqn:E; [|reflexivity].
  destruct (trimEnd_prefix s) as [b Hb].
  rewrite Hb, (includes_app_l _ _ b E) in H. discriminate.
Qed.

(** The usage that [createUsage] renders passes the checks of [parse] on
    the command name. *)
Lemma rendered_name_accepted (nm : string) :
  Js.includes "  " nm = false ->
  let matched := Js.trim (String "/" (nm +:+ " ")) in
  Js.truthy matched = true /\ Js.includes "  " matched = false.
Proof.
  intros H. cbn zeta. unfold Js.trim.
  change (Js.trimStart (String "/" (nm +:+ " "))) with (String "/" (nm +:+ " ")).
  change (String "/" (nm +:+ " ")) with (String "/" nm +:+ " ").
  rewrite trimEnd_snoc_ws by reflexivity. split.
  - simpl. destruct (Js.trimEnd nm); reflexivity.
  - apply includes_trimEnd. simpl. exact H.
Qed.

(** [parse] reads a rendered usage back, for parameters that are not rest
    parameters. *)
Lemma parse_createUsage (cmd : RegisteredChatCommand) (d : string) :
  noBracket (cmdName cmd) -> Js.includes "  " (cmdName cmd) = false ->
  noRest (params cmd) -> ordered false (params cmd) ->
  Forall noDots (params cmd) -> Forall rendersBack (params cmd) ->
  exists nm, parse (createUsage cmd) d = Ok (mkCommand nm (params cmd) d).
Proof.
  intros Hnb Hsp Hrest Hord Hdots Hback.
  set (pre := String "/" (cmdName cmd +:+ " ")).
  assert (Hpre : noBracket pre).
  { destruct Hnb as [H1 H2]. unfold pre. split; simpl;
      rewrite hasChar_app; [rewrite H1 | rewrite H2]; reflexivity. }
  assert (Husage : createUsage cmd
                   = pre +:+ Js.join " " (map renderParam (params cmd))).
  { unfold createUsage, pre. rewrite !app_String, !app_empty_l.
    now rewrite app_assoc_str. }
  destruct (rendered_name_accepted _ Hsp) as [Ht Hi]. fold pre in Ht, Hi.
  exists (Js.trim pre). unfold parse.
  rewrite Husage, matchCmdPrefix_render, matchParams_prefix by assumption.
  rewrite Ht, Hi, matchParams_join by assumption. cbn [negb].
  now rewrite parseLoop_rendered.
Qed.

(** *** What [parse] accepts *)

Lemma matchParamsFrom_isMatch (n : nat) (s : string) :
  Forall isMatch (matchParamsFrom n s).
Proof.
  revert s. induction n as [|n IH]; intros s; [constructor |].
  destruct s as [|c rest]; [constructor |]. simpl.
  destruct (Ascii.eqb c "[").
  - destruct (cutAt "]" rest) as [[a b]|] eqn:Hc; [|apply IH].
    constructor; [|apply IH]. apply cutAt_Some in Hc as [_ Hn].
    exists a. now left.
  - destruct (Ascii.eqb c "<"); [|apply IH].
    destruct (cutAt ">" rest) as [[a b]|] eqn:Hc; [|apply IH].
    constructor; [|apply IH]. apply cutAt_Some in Hc as [_ Hn].
    exists a. now right.
Qed.

Lemma matchCmdPrefix_noBracket (s : string) : noBracket (matchCmdPrefix s).
Proof.
  induction s as [|c s [H1 H2]]; [now split |]. simpl.
  destruct (Ascii.eqb c "[") eqn:E1; [now split |].
  destruct (Ascii.eqb c "<") eqn:E2; [now split |].
  split; simpl; [rewrite E1 | rewrite E2]; assumption.
Qed.

Lemma trim_noBracket (s : string) : noBracket s -> noBracket (Js.trim s).
Proof.
  assert (Hsub : forall c, hasChar c s = false ->
                           hasChar c (Js.trim s) = false).
  { intros c H. unfold Js.trim.
    destruct (trimStart_suffix s) as [a Ha].
    destruct (trimEnd_prefix (Js.trimStart s)) as [b Hb].
    rewrite Ha, Hb, !hasChar_app in H.
    apply orb_false_iff in H as [_ H]. now apply orb_false_iff in H as [H _]. }
  intros [H1 H2]. split; now apply Hsub.
Qed.

(** The parameters that the loop of [parse] appends, when none of them is
    a rest parameter, are in order and are found again in a rendered
    usage. *)
Lemma parseLoop_accepts (ms : list string) (i len : nat) (w : bool)
      (acc ps : list ChatCommandParameter) :
  Forall isMatch ms -> parseLoop ms i len w acc = Ok ps ->
  exists new,
    ps = acc ++ new
    /\ (noRest new ->
        ordered w new /\ Forall noDots new /\ Forall rendersBack new).
Proof.
  revert i w acc ps.
  induction ms as [|m ms IH]; intros i w acc ps Hms Hok.
  - simpl in Hok. inversion Hok; subst. exists []. rewrite app_nil_r.
    split; [reflexivity |]. intros _. repeat split; constructor.
  - inversion Hms as [|? ? Hm Hrest]; subst.
    destruct Hm as [inner [[-> Hin] | [-> Hin]]]; cbn [parseLoop] in Hok;
      rewrite !startsWith_head in Hok; cbn [Ascii.eqb Bool.eqb andb] in Hok.
    + rewrite (substr_inner "[" "]" inner) in Hok.
      destruct (Js.endsWith "..." inner) eqn:Hdots.
      * destruct (negb (i =? len - 1)%nat); [discriminate |].
        destruct (IH _ _ _ _ Hrest Hok) as [new [-> _]].
        eexists (_ :: new). rewrite <- app_assoc. split; [reflexivity |].
        intros Hno. inversion Hno; subst. discriminate.
      * destruct (IH _ _ _ _ Hrest Hok) as [new [-> Hnew]].
        exists (mkParam false false inner :: new). rewrite <- app_assoc.
        split; [reflexivity |]. intros Hno. inversion Hno; subst.
        destruct (Hnew ltac:(assumption)) as [Ho [Hd Hb]].
        repeat split; simpl; try constructor; try assumption.
        -- discriminate.
        -- now rewrite orb_true_r.
    + destruct w; [discriminate |].
      rewrite (substr_inner "<" ">" inner) in Hok.
      destruct (Js.endsWith "..." inner) eqn:Hdots.
      * destruct (negb (i =? len - 1)%nat); [discriminate |].
        destruct (IH _ _ _ _ Hrest Hok) as [new [-> _]].
        eexists (_ :: new). rewrite <- app_assoc. split; [reflexivity |].
        intros Hno. inversion Hno; subst. discriminate.
      * destruct (IH _ _ _ _ Hrest Hok) as [new [-> Hnew]].
        exists (mkParam false true inner :: new). rewrite <- app_assoc.
        split; [reflexivity |]. intros Hno. inversion Hno; subst.
        destruct (Hnew ltac:(assumption)) as [Ho [Hd Hb]].
        repeat split; simpl; try constructor; assumption.
Qed.

Lemma parse_accepts (usage d : string) (cmd : RegisteredChatCommand) :
  parse usage d = Ok cmd ->
  description cmd = d
  /\ noBracket (cmdName cmd) /\ Js.includes "  " (cmdName cmd) = false
  /\ (noRest (params cmd) ->
      ordered false (params cmd) /\ Forall noDots (params cmd)
      /\ Forall rendersBack (params cmd)).
Proof.
  unfold parse. intros H.
  destruct (Js.truthy (Js.trim (matchCmdPrefix usage))); [|discriminate].
  cbn [negb] in H.
  destruct (Js.includes "  " (Js.trim (matchCmdPrefix usage))) eqn:Hsp;
    [discriminate |].
  destruct (parseLoop (matchParams usage) 0
              (List.length (matchParams usage)) false []) as [ps| |] eqn:Hloop;
    [|discriminate ..].
  inversion H; subst; clear H. cbn [cmdName params description].
  split; [reflexivity |].
  split; [apply trim_noBracket, matchCmdPrefix_noBracket |].
  split; [exact Hsp |].
  apply parseLoop_accepts in Hloop as [new [-> Hnew]];
    [exact Hnew | apply matchParamsFrom_isMatch].
Qed.

(** C8, as amended.  For every command that [parse] registers and whose
    parameters hold no rest parameter, parsing the usage that [createUsage]
    renders gives back the parameters of the command: the same names,
    [required] and [isRest] flags, in the same order. *)
Theorem usage_roundtrip_without_rest
        (usage d : string) (cmd : RegisteredChatCommand) :
  parse usage d = Ok cmd ->
  noRest (params cmd) ->
  exists cmd', parse (createUsage cmd) d = Ok cmd'
               /\ params cmd' = params cmd.
Proof.
  intros Hparse Hrest.
  destruct (parse_accepts _ _ _ Hparse) as [_ [Hnb [Hsp Hps]]].
  destruct (Hps Hrest) as [Hord [Hdots Hback]].
  destruct (parse_createUsage cmd d Hnb Hsp Hrest Hord Hdots Hback) as [nm E].
  eexists. split; [exact E | reflexivity].
Qed.

Lemma usage_roundtrip_without_rest_witness :
  parse "help [command]" "Get a list of commands." 
  = Ok (mkCommand "help" [mkParam false false "command"]
          "Get a list of commands.")
  /\ exists cmd',
      parse (createUsage (mkCommand "help" [mkParam false false "command"]
                            "Get a list of commands."))
            "Get a list of commands." = Ok cmd'
      /\ params cmd' = [mkParam false false "command"].
Proof.
  split; [reflexivity |].
  apply (usage_roundtrip_without_rest "help [command]"
           "Get a list of commands.");
    [reflexivity | repeat constructor].
Defined.

(** C8 fails as it is written: [createUsage] does not render the dots of
    a rest parameter, so the usage of the kick command is read back with
    [reason] as an ordinary optional parameter. *)
Lemma usage_roundtrip_counterexample :
  parse kickUsage EmptyString = Ok (kickCommand EmptyString)
  /\ createUsage (kickCommand EmptyString) = "/kick <name> [reason]"
  /\ exists cmd',
      parse (createUsage (kickCommand EmptyString)) EmptyString = Ok cmd'
      /\ params cmd' = [mkParam false true "name"; mkParam false false "reason"]
      /\ params cmd' <> params (kickCommand EmptyString).
Proof.
  split; [reflexivity |]. split; [reflexivity |].
  eexists. split; [reflexivity |]. split; [reflexivity |]. discriminate.
Qed.

(** *** Dispatch *)

Lemma getCommand_setCommand (commands : Commands) (c : RegisteredChatCommand) :
  getCommand (setCommand commands c) (cmdName c) = Some c.
Proof.
  induction commands as [|[k c0] rest IH]; simpl.
  - now rewrite String.eqb_refl.
  - destruct (String.eqb k (cmdName c)) eqn:E; simpl; rewrite E;
      [reflexivity | exact IH].
Qed.

(** C9.  Whatever the command table and the description, registering
    [kick <name> [reason...]] and dispatching the chat message
    [/kick 'big bob' was being mean] splits the message into the command
    name, the quoted span as the single token [big bob] without its
    quotes, and three more tokens; [verify] binds [name] to [big bob] and
    the rest parameter [reason] to the remaining tokens joined by single
    spaces. *)
Theorem kick_quoted_name_and_rest (commands : Commands) (d : string) :
  exists commands',
    registerCommand commands kickUsage d = Ok commands'
    /\ getCommand commands' "kick" = Some (kickCommand d)
    /\ betterSplitOnSpaces "kick 'big bob' was being mean"
       = ["kick"; "big bob"; "was"; "being"; "mean"]
    /\ onPlayerChat commands' "/kick 'big bob' was being mean"
       = Some (Ok (kickCommand d,
                   <["reason" := "was being mean"]>
                     (<["name" := "big bob"]> ∅))).
Proof.
  exists (setCommand commands (kickCommand d)).
  assert (Hget : getCommand (setCommand commands (kickCommand d)) "kick"
                 = Some (kickCommand d))
    by apply (getCommand_setCommand commands (kickCommand d)).
  split; [reflexivity |]. split; [exact Hget |]. split; [reflexivity |].
  unfold onPlayerChat.
  change (Js.startsWith "/" "/kick 'big bob' was being mean") with true.
  cbv iota. unfold parseMessage.
  change (betterSplitOnSpaces
            (Js.substr 1 (String.length "/kick 'big bob' was being mean" - 1)
               "/kick 'big bob' was being mean"))
    with ["kick"; "big bob"; "was"; "being"; "mean"].
  cbv iota. change (negb (Js.truthy "kick")) with false. cbv iota.
  rewrite Hget. reflexivity.
Qed.

(** *** Empty tokens *)

Lemma splitLoop_plain (t rest collector : string) (output : list string)
      (in_string : bool) :
  plainToken t ->
  splitLoop (t +:+ rest) collector output in_string
  = splitLoop rest (collector +:+ t) output in_string.
Proof.
  revert collector. induction t as [|x t IH]; intros collector [Hq Hs].
  - now rewrite app_empty_l, app_empty_r.
  - simpl in Hq, Hs. apply orb_false_iff in Hq as [Hxq Hq].
    apply orb_false_iff in Hs as [Hxs Hs].
    rewrite app_String. cbn [splitLoop]. rewrite Hxq, Hxs. cbn [andb].
    rewrite IH by now split.
    now rewrite app_assoc_str, app_String, app_empty_l.
Qed.

Lemma splitLoop_join (ts : list string) (t collector : string)
      (output : list string) :
  Forall plainToken (t :: ts) ->
  splitLoop (Js.join " " (t :: ts)) collector output false
  = output ++ dropTrailingEmpty ((collector +:+ t) :: ts).
Proof.
  revert t collector output.
  induction ts as [|t' ts IH]; intros t collector output H;
    inversion H as [|? ? Ht Hts]; subst.
  - cbn [Js.join]. rewrite <- (app_empty_r t) at 1.
    rewrite splitLoop_plain by assumption. simpl.
    destruct (Js.truthy (collector +:+ t)); [reflexivity | now rewrite app_nil_r].
  - rewrite join_cons2, splitLoop_plain by assumption.
    rewrite app_String, app_empty_l. cbn [splitLoop].
    change (Ascii.eqb " " "'") with false. rewrite Ascii.eqb_refl.
    cbn [andb negb]. rewrite IH by assumption.
    rewrite app_empty_l, <- app_assoc. reflexivity.
Qed.

(** The tokens of an input without quotes are its space-separated
    fields, the last one left out when it is empty. *)
Lemma betterSplitOnSpaces_join (ts : list string) :
  Forall plainToken ts ->
  betterSplitOnSpaces (Js.join " " ts) = dropTrailingEmpty ts.
Proof.
  destruct ts as [|t ts]; [reflexivity |]. intros H.
  unfold betterSplitOnSpaces. rewrite splitLoop_join by assumption.
  now rewrite app_empty_l.
Qed.

Lemma verifyLoop_bound (cmd : RegisteredChatCommand)
      (pre todo : list ChatCommandParameter) (bound args : list string)
      (parsed : gmap string string) :
  noRest pre -> List.length bound = List.length pre ->
  Forall (fun t => Js.truthy t = true) bound ->
  verifyLoop cmd (pre ++ todo) (bound ++ args) parsed
  = verifyLoop cmd todo args (bindAll pre bound parsed).
Proof.
  revert bound parsed.
  induction pre as [|p pre IH]; intros bound parsed Hrest Hlen Hbound.
  - destruct bound; [reflexivity | discriminate].
  - destruct bound as [|t bound]; [discriminate |].
    inversion Hrest as [|? ? Hp Hpre]; subst.
    inversion Hbound as [|? ? Ht Hb]; subst.
    simpl. unfold consumeArg. rewrite Hp, Ht.
    apply IH; [assumption | now inversion Hlen | assumption].
Qed.

(** C10.  The splitter keeps the empty tokens between separators and
    leaves out only an empty last one; when the token that [verify]
    consumes for a parameter is the empty string, a required parameter
    raises the missing-parameter usage error (the usage of the command,
    the name of the missing parameter and the description of the command)
    and an optional one ends the binding with the arguments bound so far
    (each by the assignment [parsed[name] = token]); so [/kick  bob], with
    two spaces, fails on [name] although the token [bob] follows. *)
Theorem empty_token_is_absent :
  (forall ts : list string,
      Forall plainToken ts ->
      betterSplitOnSpaces (Js.join " " ts) = dropTrailingEmpty ts)
  /\ (forall (cmd : RegisteredChatCommand)
             (pre more : list ChatCommandParameter)
             (param : ChatCommandParameter) (bound args : list string),
         params cmd = pre ++ param :: more ->
         noRest pre -> isRest param = false ->
         List.length bound = List.length pre ->
         Forall (fun t => Js.truthy t = true) bound ->
         verify cmd (bound ++ EmptyString :: args)
         = if required param then
             CallError
               ("Usage: <color=#12a50a>" +:+ createUsage cmd +:+ "</color>"
                +:+ Js.LF +:+ "<color=#f7584e>Missing: " +:+ name param
                +:+ "</color>" +:+ Js.LF +:+ Js.LF +:+ description cmd)
           else Ok (bindAll pre bound ∅))
  /\ (forall d : string,
         betterSplitOnSpaces "kick  bob" = ["kick"; EmptyString; "bob"]
         /\ onPlayerChat [("kick", kickCommand d)] "/kick  bob"
            = Some (CallError
                      ("Usage: <color=#12a50a>/kick <name> [reason]</color>"
                       +:+ Js.LF +:+ "<color=#f7584e>Missing: name</color>"
                       +:+ Js.LF +:+ Js.LF +:+ d))).
Proof.
  split; [exact betterSplitOnSpaces_join |]. split.
  - intros cmd pre more param bound args Hps Hrest Hp Hlen Hbound.
    unfold verify. rewrite Hps, verifyLoop_bound by assumption.
    cbn [verifyLoop]. unfold consumeArg. rewrite Hp. reflexivity.
  - intros d. split; reflexivity.
Qed.

Lemma empty_token_is_absent_witness :
  betterSplitOnSpaces (Js.join " " ["a"; EmptyString; "b"; EmptyString])
  = ["a"; EmptyString; "b"]
  /\ verify (mkCommand "tp" [mkParam false true "x"; mkParam false false "y"]
               "Teleport.")
            (["1"] ++ EmptyString :: ["z"])
     = Ok (<["x" := "1"]> ∅).
Proof.
  destruct empty_token_is_absent as [Hsplit [Hverify _]]. split.
  - apply (Hsplit ["a"; EmptyString; "b"; EmptyString]).
    repeat constructor.
  - apply (Hverify
             (mkCommand "tp" [mkParam false true "x"; mkParam false false "y"]
                "Teleport.")
             [mkParam false true "x"] [] (mkParam false false "y")
             ["1"] ["z"]);
      [reflexivity | repeat constructor | reflexivity | reflexivity
      | repeat constructor].
Defined.

(** * Further properties of the chat-command dispatcher *)

Import ChatHandler ChatSpec.

(** ** What [parse] accepts and what it rejects *)

(** The parameters that the loop of [parse] appends are as many as the
    matches, in order, and a rest parameter among them is the last one. *)
Lemma parseLoop_shape (ms : list string) (i len : nat) (w : bool)
      (acc ps : list ChatCommandParameter) :
  Forall isMatch ms -> len = (i + List.length ms)%nat ->
  parseLoop ms i len w acc = Ok ps ->
  exists new,
    ps = acc ++ new /\ List.length new = List.length ms
    /\ ordered w new /\ restOnlyLast new.
Proof.
  revert i w acc ps.
  induction ms as [|m ms IH]; intros i w acc ps Hms Hlen Hok.
  - simpl in Hok. inversion Hok; subst. exists []. rewrite app_nil_r.
    repeat split.
  - inversion Hms as [|? ? Hm Hrest]; subst.
    assert (Hlen' : (i + List.length (m :: ms) = S i + List.length ms)%nat)
      by (simpl; lia).
    assert (Hlast : (i =? i + List.length (m :: ms) - 1)%nat = true ->
                    ms = []).
    { intros E. apply Nat.eqb_eq in E. simpl in E.
      destruct ms; [reflexivity | simpl in E; lia]. }
    destruct Hm as [inner [[-> Hin] | [-> Hin]]]; cbn [parseLoop] in Hok;
      rewrite !startsWith_head in Hok; cbn [Ascii.eqb Bool.eqb andb] in Hok.
    + rewrite (substr_inner "[" "]" inner) in Hok.
      destruct (Js.endsWith "..." inner) eqn:Hdots.
      * destruct (i =? i + List.length (_ :: ms) - 1)%nat eqn:E;
          [|discriminate]. cbn [negb] in Hok.
        destruct (IH _ _ _ _ Hrest Hlen' Hok) as [new [-> [Hn [Ho Hr]]]].
        eexists (_ :: new). rewrite <- app_assoc.
        split; [reflexivity |]. split; [simpl; now rewrite Hn |].
        split; [split; [discriminate | now rewrite orb_true_r] |].
        split; [|exact Hr]. intros Hne. exfalso. apply Hne.
        rewrite (Hlast eq_refl) in Hn. now destruct new.
      * destruct (IH _ _ _ _ Hrest Hlen' Hok) as [new [-> [Hn [Ho Hr]]]].
        eexists (_ :: new). rewrite <- app_assoc.
        split; [reflexivity |]. split; [simpl; now rewrite Hn |].
        split; [split; [discriminate | now rewrite orb_true_r] |].
        split; [reflexivity | exact Hr].
    + destruct w; [discriminate |].
      rewrite (substr_inner "<" ">" inner) in Hok.
      destruct (Js.endsWith "..." inner) eqn:Hdots.
      * destruct (i =? i + List.length (_ :: ms) - 1)%nat eqn:E;
          [|discriminate]. cbn [negb] in Hok.
        destruct (IH _ _ _ _ Hrest Hlen' Hok) as [new [-> [Hn [Ho Hr]]]].
        eexists (_ :: new). rewrite <- app_assoc.
        split; [reflexivity |]. split; [simpl; now rewrite Hn |].
        split; [split; [reflexivity | exact Ho] |].
        split; [|exact Hr]. intros Hne. exfalso. apply Hne.
        rewrite (Hlast eq_refl) in Hn. now destruct new.
      * destruct (IH _ _ _ _ Hrest Hlen' Hok) as [new [-> [Hn [Ho Hr]]]].
        eexists (_ :: new). rewrite <- app_assoc.
        split; [reflexivity |]. split; [simpl; now rewrite Hn |].
        split; [split; [reflexivity | exact Ho] |].
        split; [reflexivity | exact Hr].
Qed.

Lemma trimEnd_truthy_head (c : ascii) (s : string) :
  Js.is_ws c = false -> Js.truthy (Js.trimEnd (String c s)) = true.
Proof.
  intros H. simpl. destruct (Js.trimEnd s); [now rewrite H | reflexivity].
Qed.

(** X1.  Every command that [parse] returns is well formed: its name is
    not empty and holds no opening bracket and no two spaces in a row; its
    description is the one given; it has one parameter for every match of
    the parameter pattern in the usage; no required parameter comes after
    an optional one; and only the last parameter can be a rest
    parameter. *)
Theorem parse_returns_wellformed_command
        (usage d : string) (cmd : RegisteredChatCommand) :
  parse usage d = Ok cmd ->
  Js.truthy (cmdName cmd) = true
  /\ noBracket (cmdName cmd)
  /\ Js.includes "  " (cmdName cmd) = false
  /\ description cmd = d
  /\ List.length (params cmd) = List.length (matchParams usage)
  /\ ordered false (params cmd)
  /\ restOnlyLast (params cmd).
Proof.
  unfold parse. intros H.
  destruct (Js.truthy (Js.trim (matchCmdPrefix usage))) eqn:Ht; [|discriminate].
  cbn [negb] in H.
  destruct (Js.includes "  " (Js.trim (matchCmdPrefix usage))) eqn:Hsp;
    [discriminate |].
  destruct (parseLoop (matchParams usage) 0
              (List.length (matchParams usage)) false []) as [ps| |] eqn:Hloop;
    [|discriminate ..].
  inversion H; subst; clear H. cbn [cmdName params description].
  apply parseLoop_shape in Hloop as [new [-> [Hn [Ho Hr]]]];
    [|apply matchParamsFrom_isMatch | reflexivity].
  repeat split; try assumption;
    apply trim_noBracket, matchCmdPrefix_noBracket.
Qed.

Lemma parse_returns_wellformed_command_witness :
  Js.truthy (cmdName (kickCommand "Kick a player.")) = true
  /\ noBracket (cmdName (kickCommand "Kick a player."))
  /\ Js.includes "  " (cmdName (kickCommand "Kick a player.")) = false
  /\ description (kickCommand "Kick a player.") = "Kick a player."
  /\ List.length (params (kickCommand "Kick a player."))
     = List.length (matchParams kickUsage)
  /\ ordered false (params (kickCommand "Kick a player."))
  /\ restOnlyLast (params (kickCommand "Kick a player.")).
Proof.
  apply (parse_returns_wellformed_command kickUsage "Kick a player.").
  reflexivity.
Defined.

Lemma parseLoop_rendered_unordered (ps : list ChatCommandParameter)
      (i len : nat) (wasOptional : bool) (acc : list ChatCommandParameter) :
  noRest ps -> ~ ordered wasOptional ps -> Forall noDots ps ->
  parseLoop (map renderParam ps) i len wasOptional acc
  = TypeError "Required parameter cannot come after an optional parameter.".
Proof.
  revert i wasOptional acc.
  induction ps as [|p ps IH]; intros i w acc Hrest Hord Hdots.
  - exfalso. apply Hord. exact I.
  - inversion Hrest as [|? ? Hp Hps]; subst.
    inversion Hdots as [|? ? Dp Dps]; subst. unfold noDots in Dp.
    destruct p as [rest req nm]. simpl in Hp, Dp, Hord. subst rest.
    cbn [map parseLoop]. destruct req.
    + rewrite (renderParam_required (mkParam false true nm) eq_refl).
      cbn [name]. rewrite !startsWith_head. cbn [Ascii.eqb Bool.eqb andb].
      destruct w; [reflexivity |].
      rewrite (substr_inner "<" ">" nm), Dp.
      apply IH; try assumption. intros H. apply Hord. now split.
    + rewrite (renderParam_optional (mkParam false false nm) eq_refl).
      cbn [name]. rewrite !startsWith_head. cbn [Ascii.eqb Bool.eqb andb].
      rewrite (substr_inner "[" "]" nm), Dp.
      apply IH; try assumption. intros H. apply Hord.
      split; [discriminate |]. now rewrite orb_true_r.
Qed.

(** X2.  A usage made of a head without brackets and of rendered
    parameters, none of them a rest parameter, is accepted exactly when no
    required parameter follows an optional one: then the command has the
    trimmed head as its name and these parameters, and otherwise [parse]
    throws the TypeError about the order of the parameters. *)
Theorem parse_decides_parameter_order
        (head d : string) (ps : list ChatCommandParameter) :
  noBracket head ->
  Js.truthy (Js.trim head) = true ->
  Js.includes "  " (Js.trim head) = false ->
  noRest ps -> Forall noDots ps -> Forall rendersBack ps ->
  let usage := head +:+ Js.join " " (map renderParam ps) in
  (ordered false ps -> parse usage d = Ok (mkCommand (Js.trim head) ps d))
  /\ (~ ordered false ps ->
      parse usage d
      = TypeError "Required parameter cannot come after an optional parameter.").
Proof.
  intros Hnb Ht Hsp Hrest Hdots Hback usage. unfold usage, parse.
  rewrite matchCmdPrefix_render, matchParams_prefix by assumption.
  rewrite Ht, Hsp, matchParams_join by assumption. cbn [negb]. split; intros Ho.
  - now rewrite parseLoop_rendered.
  - now rewrite parseLoop_rendered_unordered.
Qed.

Lemma parse_decides_parameter_order_witness :
  (ordered false [mkParam false false "a"; mkParam false true "b"] ->
   parse ("tp " +:+ Js.join " "
            (map renderParam [mkParam false false "a"; mkParam false true "b"]))
         "Teleport."
   = Ok (mkCommand (Js.trim "tp ")
           [mkParam false false "a"; mkParam false true "b"] "Teleport."))
  /\ (~ ordered false [mkParam false false "a"; mkParam false true "b"] ->
      parse "tp [a] <b>" "Teleport."
      = TypeError "Required parameter cannot come after an optional parameter.").
Proof.
  apply (parse_decides_parameter_order "tp " "Teleport."
           [mkParam false false "a"; mkParam false true "b"]);
    first [reflexivity | now split | repeat constructor].
Defined.

(** ** What [verify] binds *)

Lemma verifyLoop_in_order (cmd : RegisteredChatCommand)
      (todo : list ChatCommandParameter) (args : list string)
      (parsed : gmap string string) :
  noRest todo -> Forall (fun t => Js.truthy t = true) args ->
  verifyLoop cmd todo args parsed
  = match nth_error todo (List.length args) with
    | Some param =>
        if required param then CallError (missingMessage cmd param)
        else Ok (bindAll todo args parsed)
    | None => Ok (bindAll todo args parsed)
    end.
Proof.
  revert args parsed.
  induction todo as [|p todo IH]; intros args parsed Hrest Hargs.
  - destruct args; reflexivity.
  - inversion Hrest as [|? ? Hp Hps]; subst.
    cbn [verifyLoop]. unfold consumeArg. rewrite Hp.
    destruct args as [|a args]; [simpl; destruct (required p); reflexivity |].
    inversion Hargs as [|? ? Ha Hmore]; subst. rewrite Ha.
    rewrite IH by assumption. reflexivity.
Qed.

(** X3.  For a command without a rest parameter and arguments that are
    not empty, [verify] binds the parameters to the arguments in order,
    one each.  Arguments beyond the last parameter are ignored.  When
    the arguments run out, the first parameter left decides: a required
    one raises the usage error that names it (the usage of the command,
    the name of the parameter and the description), an optional one ends
    the binding with what is bound so far.  A binding is the assignment
    [parsed[name] = argument] on a plain object, which binds nothing under
    the name [__proto__]. *)
Theorem verify_binds_in_order
        (cmd : RegisteredChatCommand) (args : list string) :
  noRest (params cmd) ->
  Forall (fun t => Js.truthy t = true) args ->
  verify cmd args
  = match nth_error (params cmd) (List.length args) with
    | Some param =>
        if required param then
          CallError
            ("Usage: <color=#12a50a>" +:+ createUsage cmd +:+ "</color>"
             +:+ Js.LF +:+ "<color=#f7584e>Missing: " +:+ name param
             +:+ "</color>" +:+ Js.LF +:+ Js.LF +:+ description cmd)
        else Ok (bindAll (params cmd) args ∅)
    | None => Ok (bindAll (params cmd) args ∅)
    end.
Proof. intros Hrest Hargs. now apply verifyLoop_in_order. Qed.

Lemma verify_binds_in_order_witness :
  verify (mkCommand "tp" [mkParam false true "x"; mkParam false true "y"]
            "Teleport.") ["1"]
  = CallError
      ("Usage: <color=#12a50a>/tp <x> <y></color>" +:+ Js.LF
       +:+ "<color=#f7584e>Missing: y</color>" +:+ Js.LF +:+ Js.LF
       +:+ "Teleport.")
  /\ verify (mkCommand "tp" [mkParam false true "x"; mkParam false false "y"]
               "Teleport.") ["1"; "2"; "3"]
     = Ok (<["y" := "2"]> (<["x" := "1"]> ∅))
  /\ verify (mkCommand "tp"
               [mkParam false true "__proto__"; mkParam false false "y"]
               "Teleport.") ["1"; "2"]
     = Ok (<["y" := "2"]> ∅).
Proof.
  split; [|split].
  - apply (verify_binds_in_order
             (mkCommand "tp" [mkParam false true "x"; mkParam false true "y"]
                "Teleport.") ["1"]);
      repeat constructor.
  - apply (verify_binds_in_order
             (mkCommand "tp" [mkParam false true "x"; mkParam false false "y"]
                "Teleport.") ["1"; "2"; "3"]);
      repeat constructor.
  - apply (verify_binds_in_order
             (mkCommand "tp"
                [mkParam false true "__proto__"; mkParam false false "y"]
                "Teleport.") ["1"; "2"]);
      repeat constructor.
Defined.

(** X4.  A rest parameter that comes after parameters bound to non-empty
    arguments consumes everything that is left: it is bound to the
    remaining arguments joined by single spaces.  When that string is
    empty (nothing is left, or one empty argument), a required rest
    parameter raises the usage error that names it (the usage of the
    command, the name of the parameter and the description) and an
    optional one is left unbound.  A binding is the assignment
    [parsed[name] = argument] on a plain object, which binds nothing under
    the name [__proto__]. *)
Theorem verify_rest_consumes_remaining
        (cmd : RegisteredChatCommand) (pre : list ChatCommandParameter)
        (param : ChatCommandParameter) (bound args : list string) :
  params cmd = pre ++ [param] ->
  noRest pre -> isRest param = true ->
  List.length bound = List.length pre ->
  Forall (fun t => Js.truthy t = true) bound ->
  verify cmd (bound ++ args)
  = if Js.truthy (Js.join " " args) then
      Ok (assignProperty (name param) (Js.join " " args)
            (bindAll pre bound ∅))
    else if required param then
      CallError
        ("Usage: <color=#12a50a>" +:+ createUsage cmd +:+ "</color>"
         +:+ Js.LF +:+ "<color=#f7584e>Missing: " +:+ name param
         +:+ "</color>" +:+ Js.LF +:+ Js.LF +:+ description cmd)
    else Ok (bindAll pre bound ∅).
Proof.
  intros Hps Hrest Hp Hlen Hbound.
  unfold verify. rewrite Hps, verifyLoop_bound by assumption.
  cbn [verifyLoop]. unfold consumeArg. rewrite Hp. reflexivity.
Qed.

Lemma verify_rest_consumes_remaining_witness :
  verify (kickCommand "Kick a player.") (["bob"] ++ ["was"; "mean"])
  = Ok (<["reason" := "was mean"]> (<["name" := "bob"]> ∅))
  /\ verify (mkCommand "say" [mkParam false true "to"; mkParam true true "text"]
               "Say something.") (["bob"] ++ [])
     = CallError
         ("Usage: <color=#12a50a>/say <to> <text></color>" +:+ Js.LF
          +:+ "<color=#f7584e>Missing: text</color>" +:+ Js.LF +:+ Js.LF
          +:+ "Say something.").
Proof.
  split.
  - apply (verify_rest_consumes_remaining (kickCommand "Kick a player.")
             [mkParam false true "name"] (mkParam true false "reason")
             ["bob"] ["was"; "mean"]);
      first [reflexivity | repeat constructor].
  - apply (verify_rest_consumes_remaining
             (mkCommand "say" [mkParam false true "to"; mkParam true true "text"]
                "Say something.")
             [mkParam false true "to"] (mkParam true true "text") ["bob"] []);
      first [reflexivity | repeat constructor].
Defined.

Lemma verifyLoop_boundWithin (cmd : RegisteredChatCommand)
      (ps todo : list ChatCommandParameter) (args : list string)
      (parsed result : gmap string string) :
  (forall p, In p todo -> In p ps) ->
  boundWithin ps parsed ->
  verifyLoop cmd todo args parsed = Ok result ->
  boundWithin ps result.
Proof.
  revert args parsed.
  induction todo as [|p todo IH]; intros args parsed Hsub Hinv Hok.
  - simpl in Hok. inversion Hok; subst. exact Hinv.
  - cbn [verifyLoop] in Hok.
    assert (Hstep : forall consume,
               Js.truthy consume = true ->
               boundWithin ps (assignProperty (name p) consume parsed)).
    { intros consume Ht k v Hk. unfold assignProperty in Hk.
      destruct (String.eqb (name p) "__proto__"); [now apply Hinv |].
      destruct (decide (name p = k)) as [<-|Hne].
      - rewrite lookup_insert_eq in Hk. inversion Hk; subst.
        split; [exact Ht |]. exists p. split; [|reflexivity].
        apply Hsub. now left.
      - rewrite lookup_insert_ne in Hk by assumption. now apply Hinv. }
    destruct (consumeArg p args) as [[consume|] args'] eqn:Hc.
    + destruct (Js.truthy consume) eqn:Ht.
      * apply (IH args' _ (fun q Hq => Hsub q (or_intror Hq))
                 (Hstep _ Ht) Hok).
      * destruct (required p); [discriminate |].
        inversion Hok; subst. exact Hinv.
    + destruct (required p); [discriminate |].
      inversion Hok; subst. exact Hinv.
Qed.

(** X5.  Whatever the command and the arguments, the record that
    [verify] returns binds only names of parameters of the command, and
    never binds a name to the empty string. *)
Theorem verify_binds_only_parameters
        (cmd : RegisteredChatCommand) (args : list string)
        (parsed : gmap string string) :
  verify cmd args = Ok parsed ->
  forall k v,
    parsed !! k = Some v ->
    Js.truthy v = true /\ exists p, In p (params cmd) /\ name p = k.
Proof.
  intros Hok.
  apply (verifyLoop_boundWithin cmd (params cmd) (params cmd) args ∅ parsed);
    [auto | | exact Hok].
  intros k v Hk. rewrite lookup_empty in Hk. discriminate.
Qed.

Lemma verify_binds_only_parameters_witness :
  Js.truthy "1" = true
  /\ exists p,
      In p [mkParam false true "x"; mkParam false false "y"] /\ name p = "x".
Proof.
  apply (verify_binds_only_parameters
           (mkCommand "tp" [mkParam false true "x"; mkParam false false "y"]
              "Teleport.")
           ["1"; EmptyString; "z"] (<["x" := "1"]> ∅) eq_refl "x" "1").
  reflexivity.
Defined.

(** ** The splitter *)

Lemma splitLoop_no_quote (input collector : string) (output : list string)
      (in_string : bool) :
  hasChar "'" collector = false ->
  Forall (fun t => hasChar "'" t = false) output ->
  Forall (fun t => hasChar "'" t = false)
    (splitLoop input collector output in_string).
Proof.
  revert collector output in_string.
  induction input as [|c input IH]; intros collector output b Hc Ho.
  - simpl. destruct (Js.truthy collector); [|exact Ho].
    apply Forall_app. split; [exact Ho | now constructor].
  - cbn [splitLoop]. destruct (Ascii.eqb c "'") eqn:Eq; [now apply IH |].
    destruct (Ascii.eqb c " " && negb b).
    + apply IH; [reflexivity |]. apply Forall_app. split; [exact Ho |].
      now constructor.
    + apply IH; [|exact Ho]. rewrite hasChar_app, Hc. simpl.
      now rewrite Eq.
Qed.

Lemma splitLoop_no_space (input collector : string) (output : list string) :
  hasChar "'" input = false ->
  hasChar " " collector = false ->
  Forall (fun t => hasChar " " t = false) output ->
  Forall (fun t => hasChar " " t = false)
    (splitLoop input collector output false).
Proof.
  revert collector output.
  induction input as [|c input IH]; intros collector output Hq Hc Ho.
  - simpl. destruct (Js.truthy collector); [|exact Ho].
    apply Forall_app. split; [exact Ho | now constructor].
  - simpl in Hq. apply orb_false_iff in Hq as [Eq Hq].
    cbn [splitLoop]. rewrite Eq. cbn [negb]. rewrite andb_true_r.
    destruct (Ascii.eqb c " ") eqn:Es.
    + apply IH; [exact Hq | reflexivity |]. apply Forall_app.
      split; [exact Ho | now constructor].
    + apply IH; [exact Hq | | exact Ho]. rewrite hasChar_app, Hc. simpl.
      now rewrite Es.
Qed.

(** X6.  No token that [betterSplitOnSpaces] returns holds a quote
    character, whatever the input; and when the input holds no quote, no
    token holds a space. *)
Theorem tokens_hold_no_quote (input : string) :
  Forall (fun t => hasChar "'" t = false) (betterSplitOnSpaces input)
  /\ (hasChar "'" input = false ->
      Forall plainToken (betterSplitOnSpaces input)).
Proof.
  assert (Hq : Forall (fun t => hasChar "'" t = false)
                 (betterSplitOnSpaces input))
    by (apply splitLoop_no_quote; [reflexivity | constructor]).
  split; [exact Hq |]. intros Hin.
  assert (Hs : Forall (fun t => hasChar " " t = false)
                 (betterSplitOnSpaces input))
    by (apply splitLoop_no_space; [exact Hin | reflexivity | constructor]).
  rewrite Forall_forall in Hq, Hs. apply Forall_forall. intros t Ht.
  split; [now apply Hq | now apply Hs].
Qed.

Lemma tokens_hold_no_quote_witness :
  Forall (fun t => hasChar "'" t = false) (betterSplitOnSpaces "a 'b c' d")
  /\ (hasChar "'" "a b  c" = false ->
      Forall plainToken (betterSplitOnSpaces "a b  c")).
Proof.
  split.
  - apply (tokens_hold_no_quote "a 'b c' d").
  - apply (tokens_hold_no_quote "a b  c").
Defined.

Lemma splitLoop_quoted (s rest collector : string) (output : list string) :
  hasChar "'" s = false ->
  splitLoop (s +:+ rest) collector output true
  = splitLoop rest (collector +:+ s) output true.
Proof.
  revert collector. induction s as [|x s IH]; intros collector Hq.
  - now rewrite app_empty_l, app_empty_r.
  - simpl in Hq. apply orb_false_iff in Hq as [Hx Hq].
    rewrite app_String. cbn [splitLoop]. rewrite Hx.
    cbn [negb]. rewrite andb_false_r, IH by assumption.
    now rewrite app_assoc_str, app_String, app_empty_l.
Qed.

Lemma splitLoop_join_then_space (ts : list string) (t rest collector : string)
      (output : list string) :
  Forall plainToken (t :: ts) ->
  splitLoop (Js.join " " (t :: ts) +:+ String " " rest) collector output false
  = splitLoop rest EmptyString (output ++ (collector +:+ t) :: ts) false.
Proof.
  revert t collector output.
  induction ts as [|t' ts IH]; intros t collector output H;
    inversion H as [|? ? Ht Hts]; subst.
  - cbn [Js.join]. rewrite splitLoop_plain by assumption. cbn [splitLoop].
    change (Ascii.eqb " " "'") with false. rewrite Ascii.eqb_refl.
    reflexivity.
  - rewrite join_cons2, !app_assoc_str, splitLoop_plain by assumption.
    rewrite app_String, app_empty_l. cbn [splitLoop].
    change (Ascii.eqb " " "'") with false. rewrite Ascii.eqb_refl.
    cbn [andb negb]. rewrite IH by assumption.
    rewrite app_empty_l, <- app_assoc. reflexivity.
Qed.

(** X7.  Between two quotes the splitter keeps spaces.  For plain tokens
    [ts] and a span [s] without a quote, the tokens joined by single
    spaces and followed by a space and the quoted span give the tokens of
    [ts], empty ones included, and then [s] as one token without its
    quotes.  An empty span leaves no token. *)
Theorem quoted_span_is_one_token (ts : list string) (s : string) :
  Forall plainToken ts -> hasChar "'" s = false ->
  betterSplitOnSpaces (Js.join " " ts +:+ " '" +:+ s +:+ "'")
  = match ts with [] => [EmptyString] | _ => ts end
    ++ (if Js.truthy s then [s] else []).
Proof.
  intros Hts Hs.
  assert (Htail : forall output,
             splitLoop (String "'" (s +:+ "'")) EmptyString output false
             = output ++ (if Js.truthy s then [s] else [])).
  { intros output. cbn [splitLoop]. rewrite Ascii.eqb_refl. cbn [negb].
    rewrite splitLoop_quoted by assumption. cbn [splitLoop].
    rewrite Ascii.eqb_refl. cbn [negb]. rewrite app_empty_l.
    destruct (Js.truthy s); [reflexivity | now rewrite app_nil_r]. }
  unfold betterSplitOnSpaces.
  change (" '" +:+ s +:+ "'") with (String " " (String "'" (s +:+ "'"))).
  destruct ts as [|t ts].
  - cbn [Js.join]. rewrite app_empty_l.
    change (splitLoop (String " " (String "'" (s +:+ "'"))) EmptyString [] false)
      with (splitLoop (String "'" (s +:+ "'")) EmptyString [EmptyString] false).
    now rewrite Htail.
  - rewrite splitLoop_join_then_space by assumption.
    now rewrite Htail, app_empty_l.
Qed.

Lemma quoted_span_is_one_token_witness :
  betterSplitOnSpaces (Js.join " " ["kick"; "now"] +:+ " '" +:+ "big  bob" +:+ "'")
  = ["kick"; "now"] ++ (if Js.truthy "big  bob" then ["big  bob"] else []).
Proof.
  apply (quoted_span_is_one_token ["kick"; "now"] "big  bob");
    [repeat constructor | reflexivity].
Defined.

(** ** The command table *)

Lemma getCommand_setCommand_ne (commands : Commands)
      (c : RegisteredChatCommand) (other : string) :
  other <> cmdName c ->
  getCommand (setCommand commands c) other = getCommand commands other.
Proof.
  intros Hne. induction commands as [|[k c0] rest IH]; simpl.
  - destruct (String.eqb (cmdName c) other) eqn:E; [|reflexivity].
    apply String.eqb_eq in E. congruence.
  - destruct (String.eqb k (cmdName c)) eqn:E; simpl.
    + apply String.eqb_eq in E. subst k.
      destruct (String.eqb (cmdName c) other) eqn:E'; [|reflexivity].
      apply String.eqb_eq in E'. congruence.
    + now rewrite IH.
Qed.

Lemma setCommand_length (commands : Commands) (c : RegisteredChatCommand) :
  List.length (setCommand commands c)
  = match getCommand commands (cmdName c) with
    | Some _ => List.length commands
    | None => S (List.length commands)
    end.
Proof.
  induction commands as [|[k c0] rest IH]; [reflexivity |]. simpl.
  destruct (String.eqb k (cmdName c)); [reflexivity |]. simpl. rewrite IH.
  now destruct (getCommand rest (cmdName c)).
Qed.

(** X8.  [registerCommand] registers exactly what [parse] returns, under
    its name: when [parse] throws, so does [registerCommand], with the
    same error; otherwise looking up the name of the parsed command gives
    that command, every other name is looked up as before, and the table
    grows by one entry unless the name was registered, in which case the
    old command is replaced. *)
Theorem registerCommand_then_lookup
        (commands : Commands) (usage d : string) :
  match parse usage d with
  | Ok cmd =>
      exists commands',
        registerCommand commands usage d = Ok commands'
        /\ getCommand commands' (cmdName cmd) = Some cmd
        /\ (forall other, other <> cmdName cmd ->
              getCommand commands' other = getCommand commands other)
        /\ List.length commands'
           = match getCommand commands (cmdName cmd) with
             | Some _ => List.length commands
             | None => S (List.length commands)
             end
  | TypeError m => registerCommand commands usage d = TypeError m
  | CallError m => registerCommand commands usage d = CallError m
  end.
Proof.
  unfold registerCommand. destruct (parse usage d) as [cmd|m|m];
    [|reflexivity ..].
  exists (setCommand commands cmd). split; [reflexivity |].
  split; [apply getCommand_setCommand |].
  split; [intros other Hne; now apply getCommand_setCommand_ne |].
  apply setCommand_length.
Qed.

Lemma getCommand_deleteCommand (commands : Commands) (commandName other : string) :
  getCommand (deleteCommand commands commandName) other
  = if String.eqb commandName other then None else getCommand commands other.
Proof.
  induction commands as [|[k c] rest IH]; simpl.
  - now destruct (String.eqb commandName other).
  - destruct (String.eqb k commandName) eqn:E.
    + apply String.eqb_eq in E. subst k. rewrite IH.
      now destruct (String.eqb commandName other).
    + simpl. rewrite IH. destruct (String.eqb k other) eqn:E'; [|reflexivity].
      apply String.eqb_eq in E'. subst k.
      rewrite String.eqb_sym in E. now rewrite E.
Qed.

(** X9.  [removeCommand] throws the TypeError [No command: name] when
    the name is not registered, and the table is then what it was.
    Otherwise the name is no longer found afterwards, every other name
    is looked up as before, and a dispatch of the name fails with [No
    command with name: name]. *)
Theorem removeCommand_unregisters (commands : Commands) (commandName : string) :
  match getCommand commands commandName with
  | None =>
      removeCommand commands commandName
      = TypeError ("No command: " +:+ commandName)
  | Some _ =>
      exists commands',
        removeCommand commands commandName = Ok commands'
        /\ getCommand commands' commandName = None
        /\ (forall other, other <> commandName ->
              getCommand commands' other = getCommand commands other)
        /\ (forall args,
              plainToken commandName -> Js.truthy commandName = true ->
              Forall plainToken args ->
              parseMessage commands' (Js.join " " (commandName :: args))
              = CallError ("No command with name: " +:+ commandName))
  end.
Proof.
  unfold removeCommand.
  destruct (getCommand commands commandName) as [c|] eqn:Hget; [|reflexivity].
  exists (deleteCommand commands commandName). split; [reflexivity |].
  assert (Hnone : getCommand (deleteCommand commands commandName) commandName
                  = None)
    by (now rewrite getCommand_deleteCommand, String.eqb_refl).
  split; [exact Hnone |]. split.
  - intros other Hne. rewrite getCommand_deleteCommand.
    destruct (String.eqb commandName other) eqn:E; [|reflexivity].
    apply String.eqb_eq in E. congruence.
  - intros args Hp Ht Hargs. unfold parseMessage.
    rewrite betterSplitOnSpaces_join by now constructor.
    destruct commandName as [|x nm]; [discriminate |].
    destruct args as [|a args]; cbn [dropTrailingEmpty Js.truthy negb];
      now rewrite Hnone.
Qed.

Lemma registerCommand_then_lookup_witness :
  exists commands',
    registerCommand [("help", helpCommand)] kickUsage "Kick a player."
    = Ok commands'
    /\ getCommand commands' "kick" = Some (kickCommand "Kick a player.")
    /\ (forall other, other <> "kick" ->
          getCommand commands' other
          = getCommand [("help", helpCommand)] other)
    /\ List.length commands' = 2%nat.
Proof.
  exact (registerCommand_then_lookup [("help", helpCommand)] kickUsage
           "Kick a player.").
Defined.

Lemma removeCommand_unregisters_witness :
  exists commands',
    removeCommand [("help", helpCommand); ("kick", kickCommand "Kick.")] "kick"
    = Ok commands'
    /\ getCommand commands' "kick" = None
    /\ (forall other, other <> "kick" ->
          getCommand commands' other
          = getCommand [("help", helpCommand); ("kick", kickCommand "Kick.")]
              other)
    /\ (forall args,
          plainToken "kick" -> Js.truthy "kick" = true ->
          Forall plainToken args ->
          parseMessage commands' (Js.join " " ("kick" :: args))
          = CallError ("No command with name: " +:+ "kick")).
Proof.
  exact (removeCommand_unregisters
           [("help", helpCommand); ("kick", kickCommand "Kick.")] "kick").
Defined.

(** ** Dispatch *)

Lemma splitLoop_output (input collector : string) (output : list string)
      (in_string : bool) :
  splitLoop input collector output in_string
  = output ++ splitLoop input collector [] in_string.
Proof.
  revert collector output in_string.
  induction input as [|c input IH]; intros collector output b.
  - simpl. destruct (Js.truthy collector); [reflexivity | now rewrite app_nil_r].
  - cbn [splitLoop]. destruct (Ascii.eqb c "'"); [apply IH |].
    destruct (Ascii.eqb c " " && negb b); [|apply IH].
    rewrite IH, (IH _ ([] ++ [collector])). now rewrite app_assoc.
Qed.

Lemma dropTrailingEmpty_head (t : string) (ts : list string) :
  Js.truthy t = true ->
  exists rest, dropTrailingEmpty (t :: ts) = t :: rest.
Proof.
  intros Ht. destruct ts as [|t' ts]; simpl.
  - rewrite Ht. now exists [].
  - eexists. reflexivity.
Qed.

(** X10.  What the dispatcher does with a message that names no
    command.  A chat message that does not start with a slash is not
    dispatched at all.  A call that is empty or starts with a space has
    no command name and fails with [Bad command call.].  A call of plain
    tokens whose first token is not a registered name fails with [No
    command with name:] and that token, whatever arguments follow. *)
Theorem dispatch_without_command (commands : Commands) :
  (forall c rest, Ascii.eqb c "/" = false ->
     onPlayerChat commands (String c rest) = None)
  /\ onPlayerChat commands EmptyString = None
  /\ parseMessage commands EmptyString = CallError "Bad command call."
  /\ (forall rest,
        parseMessage commands (String " " rest) = CallError "Bad command call.")
  /\ (forall commandName args,
        Forall plainToken (commandName :: args) ->
        Js.truthy commandName = true ->
        getCommand commands commandName = None ->
        parseMessage commands (Js.join " " (commandName :: args))
        = CallError ("No command with name: " +:+ commandName)).
Proof.
  split; [|split; [reflexivity | split; [reflexivity | split]]].
  - intros c rest Hc. unfold onPlayerChat. rewrite startsWith_head.
    rewrite Ascii.eqb_sym, Hc. reflexivity.
  - intros rest. unfold parseMessage, betterSplitOnSpaces.
    change (splitLoop (String " " rest) EmptyString [] false)
      with (splitLoop rest EmptyString [EmptyString] false).
    rewrite splitLoop_output. reflexivity.
  - intros commandName args Hplain Ht Hget. unfold parseMessage.
    rewrite betterSplitOnSpaces_join by assumption.
    destruct (dropTrailingEmpty_head commandName args Ht) as [rest ->].
    now rewrite Ht, Hget.
Qed.

Lemma dispatch_without_command_witness :
  onPlayerChat [("help", helpCommand)] (String "h" "ello") = None
  /\ parseMessage [("help", helpCommand)] (Js.join " " ["kick"; "bob"])
     = CallError ("No command with name: " +:+ "kick").
Proof.
  destruct (dispatch_without_command [("help", helpCommand)])
    as [Hchat [_ [_ [_ Hunknown]]]].
  split.
  - apply (Hchat "h"%char "ello"). reflexivity.
  - apply (Hunknown "kick" ["bob"]);
      [repeat constructor | reflexivity | reflexivity].
Defined.

(** ** The built-in [help] *)

Lemma helpLoop_app (commands : Commands) (outMessage : string) :
  helpLoop commands outMessage
  = outMessage +:+ helpLoop commands EmptyString.
Proof.
  revert outMessage.
  induction commands as [|[k c] rest IH]; intros outMessage; simpl.
  - now rewrite app_empty_r.
  - rewrite IH, (IH (EmptyString +:+ _)). rewrite app_empty_l.
    now rewrite !app_assoc_str.
Qed.

Lemma prefix_app_same (p b : string) : String.prefix p (p +:+ b) = true.
Proof.
  induction p as [|x p IH]; [now destruct (EmptyString +:+ b) |].
  rewrite app_String. simpl. destruct (ascii_dec x x); [exact IH | congruence].
Qed.

Lemma includes_app_r (p a b : string) :
  Js.includes p b = true -> Js.includes p (a +:+ b) = true.
Proof.
  intros H. induction a as [|x a IH]; [exact H |].
  rewrite app_String, includes_cons, IH. apply orb_true_r.
Qed.

Lemma includes_app_same (p b : string) : Js.includes p (p +:+ b) = true.
Proof.
  destruct (p +:+ b) as [|x r] eqn:E.
  - destruct p; [reflexivity | discriminate].
  - rewrite includes_cons, <- E, prefix_app_same. reflexivity.
Qed.

Lemma helpLoop_includes (commands : Commands) (k : string)
      (c : RegisteredChatCommand) (outMessage : string) :
  In (k, c) commands ->
  Js.includes
    ("<space=1em><color=#12a50a>" +:+ createUsage c +:+ "</color> - "
     +:+ description c)
    (helpLoop commands outMessage) = true.
Proof.
  revert outMessage.
  induction commands as [|[k0 c0] rest IH]; intros outMessage Hin;
    [contradiction |].
  destruct Hin as [E | Hin]; [|now apply IH].
  inversion E; subst. simpl. rewrite helpLoop_app.
  apply includes_app_l. rewrite <- !app_assoc_str.
  rewrite !app_assoc_str.
  do 3 apply includes_app_r. 
  rewrite <- (app_empty_r (description c)) at 2.
  rewrite <- !app_assoc_str. apply includes_app_same.
Qed.

(** X11.  The built-in [help].  Its usage parses to a command with the
    one optional parameter [command].  In a table that holds it, the call
    [help] reaches its callback with nothing bound, and the reply starts
    with the number of registered commands and holds, for every command
    of the table, a paragraph with the usage and the description of that
    command.  The call [help name] reaches the callback with [command]
    bound to the name, and the reply is the usage and the description of
    the command of that name, or [No command with name:] and the name
    when there is none. *)
Theorem help_lists_and_details (commands : Commands) :
  getCommand commands "help" = Some helpCommand ->
  Chat.parse helpUsage helpDescription = Ok helpCommand
  /\ parseMessage commands "help" = Ok (helpCommand, ∅)
  /\ String.prefix
       ("Listing " +:+ pretty (List.length commands) +:+ " command(s):")
       (helpCallback commands ∅) = true
  /\ (forall k c,
        In (k, c) commands ->
        Js.includes
          ("<space=1em><color=#12a50a>" +:+ createUsage c +:+ "</color> - "
           +:+ description c)
          (helpCallback commands ∅) = true)
  /\ (forall requested,
        plainToken requested -> Js.truthy requested = true ->
        parseMessage commands ("help " +:+ requested)
        = Ok (helpCommand, <["command" := requested]> ∅)
        /\ helpCallback commands (<["command" := requested]> ∅)
           = match getCommand commands requested with
             | None => "No command with name: " +:+ requested
             | Some command =>
                 "Usage: <color=#12a50a>" +:+ createUsage command
                 +:+ "</color>" +:+ Js.LF +:+ Js.LF +:+ description command
             end).
Proof.
  intros Hhelp. split; [reflexivity |]. split.
  { unfold parseMessage.
    change (betterSplitOnSpaces "help") with ["help"].
    cbn [Js.truthy negb]. now rewrite Hhelp. }
  split.
  { unfold helpCallback. rewrite lookup_empty, helpLoop_app.
    apply prefix_app_same. }
  split.
  { intros k c Hin. unfold helpCallback. rewrite lookup_empty.
    now apply (helpLoop_includes commands k). }
  intros requested Hplain Ht. split.
  - unfold parseMessage.
    change ("help " +:+ requested) with (Js.join " " ["help"; requested]).
    rewrite betterSplitOnSpaces_join
      by (constructor; [now split | constructor; [exact Hplain | constructor]]).
    cbn [dropTrailingEmpty]. rewrite Ht. cbn [Js.truthy negb].
    rewrite Hhelp. unfold verify. cbn [params helpCommand verifyLoop].
    unfold consumeArg. cbn [isRest]. rewrite Ht. reflexivity.
  - unfold helpCallback. rewrite lookup_insert_eq, Ht. reflexivity.
Qed.

Lemma help_lists_and_details_witness :
  Chat.parse helpUsage helpDescription = Ok helpCommand
  /\ parseMessage [("help", helpCommand); ("kick", kickCommand "Kick.")] "help"
     = Ok (helpCommand, ∅)
  /\ helpCallback [("help", helpCommand); ("kick", kickCommand "Kick.")] ∅
     = "Listing 2 command(s):" +:+ Js.LF +:+ Js.LF
       +:+ "<space=1em><color=#12a50a>/help [command]</color> - "
       +:+ helpDescription +:+ Js.LF +:+ Js.LF
       +:+ "<space=1em><color=#12a50a>/kick <name> [reason]</color> - Kick."
  /\ parseMessage [("help", helpCommand); ("kick", kickCommand "Kick.")]
       ("help " +:+ "kick")
     = Ok (helpCommand, <["command" := "kick"]> ∅).
Proof.
  destruct (help_lists_and_details
              [("help", helpCommand); ("kick", kickCommand "Kick.")] eq_refl)
    as [Hparse [Hcall [_ [_ Hone]]]].
  split; [exact Hparse |]. split; [exact Hcall |]. split; [reflexivity |].
  apply (Hone "kick"); [now split | reflexivity].
Defined.

(** ** Rest parameters in a usage *)

Lemma endsWith_app (p a : string) : Js.endsWith p (a +:+ p) = true.
Proof.
  induction a as [|c a IH].
  - rewrite app_empty_l. destruct p; simpl; [reflexivity |].
    now rewrite Ascii.eqb_refl, String.eqb_refl.
  - rewrite app_String. simpl. rewrite IH. apply orb_true_r.
Qed.

Lemma substr_without_dots (nm : string) :
  Js.substr 0 (String.length (nm +:+ "...") - 3) (nm +:+ "...") = nm.
Proof.
  unfold Js.substr. rewrite length_app_str. simpl String.length.
  replace (String.length nm + 3 - 3)%nat with (String.length nm) by lia.
  apply substring_0_app.
Qed.

Lemma renderRest_as_param (p : ChatCommandParameter) :
  renderRest p = renderParam (mkParam false (required p) (name p +:+ "...")).
Proof. reflexivity. Qed.

Lemma parseLoop_app (pre : list ChatCommandParameter) (ms : list string)
      (i len : nat) (w : bool) (acc : list ChatCommandParameter) :
  noRest pre -> ordered w pre -> Forall noDots pre ->
  parseLoop (map renderParam pre ++ ms) i len w acc
  = parseLoop ms (i + List.length pre) len (w || hasOptional pre) (acc ++ pre).
Proof.
  revert i w acc.
  induction pre as [|p pre IH]; intros i w acc Hrest Hord Hdots.
  - simpl. now rewrite app_nil_r, Nat.add_0_r, orb_false_r.
  - inversion Hrest as [|? ? Hp Hps]; subst.
    inversion Hdots as [|? ? Dp Dps]; subst.
    destruct Hord as [Hreq Hord]. unfold noDots in Dp.
    destruct p as [rest req nm]. simpl in Hp, Dp, Hreq, Hord. subst rest.
    cbn [map app parseLoop hasOptional existsb required]. destruct req.
    + rewrite (renderParam_required (mkParam false true nm) eq_refl).
      cbn [name]. rewrite (Hreq eq_refl) in *.
      rewrite !startsWith_head. cbn [Ascii.eqb Bool.eqb andb negb orb].
      rewrite (substr_inner "<" ">" nm), Dp.
      rewrite IH by assumption. cbn [List.length orb].
      rewrite <- app_assoc. f_equal. lia.
    + rewrite (renderParam_optional (mkParam false false nm) eq_refl).
      cbn [name]. rewrite !startsWith_head.
      cbn [Ascii.eqb Bool.eqb andb negb orb].
      rewrite (substr_inner "[" "]" nm), Dp.
      rewrite orb_true_r in Hord.
      rewrite IH by assumption. cbn [List.length].
      rewrite orb_true_r, <- app_assoc. f_equal. lia.
Qed.

Lemma parseLoop_rest_head (p : ChatCommandParameter) (more : list string)
      (i len : nat) (w : bool) (acc : list ChatCommandParameter) :
  (required p = true -> w = false) ->
  parseLoop (renderRest p :: more) i len w acc
  = if negb (i =? len - 1)%nat then TypeError "Rest parameter must be last."
    else parseLoop more (S i) len (w || negb (required p))
           (acc ++ [mkParam true (required p) (name p)]).
Proof.
  intros Hreq. destruct p as [rest req nm]. cbn [required name] in *.
  rewrite renderRest_as_param. cbn [required name parseLoop]. destruct req.
  - rewrite (renderParam_required (mkParam false true (nm +:+ "...")) eq_refl).
    cbn [name]. rewrite (Hreq eq_refl).
    rewrite !startsWith_head. cbn [Ascii.eqb Bool.eqb andb negb orb].
    rewrite (substr_inner "<" ">" (nm +:+ "...")), endsWith_app.
    now rewrite substr_without_dots.
  - rewrite (renderParam_optional (mkParam false false (nm +:+ "...")) eq_refl).
    cbn [name]. rewrite !startsWith_head.
    cbn [Ascii.eqb Bool.eqb andb negb orb].
    rewrite (substr_inner "[" "]" (nm +:+ "...")), endsWith_app.
    now rewrite substr_without_dots, orb_true_r.
Qed.

(** X12.  A rest parameter is accepted in the last position only.  For a
    usage made of a head without brackets, rendered parameters in order
    and then a parameter written with three dots: when nothing follows
    the dotted parameter, [parse] returns the command with that parameter
    as its rest parameter, the dots taken off its name; when another
    parameter follows, [parse] throws the TypeError [Rest parameter must
    be last.]. *)
Theorem parse_accepts_rest_parameter_last_only
        (head d : string) (pre : list ChatCommandParameter)
        (p : ChatCommandParameter) (post : list ChatCommandParameter) :
  noBracket head ->
  Js.truthy (Js.trim head) = true ->
  Js.includes "  " (Js.trim head) = false ->
  noRest pre -> Forall noDots pre -> Forall rendersBack pre ->
  ordered false pre ->
  (required p = true -> hasOptional pre = false) ->
  rendersBack p ->
  Forall rendersBack post ->
  let dotted := mkParam false (required p) (name p +:+ "...") in
  let usage :=
    head +:+ Js.join " " (map renderParam (pre ++ dotted :: post)) in
  Chat.parse usage d
  = match post with
    | [] => Ok (mkCommand (Js.trim head)
                  (pre ++ [mkParam true (required p) (name p)]) d)
    | _ :: _ => TypeError "Rest parameter must be last."
    end.
Proof.
  intros Hnb Ht Hsp Hrest Hdots Hback Hord Hreq Hp Hpost dotted usage.
  assert (Hdotted : rendersBack dotted).
  { unfold rendersBack in *. unfold dotted. cbn [required name].
    rewrite hasChar_app, Hp. now destruct (required p). }
  assert (Hall : Forall rendersBack (pre ++ dotted :: post)).
  { apply Forall_app. split; [exact Hback | now constructor]. }
  unfold usage, Chat.parse.
  rewrite matchCmdPrefix_render, matchParams_prefix by assumption.
  rewrite Ht, Hsp, matchParams_join by assumption. cbn [negb].
  rewrite map_app, parseLoop_app by assumption.
  cbn [map orb]. change (renderParam dotted) with (renderRest p).
  rewrite parseLoop_rest_head by exact Hreq.
  rewrite length_app, length_map. cbn [List.length Nat.add].
  rewrite length_map.
  destruct post as [|q post].
  - cbn [List.length map]. replace (List.length pre + 1 - 1)%nat
      with (List.length pre) by lia.
    rewrite Nat.eqb_refl. cbn [negb parseLoop]. now rewrite app_nil_l.
  - cbn [List.length].
    destruct (Nat.eqb_spec (List.length pre)
                (List.length pre + S (S (List.length post)) - 1)) as [E|_];
      [lia | reflexivity].
Qed.

Lemma parse_accepts_rest_parameter_last_only_witness :
  Chat.parse
    ("kick " +:+ Js.join " "
       (map renderParam
          ([mkParam false true "name"]
           ++ mkParam false false ("reason" +:+ "...") :: [])))
    "Kick."
  = Ok (mkCommand (Js.trim "kick ")
          ([mkParam false true "name"] ++ [mkParam true false "reason"])
          "Kick.").
Proof.
  apply (parse_accepts_rest_parameter_last_only "kick " "Kick."
           [mkParam false true "name"] (mkParam false false "reason") []);
    first [reflexivity | now split | discriminate | repeat constructor].
Defined.

(** ** The whole dispatch *)

Lemma substr_tail (c : ascii) (s : string) :
  Js.substr 1 (String.length (String c s) - 1) (String c s) = s.
Proof.
  unfold Js.substr. cbn [String.length].
  replace (S (String.length s) - 1)%nat with (String.length s) by lia.
  cbn [String.substring].
  pose proof (substring_0_app s EmptyString) as H.
  now rewrite app_empty_r in H.
Qed.

Lemma dropTrailingEmpty_truthy (ts : list string) :
  Forall (fun t => Js.truthy t = true) ts -> dropTrailingEmpty ts = ts.
Proof.
  induction ts as [|t ts IH]; intros H; [reflexivity |].
  inversion H as [|? ? Ht Hts]; subst. destruct ts as [|t' ts].
  - simpl. now rewrite Ht.
  - cbn [dropTrailingEmpty]. cbn [dropTrailingEmpty] in IH.
    now rewrite IH.
Qed.

(** X13.  A chat message that starts with a slash, followed by the name
    of a registered command and by arguments, all of them plain tokens
    that are not empty and separated by single spaces, reaches the
    callback of that command with exactly what [verify] returns for the
    arguments; when [verify] raises its usage error, that error is what
    the sender is replied with. *)
Theorem slash_message_reaches_the_command
        (commands : Commands) (commandName : string) (args : list string)
        (command : RegisteredChatCommand) :
  getCommand commands commandName = Some command ->
  Forall plainToken (commandName :: args) ->
  Forall (fun t => Js.truthy t = true) (commandName :: args) ->
  onPlayerChat commands ("/" +:+ Js.join " " (commandName :: args))
  = Some match verify command args with
         | Ok parsed => Ok (command, parsed)
         | TypeError m => TypeError m
         | CallError m => CallError m
         end.
Proof.
  intros Hget Hplain Htruthy. unfold onPlayerChat.
  rewrite app_String, app_empty_l, startsWith_head, Ascii.eqb_refl.
  rewrite substr_tail. unfold parseMessage.
  rewrite betterSplitOnSpaces_join, dropTrailingEmpty_truthy by assumption.
  inversion Htruthy as [|? ? Ht _]; subst. now rewrite Ht, Hget.
Qed.

Lemma slash_message_reaches_the_command_witness :
  onPlayerChat [("kick", kickCommand "Kick.")]
    ("/" +:+ Js.join " " ["kick"; "bob"; "afk"])
  = Some match verify (kickCommand "Kick.") ["bob"; "afk"] with
         | Ok parsed => Ok (kickCommand "Kick.", parsed)
         | TypeError m => TypeError m
         | CallError m => CallError m
         end.
Proof.
  apply (slash_message_reaches_the_command [("kick", kickCommand "Kick.")]
           "kick" ["bob"; "afk"] (kickCommand "Kick."));
    [reflexivity | repeat constructor | repeat constructor].
Defined.

(** * Properties of the worker *)

Import Net NetSpec NetScenario.

Local Open Scope Z_scope.

Section WorkerProperties.
Context (env : Env).

(** *** Reading and updating connection objects *)

Lemma the_Some (w : Worker) (cid : Z) (c : Connection) :
  objects w !! cid = Some c -> the w cid = c.
Proof. intros H. unfold the. now rewrite lookup_total_alt, H. Qed.

Lemma objects_modify (cid id : Z) (f : Connection -> Connection) (w : Worker) :
  objects (modify cid f w) !! id
  = if decide (cid = id) then f <$> objects w !! cid else objects w !! id.
Proof. unfold modify. simpl. apply lookup_alter. Qed.

Lemma the_modify_proj {A : Type} (proj : Connection -> A)
      (f : Connection -> Connection) (cid id : Z) (w : Worker) :
  (forall c, proj (f c) = proj c) ->
  proj (the (modify cid f w) id) = proj (the w id).
Proof.
  intros H. unfold the. rewrite !lookup_total_alt, objects_modify.
  destruct (decide (cid = id)) as [->|]; [|reflexivity].
  destruct (objects w !! id); simpl; [apply H | reflexivity].
Qed.

Lemma mget_mset_fresh {V : Type} (k : string) (v : V) (m : list (string * V)) :
  mget k m = None -> mset k v m = m ++ [(k, v)].
Proof.
  induction m as [|[k' v'] m IH]; simpl; [reflexivity |].
  destruct (decide (k' = k)); [discriminate |].
  intros H. now rewrite IH.
Qed.

Lemma mget_mdelete {V : Type} (k : string) (m : list (string * V)) :
  mget k (mdelete k m) = None.
Proof.
  induction m as [|[k' v'] m IH]; simpl; [reflexivity |].
  destruct (decide (k' = k)) as [|Hne]; [exact IH |].
  simpl. now destruct (decide (k' = k)).
Qed.

Lemma mget_mdelete_Some {V : Type} (k k' : string) (v : V)
      (m : list (string * V)) :
  mget k' (mdelete k m) = Some v -> mget k' m = Some v.
Proof.
  induction m as [|[k0 v0] m IH]; simpl; [discriminate |].
  destruct (decide (k0 = k)) as [->|Hne].
  - intros H. destruct (decide (k = k')) as [->|]; [|now apply IH].
    rewrite mget_mdelete in H. discriminate.
  - simpl. destruct (decide (k0 = k')); [trivial | apply IH].
Qed.

(** *** The deque of sent packets *)

Lemma tracked_nonce (packet : RootPacket) :
  tracked packet = true ->
  exists n, nonceOf packet = Some n /\ isAcknowledge packet = false.
Proof.
  unfold tracked. destruct (nonceOf packet) as [n|]; [|discriminate].
  intros H. exists n. split; [reflexivity |]. now apply negb_true_iff.
Qed.

Lemma deliver_lookup (now to : Z) (packet : RootPacket) (w : Worker)
      (cid : Z) (c : Connection) :
  objects w !! cid = Some c ->
  objects (deliver env now to packet w) !! cid
  = Some (if bool_decide (to = cid) && tracked packet
          then set_sentPackets
                 (take 8%nat (sentEntry env (now, to, packet) :: sentPackets c))
                 c
          else c).
Proof.
  intros Hc. unfold deliver, tracked, sentEntry, socketSend, emit.
  cbn [fst snd]. destruct (nonceOf packet) as [n|] eqn:Hn; simpl.
  - destruct (isAcknowledge packet); simpl.
    + now rewrite andb_false_r.
    + rewrite andb_true_r, lookup_alter.
      destruct (decide (to = cid)) as [->|Hne].
      * rewrite bool_decide_eq_true_2 by reflexivity. now rewrite Hc.
      * now rewrite bool_decide_eq_false_2.
  - now rewrite andb_false_r.
Qed.

Lemma take_app_take {A : Type} (n : nat) (l k : list A) :
  take n (l ++ take n k) = take n (l ++ k).
Proof.
  rewrite !take_app, take_take. f_equal. f_equal. lia.
Qed.

Lemma sendPacket_lookup (call : SendCall) (w : Worker) (cid : Z)
      (c : Connection) :
  objects w !! cid = Some c ->
  objects
    (default w
       (sendPacket env (fst (fst call)) (snd (fst call)) (snd call) w)) !! cid
  = Some (if records cid call
          then set_sentPackets
                 (take 8%nat (sentEntry env call :: sentPackets c)) c
          else c).
Proof.
  intros Hc. destruct call as [[now to] packet]. cbn [fst snd].
  unfold sendPacket, records. cbn [fst snd].
  destruct (writable packet); cbn [default from_option].
  - rewrite andb_true_r. now apply deliver_lookup.
  - now rewrite andb_false_r.
Qed.

Lemma newEntries_cons (cid : Z) (call : SendCall) (calls : list SendCall) :
  newEntries env cid (call :: calls)
  = newEntries env cid calls
    ++ (if records cid call then [sentEntry env call] else []).
Proof.
  unfold newEntries. simpl.
  destruct (records cid call); simpl; [reflexivity | now rewrite app_nil_r].
Qed.

Lemma sentEntry_not_ack (call : SendCall) :
  tracked (snd call) = true -> head (buffer (sentEntry env call)) <> Some 10.
Proof.
  intros H. apply tracked_nonce in H as [n [_ Hack]].
  unfold sentEntry, serialize. simpl.
  destruct (snd call); simpl in *; congruence.
Qed.

Lemma newEntries_not_ack (cid : Z) (calls : list SendCall) :
  Forall (fun s => head (buffer s) <> Some 10) (newEntries env cid calls).
Proof.
  induction calls as [|call calls IH]; [constructor |].
  rewrite newEntries_cons. apply Forall_app. split; [exact IH |].
  unfold records.
  destruct (bool_decide (snd (fst call) = cid)); simpl; [|constructor].
  destruct (tracked (snd call)) eqn:Ht; simpl; [|constructor].
  destruct (writable (snd call)); constructor; [|constructor].
  now apply sentEntry_not_ack.
Qed.

Lemma set_sentPackets_same (c : Connection) :
  set_sentPackets (sentPackets c) c = c.
Proof. now destruct c. Qed.

(** The deque of a connection after a sequence of calls. *)
Lemma sendAll_lookup (calls : list SendCall) (w : Worker) (cid : Z)
      (c : Connection) :
  objects w !! cid = Some c ->
  (List.length (sentPackets c) <= 8)%nat ->
  objects (sendAll env calls w) !! cid
  = Some (set_sentPackets
            (take 8%nat (newEntries env cid calls ++ sentPackets c)) c).
Proof.
  revert w c. induction calls as [|call calls IH]; intros w c Hc Hlen.
  - simpl. rewrite take_ge by lia. now rewrite set_sentPackets_same.
  - pose proof (sendPacket_lookup call w cid c Hc) as Hstep.
    change (sendAll env (call :: calls) w)
      with (sendAll env calls
              (default w
                 (sendPacket env (fst (fst call)) (snd (fst call)) (snd call)
                    w))).
    rewrite newEntries_cons.
    destruct (records cid call).
    + rewrite (IH _ _ Hstep) by (simpl; rewrite length_take; lia).
      cbn [sentPackets set_sentPackets].
      rewrite take_app_take, <- app_assoc. reflexivity.
    + rewrite (IH _ _ Hstep Hlen). now rewrite app_nil_r.
Qed.

(** C3.  Whatever packets [sendPacket] is called with, to whatever
    connections, the deque of a connection that held at most eight entries
    holds the entries of the nonce-carrying packets sent to it, the last
    sent first and in front of the older ones, cut to eight; it never
    exceeds eight entries; none of the new entries is an Acknowledge
    (whose tag is 10), and sending an Acknowledge sends its bytes and
    leaves the deque as it is.  A call with a nonce that does not fit in
    16 bits throws: it records nothing and sends nothing. *)
Theorem sentPackets_bounded_newest_first
        (calls : list SendCall) (w : Worker) (cid : Z) (c : Connection) :
  objects w !! cid = Some c ->
  (List.length (sentPackets c) <= 8)%nat ->
  exists c',
    objects (sendAll env calls w) !! cid = Some c'
    /\ sentPackets c' = take 8%nat (newEntries env cid calls ++ sentPackets c)
    /\ (List.length (sentPackets c') <= 8)%nat
    /\ Forall (fun s => head (buffer s) <> Some 10) (newEntries env cid calls)
    /\ (forall now n missing,
          0 <= n <= 65535 ->
          exists w',
            sendPacket env now cid (AcknowledgePacket n missing) w = Some w'
            /\ sentPackets (the w' cid) = sentPackets c
            /\ effects w'
               = effects w
                 ++ [SocketSend (rinfo c)
                       (serialize env (AcknowledgePacket n missing))])
    /\ (forall now to packet n,
          nonceOf packet = Some n -> n < 0 \/ 65535 < n ->
          sendPacket env now to packet w = None
          /\ sendAll env ((now, to, packet) :: calls) w = sendAll env calls w
          /\ newEntries env cid ((now, to, packet) :: calls)
             = newEntries env cid calls).
Proof.
  intros Hc Hlen.
  exists (set_sentPackets
            (take 8%nat (newEntries env cid calls ++ sentPackets c)) c).
  split; [now apply sendAll_lookup |]. split; [reflexivity |].
  split; [simpl; rewrite length_take; lia |].
  split; [apply newEntries_not_ack |]. split.
  - intros now n missing Hn. unfold sendPacket, writable. cbn [nonceOf].
    rewrite (proj2 (Z.leb_le 0 n)), (proj2 (Z.leb_le n 65535)) by lia.
    eexists. split; [reflexivity |]. split.
    + rewrite (the_Some _ _ _ (deliver_lookup now cid _ w cid c Hc)).
      now rewrite andb_false_r.
    + unfold deliver, socketSend, emit. cbn.
      now rewrite (the_Some _ _ _ Hc).
  - intros now to packet n Hnonce Hout.
    assert (Hw : writable packet = false).
    { unfold writable. rewrite Hnonce. apply andb_false_iff.
      destruct Hout; [left; apply Z.leb_gt | right; apply Z.leb_gt]; lia. }
    assert (Hs : sendPacket env now to packet w = None)
      by (unfold sendPacket; now rewrite Hw).
    split; [exact Hs |]. split.
    + change (sendAll env ((now, to, packet) :: calls) w)
        with (sendAll env calls
                (default w (sendPacket env now to packet w))).
      now rewrite Hs.
    + rewrite newEntries_cons. unfold records. cbn [fst snd].
      now rewrite Hw, andb_false_r, app_nil_r.
Qed.

(** *** Disconnecting *)

Lemma disconnect_effects (now cid : Z) (reason : Reason) (w : Worker) :
  effects (disconnect env now cid reason w)
  = effects w
    ++ [SocketSend (rinfo (the w cid)) (serialize env (DisconnectPacket reason));
        Log LogInfo "Remove %s"]
    ++ match room (the w cid) with
       | Some code => [EmitClientLeave cid code]
       | None => []
       end.
Proof.
  unfold disconnect, removeConnection, log, deliver, socketSend, emit.
  cbn [nonceOf].
  match goal with
  | |- context [room (the ?w0 cid)] =>
      change (room (the w0 cid))
        with (room (the (modify cid (set_sentDisconnect true) w) cid))
  end.
  rewrite (the_modify_proj room) by reflexivity.
  destruct (room (the w cid)); simpl; rewrite <- ?app_assoc; reflexivity.
Qed.

Lemma disconnect_connections (now cid : Z) (reason : Reason) (w : Worker) :
  connections (disconnect env now cid reason w)
  = mdelete (fmt (rinfo (the w cid))) (connections w).
Proof.
  unfold disconnect, removeConnection, log, deliver, socketSend, emit.
  cbn [nonceOf].
  match goal with
  | |- context [room (the ?w0 cid)] =>
      change (room (the w0 cid))
        with (room (the (modify cid (set_sentDisconnect true) w) cid))
  end.
  destruct (room (the (modify cid (set_sentDisconnect true) w) cid)); simpl;
    match goal with
    | |- context [rinfo (the ?w0 cid)] =>
        change (rinfo (the w0 cid))
          with (rinfo (the (modify cid (set_sentDisconnect true) w) cid))
    end;
    now rewrite (the_modify_proj rinfo).
Qed.

Lemma disconnect_lookup (now cid : Z) (reason : Reason) (w : Worker)
      (c : Connection) :
  objects w !! cid = Some c ->
  objects (disconnect env now cid reason w) !! cid
  = Some (set_sentDisconnect true c).
Proof.
  intros Hc.
  unfold disconnect, removeConnection, log, deliver, socketSend, emit.
  cbn [nonceOf].
  match goal with
  | |- context [room (the ?w0 cid)] => destruct (room (the w0 cid))
  end; simpl; rewrite lookup_alter_eq, Hc; reflexivity.
Qed.

Lemma abruptRemove_effects (cid : Z) (w : Worker) :
  effects (abruptRemove cid w)
  = effects w
    ++ [Log LogInfo "Remove %s"]
    ++ match room (the w cid) with
       | Some code => [EmitClientLeave cid code]
       | None => []
       end.
Proof.
  unfold abruptRemove, removeConnection, log, emit.
  change (room (the (with_effects ?a (with_connections ?b w)) cid))
    with (room (the w cid)).
  destruct (room (the w cid)); simpl; rewrite <- ?app_assoc; reflexivity.
Qed.

Lemma abruptRemove_connections (cid : Z) (w : Worker) :
  connections (abruptRemove cid w)
  = mdelete (fmt (rinfo (the w cid))) (connections w).
Proof.
  unfold abruptRemove, removeConnection, log, emit.
  change (room (the (with_effects ?a (with_connections ?b w)) cid))
    with (room (the w cid)).
  now destruct (room (the w cid)).
Qed.

Lemma abruptRemove_objects (cid : Z) (w : Worker) :
  objects (abruptRemove cid w) = objects w.
Proof.
  unfold abruptRemove, removeConnection, log, emit.
  change (room (the (with_effects ?a (with_connections ?b w)) cid))
    with (room (the w cid)).
  now destruct (room (the w cid)).
Qed.

(** *** Host-only messages *)


(** *** Datagrams from an endpoint without a connection *)

Lemma createConnection_spec (remote : RemoteInfo) (w : Worker) :
  mget (fmt remote) (connections w) = None ->
  let id := lastClientId w + 1 in
  exists w1,
    createConnection env remote w = (id, w1)
    /\ connections w1 = connections w ++ [(fmt remote, id)]
    /\ objects w1 = <[id := newConnection env remote id]> (objects w)
    /\ lastClientId w1 = id
    /\ effects w1 = effects w.
Proof.
  intros H. cbn zeta. eexists. split; [reflexivity |].
  simpl. now rewrite (mget_mset_fresh _ _ _ H).
Qed.

(** A datagram from an endpoint without a connection leaves the worker as
    it is when it decodes to a packet that is not a hello.  When it is a
    hello, a connection with the next client id and the nonce of the hello
    as its last-seen nonce is appended to the registry and the hello is
    handed to the listeners.  When it does not decode (it is malformed or
    its root tag is unknown), the [getOrCreateConnection] of the error path
    appends a connection with the next client id to the registry as
    well. *)
Lemma unknown_endpoint_registration
        (now : Z) (bytes : Buffer) (remote : RemoteInfo) (w : Worker) :
  mget (fmt remote) (connections w) = None ->
  let id := lastClientId w + 1 in
  let registered := connections w ++ [(fmt remote, id)] in
  match parse env bytes with
  | Parsed packet =>
      if isModdedHello packet then
        exists w1 c1,
          connections w1 = registered
          /\ objects w1 !! id = Some c1
          /\ rinfo c1 = remote /\ clientId c1 = id
          /\ Some (lastNonce c1) = nonceOf packet
          /\ handleMessage env now bytes remote w
             = emitDecoded env now id packet w1
      else handleMessage env now bytes remote w = w
  | Malformed | UnknownRoot =>
      connections (handleMessage env now bytes remote w) = registered
      /\ objects (handleMessage env now bytes remote w) !! id
         = Some (newConnection env remote id)
  end.
Proof.
  intros Hnone. cbn zeta.
  destruct (createConnection_spec remote w Hnone)
    as [w1 [Hcreate [Hconns [Hobjs [Hid Heff]]]]].
  unfold handleMessage, getOrCreateConnection. rewrite Hnone.
  destruct (parse env bytes) as [| |packet].
  - rewrite Hcreate. simpl. rewrite Hconns, Hobjs.
    split; [reflexivity | apply lookup_insert_eq].
  - rewrite Hcreate. simpl. rewrite Hconns, Hobjs.
    split; [reflexivity | apply lookup_insert_eq].
  - destruct packet as [| |n ? ? ? ?| | |];
      cbn [isModdedHello negb nonceOf]; try reflexivity.
    rewrite Hcreate.
    eexists _, (set_lastNonce n (newConnection env remote _)).
    split; [|split; [|split; [|split; [|split]]]];
      [| | | | | reflexivity]; simpl; try reflexivity.
    + exact Hconns.
    + rewrite lookup_alter_eq, Hobjs, lookup_insert_eq. reflexivity.
Qed.

(** *** The reliability ticker *)

Lemma resendLoop_spec (now : Z) (remote : RemoteInfo) (sent : list SentPacket) :
  resendLoop now remote sent
  = (map (refresh now) sent,
     map (fun s => SocketSend remote (buffer s)) (List.filter (due now) sent)).
Proof.
  induction sent as [|s rest IH]; [reflexivity |].
  simpl. rewrite IH. unfold refresh, due.
  destruct (negb (acked s) && (500 <? now - sentAt s)); reflexivity.
Qed.

(** One turn of the ticker, on the connection it visits. *)
Lemma tickConnection_spec (now cid : Z) (w : Worker) (c : Connection) :
  objects w !! cid = Some c ->
  let w' := tickConnection env now cid w in
  objects w' !! cid = Some (tickedObject env now c)
  /\ connections w'
     = (if presumedDead c then mdelete (fmt (rinfo c)) (connections w)
        else connections w)
  /\ effects w' = effects w ++ tickedEffects env now cid c.
Proof.
  intros Hc. cbn zeta.
  unfold tickConnection, tickedObject, tickedEffects, presumedDead,
    connectionSendPacket.
  rewrite (the_Some _ _ _ Hc).
  destruct ((List.length (sentPackets c) =? 8)%nat
            && forallb (fun packet => negb (acked packet)) (sentPackets c)).
  - rewrite abruptRemove_connections, abruptRemove_effects,
      abruptRemove_objects.
    change (the (log _ _ w) cid) with (the w cid).
    rewrite (the_Some _ _ _ Hc).
    split; [exact Hc |]. split; [reflexivity |].
    unfold log, emit. simpl. now rewrite <- app_assoc.
  - unfold getNextNonce.
    set (w1 := modify cid (fun c0 => set_nonce (nextNonce env c0) c0) w).
    assert (Hc1 : objects w1 !! cid = Some (set_nonce (nextNonce env c) c)).
    { unfold w1. now rewrite objects_modify, decide_True, Hc. }
    rewrite (the_Some _ _ _ Hc1). cbn [nonce set_nonce].
    set (ping := PingPacket (nextNonce env c)).
    pose proof (deliver_lookup now cid ping w1 cid _ Hc1) as Hc2.
    rewrite bool_decide_eq_true_2 in Hc2 by reflexivity.
    change (tracked ping) with true in Hc2. cbn [andb] in Hc2.
    rewrite (the_Some _ _ _ Hc2).
    cbn [rinfo sentPackets set_sentPackets set_nonce].
    rewrite resendLoop_spec.
    change (take 8%nat (sentEntry env (now, cid, ping) :: sentPackets c))
      with (withPing env now c) in *.
    split.
    { change (objects (with_effects ?a ?b)) with (objects b).
      rewrite objects_modify, decide_True, Hc2 by reflexivity. reflexivity. }
    split; [reflexivity |].
    assert (Heff : effects (deliver env now cid ping w1)
                   = effects w ++ [SocketSend (rinfo c) (serialize env ping)]).
    { unfold deliver, socketSend, emit. simpl.
      f_equal. f_equal. f_equal.
      match goal with
      | |- rinfo (the ?w0 cid) = _ =>
          change (rinfo (the w0 cid))
            with (rinfo (the (modify cid
                                (fun c0 =>
                                   set_sentPackets
                                     (take 8%nat
                                        (mkSentPacket (nextNonce env c)
                                           (serialize env ping) now false
                                         :: sentPackets c0)) c0) w1) cid))
      end.
      rewrite (the_modify_proj rinfo) by reflexivity.
      now rewrite (the_Some _ _ _ Hc1). }
    change (effects (with_effects ?a ?b)) with a.
    rewrite Heff, <- app_assoc. reflexivity.
Qed.

(** A turn of the ticker writes to the connection it visits only. *)
Lemma tickConnection_other (now cid id : Z) (w : Worker) :
  cid <> id ->
  objects (tickConnection env now cid w) !! id = objects w !! id.
Proof.
  intros Hne. unfold tickConnection.
  match goal with |- context [if ?b then _ else _] => destruct b end.
  - now rewrite abruptRemove_objects.
  - unfold getNextNonce, connectionSendPacket, deliver, socketSend.
    cbn [nonceOf isAcknowledge].
    match goal with
    | |- context [resendLoop ?a ?b ?l] => destruct (resendLoop a b l)
    end.
    simpl. now rewrite !lookup_alter_ne.
Qed.

Lemma tickConnection_connections (now cid : Z) (w : Worker) :
  connections (tickConnection env now cid w) = connections w
  \/ connections (tickConnection env now cid w)
     = mdelete (fmt (rinfo (the w cid))) (connections w).
Proof.
  unfold tickConnection.
  match goal with |- context [if ?b then _ else _] => destruct b end.
  - right. now rewrite abruptRemove_connections.
  - left. unfold getNextNonce.
    match goal with
    | |- context [resendLoop ?a ?b ?l] => destruct (resendLoop a b l)
    end.
    reflexivity.
Qed.

Lemma tickConnection_effects (now cid : Z) (w : Worker) :
  exists es, effects (tickConnection env now cid w) = effects w ++ es.
Proof.
  unfold tickConnection.
  match goal with |- context [if ?b then _ else _] => destruct b end.
  - rewrite abruptRemove_effects. unfold log, emit. simpl.
    eexists. rewrite <- app_assoc. reflexivity.
  - unfold getNextNonce, connectionSendPacket, deliver, socketSend, emit.
    cbn [nonceOf isAcknowledge].
    match goal with
    | |- context [resendLoop ?a ?b ?l] => destruct (resendLoop a b l)
    end.
    simpl. eexists. rewrite <- app_assoc. reflexivity.
Qed.

Lemma tickConnection_rinfo (now cid id : Z) (w : Worker) :
  rinfo (the (tickConnection env now cid w) id) = rinfo (the w id).
Proof.
  destruct (decide (cid = id)) as [->|Hne].
  - unfold the. rewrite !lookup_total_alt.
    destruct (objects w !! id) as [c|] eqn:Hc.
    + destruct (tickConnection_spec now id w c Hc) as [H _]. rewrite H.
      unfold tickedObject. now destruct (presumedDead c).
    + assert (H : objects (tickConnection env now id w) !! id = None).
      { unfold tickConnection.
        match goal with |- context [if ?b then _ else _] => destruct b end.
        - now rewrite abruptRemove_objects.
        - unfold getNextNonce, connectionSendPacket, deliver, socketSend.
          cbn [nonceOf isAcknowledge].
          match goal with
          | |- context [resendLoop ?a ?b ?l] => destruct (resendLoop a b l)
          end.
          simpl. now rewrite !lookup_alter_eq, Hc. }
      now rewrite H.
  - unfold the. now rewrite !lookup_total_alt, tickConnection_other.
Qed.

Lemma mget_mdelete_ne {V : Type} (k k' : string) (m : list (string * V)) :
  k <> k' -> mget k' (mdelete k m) = mget k' m.
Proof.
  intros Hne. induction m as [|[k0 v0] m IH]; simpl; [reflexivity |].
  destruct (decide (k0 = k)) as [->|].
  - now rewrite decide_False.
  - simpl. now rewrite IH.
Qed.

Lemma mget_split {V : Type} (k : string) (v : V) (m : list (string * V)) :
  mget k m = Some v ->
  exists l1 l2, m = l1 ++ (k, v) :: l2 /\ Forall (fun e => fst e <> k) l1.
Proof.
  induction m as [|[k0 v0] m IH]; simpl; [discriminate |].
  destruct (decide (k0 = k)) as [->|Hne].
  - intros [= ->]. now exists [], m.
  - intros H. destruct (IH H) as [l1 [l2 [-> Hl1]]].
    exists ((k0, v0) :: l1), l2. split; [reflexivity |].
    constructor; assumption.
Qed.

(** The step of the loop of the ticker over the registry. *)
Lemma tick_unfold (now : Z) (w : Worker) :
  tick env now w
  = fold_left
      (fun w0 (entry : string * Z) =>
         match mget (fst entry) (connections w0) with
         | Some cid => tickConnection env now cid w0
         | None => w0
         end)
      (connections w) w.
Proof. reflexivity. Qed.

Lemma deliver_effects (now cid : Z) (packet : RootPacket) (w : Worker) :
  effects (deliver env now cid packet w)
  = effects w ++ [SocketSend (rinfo (the w cid)) (serialize env packet)].
Proof.
  unfold deliver, socketSend, emit.
  destruct (nonceOf packet); [destruct (isAcknowledge packet) |];
    try reflexivity.
  cbn [effects with_effects]. f_equal. f_equal. f_equal.
  now rewrite (the_modify_proj rinfo).
Qed.

Lemma deliver_rinfo (now cid id : Z) (packet : RootPacket) (w : Worker) :
  rinfo (the (deliver env now cid packet w) id) = rinfo (the w id).
Proof.
  unfold deliver, socketSend, emit.
  destruct (nonceOf packet); [destruct (isAcknowledge packet) |];
    try reflexivity.
  change (the (with_effects ?a ?b) id) with (the b id).
  now rewrite (the_modify_proj rinfo).
Qed.

(** What goes out on the socket in a turn of the ticker goes to the
    endpoint of the connection that has the turn. *)
Lemma tickConnection_sends (now cid : Z) (w : Worker) :
  exists es,
    effects (tickConnection env now cid w) = effects w ++ es
    /\ forall r, r <> rinfo (the w cid) -> List.filter (sentTo r) es = [].
Proof.
  unfold tickConnection.
  match goal with |- context [if ?b then _ else _] => destruct b end.
  - rewrite abruptRemove_effects. unfold log, emit. cbn [effects with_effects].
    eexists. rewrite <- app_assoc. split; [reflexivity |].
    intros r _. match goal with |- context [match ?x with _ => _ end] =>
      destruct x end; reflexivity.
  - unfold getNextNonce, connectionSendPacket. cbn zeta beta iota.
    rewrite resendLoop_spec. cbn [effects with_effects].
    rewrite deliver_effects, deliver_rinfo, !(the_modify_proj rinfo)
      by reflexivity.
    eexists. rewrite <- app_assoc. split; [reflexivity |].
    intros r Hr. cbn [app List.filter sentTo].
    rewrite bool_decide_eq_false_2 by congruence.
    match goal with |- context [List.filter (due now) ?l] =>
      induction (List.filter (due now) l) as [|s l' IH] end;
      [reflexivity |].
    cbn [map List.filter sentTo].
    now rewrite bool_decide_eq_false_2 by congruence.
Qed.

(** The turns for the other keys leave a connection and its registry
    entry as they are, and send nothing to its endpoint. *)
Lemma tick_fold_other (now : Z) (w0 : Worker) (k : string) (cid : Z)
      (entries : list (string * Z)) (w : Worker) :
  registryOk w0 ->
  mget k (connections w0) = Some cid ->
  (forall k' v, mget k' (connections w) = Some v ->
                mget k' (connections w0) = Some v) ->
  (forall id, rinfo (the w id) = rinfo (the w0 id)) ->
  Forall (fun e => fst e <> k) entries ->
  let w' :=
    fold_left
      (fun w1 (entry : string * Z) =>
         match mget (fst entry) (connections w1) with
         | Some cid' => tickConnection env now cid' w1
         | None => w1
         end)
      entries w in
  (forall k' v, mget k' (connections w') = Some v ->
                mget k' (connections w0) = Some v)
  /\ (forall id, rinfo (the w' id) = rinfo (the w0 id))
  /\ objects w' !! cid = objects w !! cid
  /\ mget k (connections w') = mget k (connections w)
  /\ exists es,
      effects w' = effects w ++ es
      /\ List.filter (sentTo (rinfo (the w0 cid))) es = [].
Proof.
  intros [Hnodup Hkey] Hreg. revert w.
  induction entries as [|[k' v'] more IH]; intros w Hshrink Hrinfo Hother.
  - cbn zeta. simpl. repeat split; try assumption.
    exists []. now rewrite app_nil_r.
  - inversion Hother as [|? ? Hk' Hmore]; subst. cbn [fst] in Hk'.
    cbn zeta. cbn [fold_left fst].
    destruct (mget k' (connections w)) as [cid'|] eqn:Hlive;
      [|now apply IH].
    pose proof (Hshrink _ _ Hlive) as Hlive0.
    assert (Hcid : cid' <> cid).
    { intros ->. apply Hk'. rewrite <- (Hkey _ _ Hlive0). now apply Hkey. }
    assert (Hfmt : fmt (rinfo (the w cid')) = k').
    { rewrite Hrinfo. now apply Hkey. }
    set (w1 := tickConnection env now cid' w).
    assert (Hshrink1 : forall k0 v, mget k0 (connections w1) = Some v ->
                                    mget k0 (connections w0) = Some v).
    { intros k0 v H. apply Hshrink.
      destruct (tickConnection_connections now cid' w) as [E | E];
        fold w1 in E; rewrite E in H; [exact H |].
      now apply mget_mdelete_Some in H. }
    assert (Hrinfo1 : forall id, rinfo (the w1 id) = rinfo (the w0 id)).
    { intros id. unfold w1. now rewrite tickConnection_rinfo. }
    destruct (IH w1 Hshrink1 Hrinfo1 Hmore)
      as [H1 [H2 [H3 [H4 [es [H5 H6]]]]]].
    split; [exact H1 |]. split; [exact H2 |]. split; [|split].
    + rewrite H3. unfold w1. now apply tickConnection_other.
    + rewrite H4.
      destruct (tickConnection_connections now cid' w) as [E | E];
        fold w1 in E; rewrite E; [reflexivity |].
      rewrite Hfmt. now apply mget_mdelete_ne.
    + destruct (tickConnection_sends now cid' w) as [es1 [Hes1 Hnone]].
      fold w1 in Hes1. exists (es1 ++ es). split.
      * now rewrite H5, Hes1, <- app_assoc.
      * rewrite List.filter_app, H6, Hnone; [reflexivity |].
        intros Heq. apply Hk'. rewrite <- Hfmt, <- Heq.
        now apply Hkey.
Qed.

Lemma filter_sentTo_same (remote : RemoteInfo) (bytes : list Buffer) :
  List.filter (sentTo remote) (map (SocketSend remote) bytes)
  = map (SocketSend remote) bytes.
Proof.
  induction bytes as [|b bytes IH]; [reflexivity |].
  cbn [map List.filter sentTo]. rewrite bool_decide_eq_true_2 by reflexivity.
  now rewrite IH.
Qed.

(** C2, as amended.  On a tick, every registered connection has its turn.
    A connection whose deque does not hold eight unacknowledged packets
    (and whose nonce counter is within the 16 bits of a nonce) gets a ping
    with its next nonce, which is recorded at the head of the deque (cut
    to eight); then every entry of that deque that is not acknowledged and
    older than 500 ms is sent again with the bytes it holds, and its
    [sentAt] is set to the current time; these are all the datagrams of
    the tick for its endpoint, and the connection stays registered.  A
    connection whose deque holds eight packets none of which is
    acknowledged is reported as presumed dead and leaves the registry; its
    nonce counter and its deque are left as they are, and no ping and
    none of its packets goes to its endpoint during the tick. *)
Theorem tick_retransmits_or_disconnects
        (now : Z) (w : Worker) (k : string) (cid : Z) (c : Connection) :
  registryOk w ->
  mget k (connections w) = Some cid ->
  objects w !! cid = Some c ->
  let w' := tick env now w in
  exists es,
    effects w' = effects w ++ es
    /\ if presumedDead c then
         mget k (connections w') = None
         /\ (exists c', objects w' !! cid = Some c'
                        /\ sentPackets c' = sentPackets c
                        /\ nonce c' = nonce c)
         /\ In presumedDeadWarning es
         /\ (forall n, ~ In (SocketSend (rinfo c)
                               (serialize env (PingPacket n))) es)
         /\ (forall s, In s (sentPackets c) ->
                       ~ In (SocketSend (rinfo c) (buffer s)) es)
       else
         0 <= nonce c < 65535 ->
         nextNonce env c = nonce c + 1
         /\ objects w' !! cid
            = Some (set_sentPackets (map (refresh now) (withPing env now c))
                      (set_nonce (nonce c + 1) c))
         /\ mget k (connections w') = Some cid
         /\ List.filter (sentTo (rinfo c)) es
            = SocketSend (rinfo c) (serialize env (PingPacket (nonce c + 1)))
              :: map (fun s => SocketSend (rinfo c) (buffer s))
                   (List.filter (due now) (withPing env now c))
         /\ forall s,
             In s (withPing env now c) -> due now s = true ->
             In (SocketSend (rinfo c) (buffer s)) es
             /\ In (mkSentPacket (sentNonce s) (buffer s) now false)
                   (map (refresh now) (withPing env now c)).
Proof.
  intros Hok Hreg Hc. cbn zeta. rewrite tick_unfold.
  destruct (mget_split _ _ _ Hreg) as [l1 [l2 [Hsplit Hl1]]].
  assert (Hl2 : Forall (fun e : string * Z => fst e <> k) l2).
  { destruct Hok as [Hnodup _]. rewrite Hsplit, map_app in Hnodup.
    apply NoDup_app in Hnodup as [_ [_ Hnodup]].
    simpl in Hnodup. inversion Hnodup as [|? ? Hnotin _]; subst.
    apply Forall_forall. intros e He Heq. apply Hnotin.
    apply list_elem_of_In, in_map_iff. exists e.
    split; [exact Heq | now apply list_elem_of_In]. }
  rewrite Hsplit, fold_left_app. cbn [fold_left fst].
  destruct (tick_fold_other now w k cid l1 w Hok Hreg
              ltac:(auto) ltac:(auto) Hl1)
    as [Hshrink1 [Hrinfo1 [Hobj1 [Hkey1 [before [Heff1 Hnone1]]]]]].
  set (w1 := fold_left _ l1 w) in *.
  rewrite Hkey1, Hreg. rewrite Hc in Hobj1.
  destruct (tickConnection_spec now cid w1 c Hobj1) as [Hobj2 [Hconn2 Heff2]].
  set (w2 := tickConnection env now cid w1) in *.
  assert (Hk : fmt (rinfo c) = k).
  { destruct Hok as [_ Hkey]. rewrite <- (Hkey _ _ Hreg).
    now rewrite (the_Some _ _ _ Hc). }
  assert (Hshrink2 : forall k0 v, mget k0 (connections w2) = Some v ->
                                  mget k0 (connections w) = Some v).
  { intros k0 v H. apply Hshrink1. rewrite Hconn2 in H.
    destruct (presumedDead c); [now apply mget_mdelete_Some in H | exact H]. }
  assert (Hrinfo2 : forall id, rinfo (the w2 id) = rinfo (the w id)).
  { intros id. unfold w2. now rewrite tickConnection_rinfo. }
  destruct (tick_fold_other now w k cid l2 w2 Hok Hreg Hshrink2 Hrinfo2 Hl2)
    as [_ [_ [Hobj3 [Hkey3 [after [Heff3 Hnone3]]]]]].
  rewrite (the_Some _ _ _ Hc) in Hnone1, Hnone3.
  exists (before ++ tickedEffects env now cid c ++ after). split.
  { now rewrite Heff3, Heff2, Heff1, <- !app_assoc. }
  assert (Hfilter : List.filter (sentTo (rinfo c))
                      (before ++ tickedEffects env now cid c ++ after)
                    = List.filter (sentTo (rinfo c))
                        (tickedEffects env now cid c)).
  { now rewrite !List.filter_app, Hnone1, Hnone3, app_nil_r. }
  assert (Hsent : forall bytes,
             In (SocketSend (rinfo c) bytes)
                (before ++ tickedEffects env now cid c ++ after) ->
             In (SocketSend (rinfo c) bytes)
                (List.filter (sentTo (rinfo c))
                   (tickedEffects env now cid c))).
  { intros bytes Hin. rewrite <- Hfilter. apply List.filter_In.
    split; [exact Hin |]. cbn. now apply bool_decide_eq_true_2. }
  rewrite Hobj3, Hobj2, Hkey3, Hconn2.
  unfold tickedObject, tickedEffects in *.
  destruct (presumedDead c).
  - rewrite Hk, mget_mdelete.
    split; [reflexivity |]. split; [now exists c |]. split.
    { apply in_or_app. right. now left. }
    assert (Hnothing : List.filter (sentTo (rinfo c))
                         ([Log LogWarn
                             "%s failed to acknowledge any of the last 8 reliable packets sent, presumed dead";
                           Log LogInfo "Remove %s"]
                          ++ match room c with
                             | Some code => [EmitClientLeave cid code]
                             | None => []
                             end) = [])
      by (destruct (room c); reflexivity).
    rewrite Hnothing in Hsent.
    split; [intros n Hin | intros s _ Hin]; exact (Hsent _ Hin).
  - intros Hnonce. rewrite Hkey1, Hreg.
    assert (Hnext : nextNonce env c = nonce c + 1).
    { unfold nextNonce. now rewrite (proj2 (Z.ltb_lt _ _)) by lia. }
    split; [exact Hnext |].
    split; [now rewrite Hnext |]. split; [reflexivity |].
    assert (Hall : List.filter (sentTo (rinfo c)) (tickDatagrams env now c)
                   = tickDatagrams env now c).
    { unfold tickDatagrams, pingOf. rewrite <- map_map.
      change (SocketSend (rinfo c)
                (serialize env (PingPacket (nextNonce env c)))
              :: map (SocketSend (rinfo c))
                   (map buffer (List.filter (due now) (withPing env now c))))
        with (map (SocketSend (rinfo c))
                (serialize env (PingPacket (nextNonce env c))
                 :: map buffer (List.filter (due now) (withPing env now c)))).
      apply filter_sentTo_same. }
    split; [rewrite Hfilter; etransitivity; [exact Hall |];
            unfold tickDatagrams, pingOf; now rewrite Hnext |].
    intros s Hin Hdue. split.
    + rewrite !in_app_iff. right. left. right.
      apply in_map_iff. exists s. split; [reflexivity |].
      apply List.filter_In. now split.
    + apply in_map_iff. exists s. split; [|exact Hin].
      unfold refresh. rewrite Hdue.
      unfold due in Hdue. apply andb_true_iff in Hdue as [Hack _].
      apply negb_true_iff in Hack. now rewrite Hack.
Qed.

End WorkerProperties.

(** *** What the listeners leave alone

    No listener writes [lastNonce], hands out a client id or adds an entry
    to the registry: only [handleMessage] does. *)

Section Frame.
Context (env : Env).

Lemma keeps_refl (w : Worker) : keeps w w.
Proof. repeat split; auto. Qed.

Lemma keeps_emit (w0 : Worker) (e : Effect) (w : Worker) :
  keeps w0 w -> keeps w0 (emit e w).
Proof. intros H. exact H. Qed.

Lemma keeps_log (w0 : Worker) (level : LogLevel) (message : string)
      (w : Worker) :
  keeps w0 w -> keeps w0 (log level message w).
Proof. intros H. exact H. Qed.

Lemma keeps_modify (w0 : Worker) (cid : Z) (f : Connection -> Connection)
      (w : Worker) :
  (forall c, lastNonce (f c) = lastNonce c) ->
  keeps w0 w -> keeps w0 (modify cid f w).
Proof.
  intros Hf [Hid [Hn Hreg]]. split; [exact Hid |]. split; [|exact Hreg].
  intros id. rewrite <- Hn. unfold lastNonceOf.
  rewrite objects_modify. destruct (decide (cid = id)) as [->|]; [|reflexivity].
  destruct (objects w !! id); simpl; [now rewrite Hf | reflexivity].
Qed.

Lemma keeps_removeConnection (w0 : Worker) (cid : Z) (w : Worker) :
  keeps w0 w -> keeps w0 (removeConnection cid w).
Proof.
  intros [Hid [Hn Hreg]]. split; [exact Hid |]. split; [exact Hn |].
  intros k v H. apply Hreg. simpl in H. now apply mget_mdelete_Some in H.
Qed.

Lemma keeps_deliver (w0 : Worker) (now cid : Z) (packet : RootPacket)
      (w : Worker) :
  keeps w0 w -> keeps w0 (deliver env now cid packet w).
Proof.
  intros H. unfold deliver, socketSend.
  destruct (nonceOf packet); [destruct (isAcknowledge packet) |];
    repeat apply keeps_emit; try assumption.
  now apply keeps_modify.
Qed.

Lemma keeps_disconnect (w0 : Worker) (now cid : Z) (reason : Reason)
      (w : Worker) :
  keeps w0 w -> keeps w0 (disconnect env now cid reason w).
Proof.
  intros H. unfold disconnect.
  assert (H3 : keeps w0
                 (removeConnection cid
                    (modify cid (set_sentDisconnect true)
                       (deliver env now cid (DisconnectPacket reason) w)))).
  { apply keeps_removeConnection, keeps_modify; [reflexivity |].
    now apply keeps_deliver. }
  match goal with |- keeps _ (match ?x with _ => _ end) => destruct x end;
    [apply keeps_emit |]; exact H3.
Qed.

Lemma keeps_joinError (w0 : Worker) (cid : Z) (reason : Reason) (w : Worker) :
  keeps w0 w -> keeps w0 (joinError cid reason w).
Proof. intros H. exact H. Qed.

Lemma keeps_getNextNonce (w0 : Worker) (cid : Z) (w : Worker) :
  keeps w0 w -> keeps w0 (snd (getNextNonce env cid w)).
Proof. intros H. simpl. now apply keeps_modify. Qed.

Create HintDb keeps.
#[local] Hint Resolve keeps_emit keeps_log keeps_deliver keeps_disconnect
     keeps_joinError keeps_removeConnection keeps_getNextNonce : keeps.

(** Case analysis on whatever the goal branches on, then the lemmas
    above. *)
Ltac keeps_cases :=
  repeat match goal with
         | |- keeps _ (if ?b then _ else _) => destruct b
         | |- keeps _ (match ?x with _ => _ end) => destruct x
         | |- keeps _ (snd (if ?b then _ else _)) => destruct b
         | |- keeps _ (snd (match ?x with _ => _ end)) => destruct x
         | |- keeps _ (snd (_, _)) => cbn [snd]
         end.

Ltac keeps_solve :=
  keeps_cases;
  repeat first
         [ assumption
         | apply keeps_modify; [intros; reflexivity |]
         | progress eauto 10 with keeps ].

Lemma keeps_onNonced (w0 : Worker) (now cid nonce : Z) (w : Worker) :
  keeps w0 w -> keeps w0 (onNonced env now cid nonce w).
Proof. intros H. unfold onNonced. keeps_solve. Qed.

Lemma keeps_sendPluginChunks (w0 : Worker) (now cid i : Z)
      (chunks : list (list (string * string))) (w : Worker) :
  keeps w0 w -> keeps w0 (sendPluginChunks env now cid i chunks w).
Proof.
  revert i w. induction chunks as [|chunk more IH]; intros i w H; [exact H |].
  simpl. apply IH. keeps_solve.
Qed.

Lemma keeps_onModdedHello (w0 : Worker) (now cid clientver : Z)
      (uname : string) (lang : Z) (modcount : option Z) (w : Worker) :
  keeps w0 w ->
  keeps w0 (onModdedHello env now cid clientver uname lang modcount w).
Proof.
  intros H. unfold onModdedHello.
  set (w1 := modify cid _ w).
  assert (H1 : keeps w0 w1).
  { apply keeps_modify; [|exact H]. intros c. now destruct modcount. }
  clearbody w1. unfold getNextNonce. cbn zeta beta iota.
  keeps_cases; try apply keeps_emit; try apply keeps_sendPluginChunks;
    keeps_solve.
Qed.

Lemma keeps_onModDeclaration (w0 : Worker) (cid declNetId : Z)
      (declared : ReactorMod) (w : Worker) :
  keeps w0 w -> keeps w0 (onModDeclaration cid declNetId declared w).
Proof. intros H. unfold onModDeclaration. cbn zeta. keeps_solve. Qed.

Lemma keeps_onDisconnect (w0 : Worker) (now cid : Z) (w : Worker) :
  keeps w0 w -> keeps w0 (onDisconnect env now cid w).
Proof.
  intros H. unfold onDisconnect. cbn zeta. apply keeps_removeConnection.
  keeps_solve.
Qed.

Lemma keeps_onAcknowledge (w0 : Worker) (now cid nonce : Z) (w : Worker) :
  keeps w0 w -> keeps w0 (onAcknowledge now cid nonce w).
Proof.
  intros H. unfold onAcknowledge. apply keeps_modify; [|exact H].
  intros c. now destruct (markAcked now nonce (sentPackets c)) as [[? ?]|].
Qed.

Lemma keeps_checkConfigEntries (w0 : Worker) (now cid : Z)
      (entries : list (string * ModConfig)) (w : Worker) :
  keeps w0 w -> keeps w0 (snd (checkConfigEntries env now cid entries w)).
Proof.
  revert w. induction entries as [|[entryId modConfig] more IH]; intros w H;
    [exact H |].
  cbn [checkConfigEntries].
  keeps_cases; try apply IH; keeps_solve.
Qed.

Lemma keeps_checkClientMods (w0 : Worker) (now cid : Z) (w : Worker) :
  keeps w0 w -> keeps w0 (snd (checkClientMods env now cid w)).
Proof.
  intros H. unfold checkClientMods. cbn zeta.
  destruct (negb (usingReactor (the w cid))); [exact H |].
  destruct (msize (mods (the w cid)) <? numMods (the w cid));
    [cbn [snd]; keeps_solve |].
  destruct (reactor env) as [| |o]; [cbn [snd]; keeps_solve | exact H |].
  pose proof (keeps_checkConfigEntries w0 now cid (modsConfig o) w H) as H1.
  destruct (checkConfigEntries env now cid (modsConfig o) w) as [[r|] w1];
    cbn [snd] in H1 |- *; [exact H1 |].
  keeps_solve.
Qed.

Lemma keeps_onJoinGame (w0 : Worker) (now cid code : Z) (w : Worker) :
  keeps w0 w -> keeps w0 (onJoinGame env now cid code w).
Proof.
  intros H. unfold onJoinGame.
  destruct (room (the w cid)); [exact H |].
  pose proof (keeps_checkClientMods w0 now cid w H) as H1.
  destruct (checkClientMods env now cid w) as [r w1]. cbn [snd] in H1.
  destruct r as [[|]|]; try exact H1.
  destruct (beforeJoin env cid code (option_map roomCode (mget code (rooms w1))))
    as [canceled alteredCode].
  keeps_solve.
Qed.

Lemma keeps_onHostOnly (w0 : Worker) (now cid : Z)
      (message rebroadcast : ChildMessage) (w : Worker) :
  keeps w0 w -> keeps w0 (onHostOnly env now cid message rebroadcast w).
Proof.
  intros H. unfold onHostOnly.
  destruct (getPlayer w cid) as [[r ishost]|]; keeps_solve.
Qed.

Lemma keeps_onKickPlayer (w0 : Worker) (now cid : Z) (w : Worker) :
  keeps w0 w -> keeps w0 (onKickPlayer env now cid w).
Proof.
  intros H. unfold onKickPlayer.
  destruct (getPlayer w cid) as [[r ishost]|]; keeps_solve.
Qed.

Lemma keeps_emitChild (w0 : Worker) (now cid : Z) (message : ChildMessage)
      (w : Worker) :
  keeps w0 w -> keeps w0 (emitChild env now cid message w).
Proof.
  intros H. unfold emitChild.
  destruct message as [| | | | |[|]|];
    first [ apply keeps_onJoinGame | apply keeps_onHostOnly
          | apply keeps_onKickPlayer | apply keeps_onModDeclaration
          | idtac ];
    now apply keeps_emit.
Qed.

Lemma keeps_emitChildren (w0 : Worker) (now cid : Z)
      (children : list ChildMessage) (w : Worker) :
  keeps w0 w -> keeps w0 (emitChildren env now cid children w).
Proof.
  revert w. induction children as [|m more IH]; intros w H; [exact H |].
  simpl. apply IH. now apply keeps_emitChild.
Qed.

Lemma keeps_emitDecoded (w0 : Worker) (now cid : Z) (packet : RootPacket)
      (w : Worker) :
  keeps w0 w -> keeps w0 (emitDecoded env now cid packet w).
Proof.
  intros H. unfold emitDecoded. destruct packet.
  - now apply keeps_emitChildren.
  - now apply keeps_onNonced, keeps_emitChildren.
  - now apply keeps_onModdedHello, keeps_onNonced.
  - now apply keeps_onDisconnect.
  - now apply keeps_onAcknowledge.
  - now apply keeps_onNonced.
Qed.

Lemma keeps_abruptRemove (w0 : Worker) (cid : Z) (w : Worker) :
  keeps w0 w -> keeps w0 (abruptRemove cid w).
Proof.
  intros H. unfold abruptRemove.
  match goal with |- keeps _ (match ?x with _ => _ end) => destruct x end;
    [apply keeps_emit |]; now apply keeps_removeConnection.
Qed.

Lemma keeps_tickConnection (w0 : Worker) (now cid : Z) (w : Worker) :
  keeps w0 w -> keeps w0 (tickConnection env now cid w).
Proof.
  intros H. unfold tickConnection.
  match goal with |- context [if ?b then _ else _] => destruct b end;
    [now apply keeps_abruptRemove, keeps_log |].
  unfold getNextNonce, connectionSendPacket. cbn zeta beta iota.
  rewrite resendLoop_spec.
  change (keeps w0 (with_effects ?a ?b)) with (keeps w0 b).
  apply keeps_modify; [reflexivity |]. apply keeps_deliver.
  now apply keeps_modify.
Qed.

Lemma keeps_tick_fold (w0 : Worker) (now : Z) (entries : list (string * Z))
      (w : Worker) :
  keeps w0 w ->
  keeps w0
    (fold_left
       (fun w1 (entry : string * Z) =>
          match mget (fst entry) (connections w1) with
          | Some cid => tickConnection env now cid w1
          | None => w1
          end)
       entries w).
Proof.
  revert w. induction entries as [|e entries IH]; intros w H; [exact H |].
  simpl. apply IH. destruct (mget (fst e) (connections w));
    [now apply keeps_tickConnection | exact H].
Qed.

Lemma keeps_tick (now : Z) (w : Worker) : keeps w (tick env now w).
Proof. rewrite tick_unfold. apply keeps_tick_fold, keeps_refl. Qed.

(** *** The nonce gate of [handleMessage] *)

Lemma handleMessage_behind (now : Z) (bytes : Buffer) (remote : RemoteInfo)
      (w : Worker) (cached : Z) (packet : RootPacket) (nonce : Z) :
  mget (fmt remote) (connections w) = Some cached ->
  parse env bytes = Parsed packet ->
  nonceOf packet = Some nonce -> isAcknowledge packet = false ->
  nonce <= lastNonce (the w cached) ->
  notReactorByte bytes = true ->
  handleMessage env now bytes remote w = emit behindWarning w.
Proof.
  intros Hreg Hparse Hnonce Hack Hle Hbyte. unfold handleMessage.
  rewrite Hparse, Hreg, Hnonce, Hack, Hbyte.
  now rewrite (proj2 (Z.leb_le _ _) Hle).
Qed.

Lemma handleMessage_exempt (now : Z) (bytes : Buffer) (remote : RemoteInfo)
      (w : Worker) (cached : Z) (packet : RootPacket) (nonce : Z) :
  mget (fmt remote) (connections w) = Some cached ->
  parse env bytes = Parsed packet ->
  nonceOf packet = Some nonce -> isAcknowledge packet = false ->
  notReactorByte bytes = false ->
  handleMessage env now bytes remote w
  = emitDecoded env now cached packet
      (modify cached (set_lastNonce nonce)
         (if nonce <=? lastNonce (the w cached)
          then emit behindWarning w else w)).
Proof.
  intros Hreg Hparse Hnonce Hack Hbyte. unfold handleMessage.
  rewrite Hparse, Hreg, Hnonce, Hack, Hbyte.
  now destruct (nonce <=? lastNonce (the w cached)).
Qed.

Lemma neverLower_refl (w : Worker) : neverLower w w.
Proof. intros id n H. exists n. split; [exact H | lia]. Qed.

Lemma neverLower_trans (w1 w2 w3 : Worker) :
  neverLower w1 w2 -> neverLower w2 w3 -> neverLower w1 w3.
Proof.
  intros H12 H23 id n H. destruct (H12 id n H) as [n2 [H2 Hle2]].
  destruct (H23 id n2 H2) as [n3 [H3 Hle3]]. exists n3. split; [exact H3 | lia].
Qed.

Lemma keeps_neverLower (w w' : Worker) : keeps w w' -> neverLower w w'.
Proof.
  intros [_ [Hn _]] id n H. exists n. rewrite Hn. split; [exact H | lia].
Qed.

Lemma keeps_allocated (w w' : Worker) :
  keeps w w' -> allocated w -> allocated w'.
Proof.
  intros [Hid [Hn _]] Hall id Hlt. rewrite Hid in Hlt.
  specialize (Hn id). unfold lastNonceOf in Hn. rewrite (Hall id Hlt) in Hn.
  now destruct (objects w' !! id).
Qed.

Lemma raise_lastNonce (w : Worker) (cid nonce : Z) :
  lastNonce (the w cid) <= nonce ->
  let w' := modify cid (set_lastNonce nonce) w in
  neverLower w w' /\ (allocated w -> allocated w').
Proof.
  intros Hle. cbn zeta. split.
  - intros id n H. unfold lastNonceOf in *. rewrite objects_modify.
    destruct (decide (cid = id)) as [->|]; [|exists n; split; [exact H | lia]].
    unfold the in Hle. rewrite lookup_total_alt in Hle.
    destruct (objects w !! id) as [c|]; [|discriminate].
    simpl in *. inversion H; subst. exists nonce. split; [reflexivity | exact Hle].
  - intros Hall id Hlt. rewrite objects_modify.
    destruct (decide (cid = id)) as [->|]; [|now apply Hall].
    now rewrite (Hall id Hlt).
Qed.

Lemma createConnection_neverLower (remote : RemoteInfo) (w : Worker) :
  allocated w ->
  let w' := snd (createConnection env remote w) in
  neverLower w w' /\ allocated w'
  /\ lastNonce (the w' (fst (createConnection env remote w)))
     = freshLastNonce env.
Proof.
  intros Hall. cbn zeta. simpl. split; [|split].
  - intros id n H. exists n. split; [|lia]. unfold lastNonceOf in *. simpl.
    rewrite lookup_insert_ne; [exact H |].
    intros Heq. subst id. rewrite (Hall (lastClientId w + 1)) in H by lia.
    discriminate.
  - intros id Hlt. simpl in *. rewrite lookup_insert_ne by lia.
    apply Hall. lia.
  - unfold the. simpl. now rewrite lookup_total_alt, lookup_insert_eq.
Qed.

(** One datagram that does not carry the reactor byte at offset 5 lowers
    no last-seen nonce. *)
Lemma handleMessage_neverLower (now : Z) (bytes : Buffer)
      (remote : RemoteInfo) (w : Worker) :
  allocated w -> notReactorByte bytes = true ->
  let w' := handleMessage env now bytes remote w in
  allocated w' /\ neverLower w w'.
Proof.
  intros Hall Hbyte. cbn zeta.
  assert (Hget : let w1 := snd (getOrCreateConnection env remote w) in
                 allocated w1 /\ neverLower w w1).
  { unfold getOrCreateConnection.
    destruct (mget (fmt remote) (connections w)).
    - split; [exact Hall | apply neverLower_refl].
    - destruct (createConnection_neverLower remote w Hall) as [Hm [Ha _]].
      now split. }
  assert (Hkeep : forall cid packet w1,
             allocated w1 -> neverLower w w1 ->
             allocated (emitDecoded env now cid packet w1)
             /\ neverLower w (emitDecoded env now cid packet w1)).
  { intros cid packet w1 Ha Hm.
    pose proof (keeps_emitDecoded w1 now cid packet w1 (keeps_refl w1)) as Hk.
    split; [now apply (keeps_allocated w1) |].
    eapply neverLower_trans; [exact Hm | now apply keeps_neverLower]. }
  assert (Hsame : forall w1, keeps w w1 -> allocated w1 /\ neverLower w w1).
  { intros w1 Hk. split; [now apply (keeps_allocated w) |].
    now apply keeps_neverLower. }
  unfold handleMessage. destruct (parse env bytes) as [| |packet].
  - destruct (getOrCreateConnection env remote w) as [cid w1].
    destruct Hget as [Ha Hm]. split; [exact Ha | exact Hm].
  - destruct (getOrCreateConnection env remote w) as [cid w1].
    destruct Hget as [Ha Hm]. split; [exact Ha | exact Hm].
  - destruct (mget (fmt remote) (connections w)) as [cached|].
    + destruct (nonceOf packet) as [nonce|];
        [|apply Hkeep; [exact Hall | apply neverLower_refl]].
      destruct (isAcknowledge packet);
        [apply Hkeep; [exact Hall | apply neverLower_refl] |].
      destruct (nonce <=? lastNonce (the w cached)) eqn:Hle.
      * rewrite Hbyte. apply Hsame, keeps_log, keeps_refl.
      * apply Z.leb_gt in Hle.
        destruct (raise_lastNonce w cached nonce ltac:(lia)) as [Hm Ha].
        apply Hkeep; [now apply Ha | exact Hm].
    + destruct (negb (isModdedHello packet));
        [apply Hsame, keeps_refl |].
      destruct (createConnection_neverLower remote w Hall) as [Hm [Ha _]].
      set (w1 := snd (createConnection env remote w)) in *.
      change (createConnection env remote w) with (lastClientId w + 1, w1).
      clearbody w1. cbn iota beta.
      destruct (nonceOf packet) as [nonce|]; [|now apply Hkeep].
      apply Hkeep.
      * intros id Hlt. rewrite objects_modify.
        destruct (decide (lastClientId w + 1 = id)) as [<-|]; [|now apply Ha].
        now rewrite (Ha _ Hlt).
      * intros id n H. destruct (Hm id n H) as [n' [H' Hle]].
        exists n'. split; [|exact Hle].
        unfold lastNonceOf in *. rewrite objects_modify.
        destruct (decide (lastClientId w + 1 = id)) as [<-|]; [|exact H'].
        rewrite (Hall (lastClientId w + 1)) in H by lia. discriminate.
Qed.

Lemma run_neverLower (datagrams : list (Z * Buffer * RemoteInfo))
      (w : Worker) :
  allocated w ->
  Forall (fun d => notReactorByte (snd (fst d)) = true) datagrams ->
  allocated (run env datagrams w) /\ neverLower w (run env datagrams w).
Proof.
  revert w. induction datagrams as [|[[now bytes] remote] more IH];
    intros w Hall Hbytes.
  - split; [exact Hall | apply neverLower_refl].
  - inversion Hbytes as [|? ? Hb Hmore]; subst. cbn [fst snd] in Hb.
    destruct (handleMessage_neverLower now bytes remote w Hall Hb) as [Ha Hm].
    destruct (IH _ Ha Hmore) as [Ha' Hm']. split; [exact Ha' |].
    eapply neverLower_trans; [exact Hm | exact Hm'].
Qed.

Lemma runEvents_neverLower (events : list Server.Event) (w : Worker) :
  allocated w ->
  Forall (fun event => ServerSpec.withoutReactorByte event = true) events ->
  allocated (Server.runEvents env events w)
  /\ neverLower w (Server.runEvents env events w).
Proof.
  revert w. induction events as [|event more IH]; intros w Hall Hbytes.
  - split; [exact Hall | apply neverLower_refl].
  - inversion Hbytes as [|? ? Hb Hmore]; subst.
    assert (Hstep : allocated (Server.step env w event)
                    /\ neverLower w (Server.step env w event)).
    { destruct event as [now bytes remote | now]; cbn [Server.step].
      - now apply handleMessage_neverLower.
      - pose proof (keeps_tick now w) as Hk.
        split; [now apply (keeps_allocated w) | now apply keeps_neverLower]. }
    destruct Hstep as [Ha Hm].
    destruct (IH _ Ha Hmore) as [Ha' Hm']. split; [exact Ha' |].
    eapply neverLower_trans; [exact Hm | exact Hm'].
Qed.

End Frame.

(** *** What the listeners of the children send

    The listeners of the child messages send no Acknowledge, and a child
    message is handed to its listeners once. *)

Section Quiet.
Context (env : Env).

Lemma count_emit (p : Effect -> bool) (e : Effect) (w : Worker) :
  count p (emit e w) = (count p w + if p e then 1 else 0)%nat.
Proof.
  unfold count, emit. simpl. rewrite List.filter_app, length_app. simpl.
  now destruct (p e).
Qed.

Lemma quiet_refl (w : Worker) : quiet w w.
Proof. now split. Qed.

Lemma quiet_emit (w0 : Worker) (e : Effect) (w : Worker) :
  isAckSend e = false -> isDispatch e = false ->
  quiet w0 w -> quiet w0 (emit e w).
Proof.
  intros Ha Hd [H1 H2]. unfold quiet. rewrite !count_emit, Ha, Hd. lia.
Qed.

Lemma quiet_log (w0 : Worker) (level : LogLevel) (message : string)
      (w : Worker) :
  quiet w0 w -> quiet w0 (log level message w).
Proof. now apply quiet_emit. Qed.

Lemma quiet_modify (w0 : Worker) (cid : Z) (f : Connection -> Connection)
      (w : Worker) :
  quiet w0 w -> quiet w0 (modify cid f w).
Proof. intros H. exact H. Qed.

Lemma quiet_removeConnection (w0 : Worker) (cid : Z) (w : Worker) :
  quiet w0 w -> quiet w0 (removeConnection cid w).
Proof.
  intros H. unfold removeConnection. apply quiet_log. exact H.
Qed.

Lemma tag_not_ack (packet : RootPacket) :
  isAcknowledge packet = false -> (tag packet =? 10) = false.
Proof. now destruct packet. Qed.

Lemma quiet_deliver (w0 : Worker) (now cid : Z) (packet : RootPacket)
      (w : Worker) :
  isAcknowledge packet = false ->
  quiet w0 w -> quiet w0 (deliver env now cid packet w).
Proof.
  intros Hack H. unfold deliver, socketSend. rewrite Hack.
  destruct (nonceOf packet);
    (apply quiet_emit;
     [exact (tag_not_ack _ Hack) | reflexivity |]);
    [now apply quiet_modify | exact H].
Qed.

Lemma quiet_disconnect (w0 : Worker) (now cid : Z) (reason : Reason)
      (w : Worker) :
  quiet w0 w -> quiet w0 (disconnect env now cid reason w).
Proof.
  intros H. unfold disconnect.
  assert (H3 : quiet w0
                 (removeConnection cid
                    (modify cid (set_sentDisconnect true)
                       (deliver env now cid (DisconnectPacket reason) w)))).
  { apply quiet_removeConnection, quiet_modify.
    now apply quiet_deliver. }
  match goal with |- quiet _ (match ?x with _ => _ end) => destruct x end;
    [now apply quiet_emit | exact H3].
Qed.

Lemma quiet_joinError (w0 : Worker) (cid : Z) (reason : Reason) (w : Worker) :
  quiet w0 w -> quiet w0 (joinError cid reason w).
Proof. now apply quiet_emit. Qed.

Create HintDb quiet.
#[local] Hint Resolve quiet_log quiet_modify quiet_disconnect quiet_joinError
     quiet_removeConnection : quiet.

Ltac quiet_cases :=
  repeat match goal with
         | |- quiet _ (if ?b then _ else _) => destruct b
         | |- quiet _ (match ?x with _ => _ end) => destruct x
         | |- quiet _ (snd (if ?b then _ else _)) => destruct b
         | |- quiet _ (snd (match ?x with _ => _ end)) => destruct x
         | |- quiet _ (snd (_, _)) => cbn [snd]
         end.

Ltac quiet_solve :=
  quiet_cases;
  repeat first
         [ assumption
         | apply quiet_emit; [reflexivity | reflexivity |]
         | progress eauto 10 with quiet ].

Lemma quiet_onModDeclaration (w0 : Worker) (cid declNetId : Z)
      (declared : ReactorMod) (w : Worker) :
  quiet w0 w -> quiet w0 (onModDeclaration cid declNetId declared w).
Proof. intros H. unfold onModDeclaration. cbn zeta. quiet_solve. Qed.

Lemma quiet_checkConfigEntries (w0 : Worker) (now cid : Z)
      (entries : list (string * ModConfig)) (w : Worker) :
  quiet w0 w -> quiet w0 (snd (checkConfigEntries env now cid entries w)).
Proof.
  revert w. induction entries as [|[entryId modConfig] more IH]; intros w H;
    [exact H |].
  cbn [checkConfigEntries].
  quiet_cases; try apply IH; quiet_solve.
Qed.

Lemma quiet_checkClientMods (w0 : Worker) (now cid : Z) (w : Worker) :
  quiet w0 w -> quiet w0 (snd (checkClientMods env now cid w)).
Proof.
  intros H. unfold checkClientMods. cbn zeta.
  destruct (negb (usingReactor (the w cid))); [exact H |].
  destruct (msize (mods (the w cid)) <? numMods (the w cid));
    [cbn [snd]; quiet_solve |].
  destruct (reactor env) as [| |o]; [cbn [snd]; quiet_solve | exact H |].
  pose proof (quiet_checkConfigEntries w0 now cid (modsConfig o) w H) as H1.
  destruct (checkConfigEntries env now cid (modsConfig o) w) as [[r|] w1];
    cbn [snd] in H1 |- *; [exact H1 |].
  quiet_solve.
Qed.

Lemma quiet_onJoinGame (w0 : Worker) (now cid code : Z) (w : Worker) :
  quiet w0 w -> quiet w0 (onJoinGame env now cid code w).
Proof.
  intros H. unfold onJoinGame.
  destruct (room (the w cid)); [exact H |].
  pose proof (quiet_checkClientMods w0 now cid w H) as H1.
  destruct (checkClientMods env now cid w) as [r w1]. cbn [snd] in H1.
  destruct r as [[|]|]; try exact H1.
  destruct (beforeJoin env cid code (option_map roomCode (mget code (rooms w1))))
    as [canceled alteredCode].
  quiet_solve.
Qed.

Lemma quiet_onHostOnly (w0 : Worker) (now cid : Z)
      (message rebroadcast : ChildMessage) (w : Worker) :
  quiet w0 w -> quiet w0 (onHostOnly env now cid message rebroadcast w).
Proof.
  intros H. unfold onHostOnly.
  destruct (getPlayer w cid) as [[r ishost]|]; quiet_solve.
Qed.

Lemma quiet_onKickPlayer (w0 : Worker) (now cid : Z) (w : Worker) :
  quiet w0 w -> quiet w0 (onKickPlayer env now cid w).
Proof.
  intros H. unfold onKickPlayer.
  destruct (getPlayer w cid) as [[r ishost]|]; quiet_solve.
Qed.

(** One child: one dispatch, no Acknowledge. *)
Lemma emitChild_counts (now cid : Z) (message : ChildMessage) (w : Worker) :
  count isAckSend (emitChild env now cid message w) = count isAckSend w
  /\ count isDispatch (emitChild env now cid message w)
     = S (count isDispatch w).
Proof.
  set (w1 := emit (Dispatch cid message) w).
  assert (Hq : quiet w1 (emitChild env now cid message w)).
  { unfold emitChild. fold w1.
    destruct message as [| | | | |[|]|];
      first [ apply quiet_onJoinGame | apply quiet_onHostOnly
            | apply quiet_onKickPlayer | apply quiet_onModDeclaration
            | idtac ];
      apply quiet_refl. }
  destruct Hq as [Ha Hd]. rewrite Ha, Hd. unfold w1.
  rewrite !count_emit. simpl. lia.
Qed.

Lemma emitChildren_counts (now cid : Z) (children : list ChildMessage)
      (w : Worker) :
  count isAckSend (emitChildren env now cid children w) = count isAckSend w
  /\ count isDispatch (emitChildren env now cid children w)
     = (count isDispatch w + List.length children)%nat.
Proof.
  revert w. induction children as [|m more IH]; intros w.
  - simpl. split; [reflexivity | lia].
  - destruct (IH (emitChild env now cid m w)) as [Ha Hd].
    destruct (emitChild_counts now cid m w) as [Ha1 Hd1].
    change (emitChildren env now cid (m :: more) w)
      with (emitChildren env now cid more (emitChild env now cid m w)).
    rewrite Ha, Hd, Ha1, Hd1. simpl. split; [reflexivity | lia].
Qed.

(** The listener of a nonce-carrying packet sends one Acknowledge. *)
Lemma onNonced_counts (now cid nonce : Z) (w : Worker) :
  count isAckSend (onNonced env now cid nonce w) = S (count isAckSend w)
  /\ count isDispatch (onNonced env now cid nonce w) = count isDispatch w.
Proof.
  unfold onNonced, connectionSendPacket, deliver, socketSend.
  cbn [nonceOf isAcknowledge].
  rewrite !count_emit. cbn [isAckSend isDispatch serialize tag].
  change (10 =? 10) with true. cbv iota.
  change (count isAckSend (modify cid ?f w)) with (count isAckSend w).
  change (count isDispatch (modify cid ?f w)) with (count isDispatch w).
  lia.
Qed.

End Quiet.

(** *** Duplicates and reordering *)

Section Gate.
Context (env : Env).

Lemma lastNonceOf_the (w : Worker) (cid n : Z) :
  lastNonceOf w cid = Some n -> lastNonce (the w cid) = n.
Proof.
  unfold lastNonceOf, the. rewrite lookup_total_alt.
  destruct (objects w !! cid); simpl; [now inversion 1 | discriminate].
Qed.

(** C1, as amended.  A reliable packet from a connection, in a datagram
    whose byte at offset 5 is not 0xff, is handled at most once, as long
    as no datagram with the byte 0xff at offset 5 arrives and the endpoint
    is not registered anew.  Whatever datagrams and ticks come in between,
    when the same datagram arrives again no Acknowledge goes out and no
    listener of a child message runs; the worker is left as it is, but
    for the warning that the connection is behind when it is still
    registered.  The same holds for the first arrival when the last-seen
    nonce is already the nonce of the packet or more.  When the nonce is
    above the last-seen nonce, the first arrival sends one Acknowledge and
    hands each child once to its listeners: two arrivals give one
    Acknowledge and one run of the listeners. *)
Theorem duplicate_reliable_is_dropped
        (now1 now2 : Z) (bytes : Buffer) (remote : RemoteInfo) (w : Worker)
        (cached : Z) (c : Connection) (nonce : Z)
        (children : list ChildMessage) (between : list Server.Event) :
  allocated w ->
  mget (fmt remote) (connections w) = Some cached ->
  objects w !! cached = Some c ->
  parse env bytes = Parsed (ReliablePacket nonce children) ->
  notReactorByte bytes = true ->
  Forall (fun event => ServerSpec.withoutReactorByte event = true) between ->
  let w1 := handleMessage env now1 bytes remote w in
  let wm := Server.runEvents env between w1 in
  let w2 := handleMessage env now2 bytes remote wm in
  (forall other,
      mget (fmt remote) (connections wm) = Some other -> other = cached) ->
  (w2 = wm \/ w2 = emit behindWarning wm)
  /\ count isAckSend w2 = count isAckSend wm
  /\ count isDispatch w2 = count isDispatch wm
  /\ (nonce <= lastNonce c -> w1 = emit behindWarning w)
  /\ (lastNonce c < nonce ->
      count isAckSend w1 = S (count isAckSend w)
      /\ count isDispatch w1
         = (count isDispatch w + List.length children)%nat).
Proof.
  intros Hall Hreg Hc Hparse Hbyte Hbetween. cbn zeta. intros Hsame.
  assert (Hdrop : forall w0,
             mget (fmt remote) (connections w0) = Some cached ->
             nonce <= lastNonce (the w0 cached) ->
             forall now, handleMessage env now bytes remote w0
                         = emit behindWarning w0).
  { intros w0 Hreg0 Hle now.
    now apply (handleMessage_behind env now bytes remote w0 cached
                 (ReliablePacket nonce children) nonce). }
  assert (Hsecond : forall w1,
             (mget (fmt remote) (connections w1) = None
              \/ (mget (fmt remote) (connections w1) = Some cached
                  /\ nonce <= lastNonce (the w1 cached))) ->
             let w2 := handleMessage env now2 bytes remote w1 in
             (w2 = w1 \/ w2 = emit behindWarning w1)
             /\ count isAckSend w2 = count isAckSend w1
             /\ count isDispatch w2 = count isDispatch w1).
  { intros w1 [Hnone | [Hreg1 Hle1]]; cbn zeta.
    - assert (E : handleMessage env now2 bytes remote w1 = w1).
      { unfold handleMessage. now rewrite Hparse, Hnone. }
      rewrite E. auto.
    - rewrite (Hdrop w1 Hreg1 Hle1), !count_emit. simpl.
      repeat split; [now right | lia | lia]. }
  set (w1 := handleMessage env now1 bytes remote w) in *.
  set (wm := Server.runEvents env between w1) in *.
  assert (Hlater : forall n1,
             lastNonceOf w1 cached = Some n1 -> nonce <= n1 ->
             allocated w1 ->
             (handleMessage env now2 bytes remote wm = wm
              \/ handleMessage env now2 bytes remote wm
                 = emit behindWarning wm)
             /\ count isAckSend (handleMessage env now2 bytes remote wm)
                = count isAckSend wm
             /\ count isDispatch (handleMessage env now2 bytes remote wm)
                = count isDispatch wm).
  { intros n1 Hn1 Hle1 Hall1.
    destruct (runEvents_neverLower env between w1 Hall1 Hbetween)
      as [_ Hm].
    destruct (Hm cached n1 Hn1) as [n2 [Hn2 Hle2]]. fold wm in Hn2.
    apply Hsecond.
    destruct (mget (fmt remote) (connections wm)) as [other|] eqn:Hother;
      [|now left].
    right. rewrite (Hsame other eq_refl). split; [reflexivity |].
    rewrite (lastNonceOf_the _ _ _ Hn2). lia. }
  destruct (handleMessage_neverLower env now1 bytes remote w Hall Hbyte)
    as [Hall1 _]. fold w1 in Hall1.
  destruct (Z_le_gt_dec nonce (lastNonce c)) as [Hle | Hgt].
  - assert (E : w1 = emit behindWarning w).
    { unfold w1. apply Hdrop; [exact Hreg |].
      now rewrite (the_Some _ _ _ Hc). }
    destruct (Hlater (lastNonce c)) as [H1 [H2 H3]];
      [rewrite E; unfold lastNonceOf; cbn; now rewrite Hc | lia
      | exact Hall1 |].
    split; [exact H1 |]. split; [exact H2 |]. split; [exact H3 |].
    split; [intros _; exact E | lia].
  - assert (E : w1
                = emitDecoded env now1 cached (ReliablePacket nonce children)
                    (modify cached (set_lastNonce nonce) w)).
    { unfold w1, handleMessage. rewrite Hparse, Hreg.
      cbn [nonceOf isAcknowledge]. rewrite (the_Some _ _ _ Hc).
      now rewrite (proj2 (Z.leb_gt _ _)) by lia. }
    set (w0 := modify cached (set_lastNonce nonce) w) in *.
    pose proof (keeps_emitDecoded env w0 now1 cached
                  (ReliablePacket nonce children) w0 (keeps_refl w0))
      as [_ [Hn _]].
    rewrite <- E in Hn.
    assert (Hlast : lastNonceOf w1 cached = Some nonce).
    { rewrite Hn. unfold lastNonceOf, w0.
      now rewrite objects_modify, decide_True, Hc. }
    destruct (Hlater nonce Hlast ltac:(lia) Hall1) as [H1 [H2 H3]].
    split; [exact H1 |]. split; [exact H2 |]. split; [exact H3 |].
    split; [lia |]. intros _. rewrite E. unfold emitDecoded.
    destruct (onNonced_counts env now1 cached nonce
                (emitChildren env now1 cached children w0)) as [Ha Hd].
    destruct (emitChildren_counts env now1 cached children w0) as [Ha' Hd'].
    rewrite Ha, Hd, Ha', Hd'. split; reflexivity.
Qed.

(** C4, as amended.  Over any run of datagrams none of which carries the
    byte 0xff at offset 5, the last-seen nonce of a connection never gets
    lower.  A nonce-carrying packet other than an Acknowledge whose nonce
    is not above the last-seen nonce of its connection is dropped unhandled
    when the byte at offset 5 of its datagram is not 0xff; when that byte
    is 0xff the packet is handled whatever its nonce and the last-seen
    nonce is set to its nonce. *)
Theorem lastNonce_never_lowered_without_reactor_byte
        (datagrams : list (Z * Buffer * RemoteInfo)) (w : Worker)
        (cid n : Z) :
  allocated w ->
  Forall (fun d => notReactorByte (snd (fst d)) = true) datagrams ->
  lastNonceOf w cid = Some n ->
  (exists n', lastNonceOf (run env datagrams w) cid = Some n' /\ n <= n')
  /\ (forall (now : Z) (bytes : Buffer) (remote : RemoteInfo) (w0 : Worker)
             (cached : Z) (packet : RootPacket) (nonce : Z),
         mget (fmt remote) (connections w0) = Some cached ->
         parse env bytes = Parsed packet ->
         nonceOf packet = Some nonce -> isAcknowledge packet = false ->
         nonce <= lastNonce (the w0 cached) ->
         handleMessage env now bytes remote w0
         = if notReactorByte bytes then emit behindWarning w0
           else emitDecoded env now cached packet
                  (modify cached (set_lastNonce nonce)
                     (emit behindWarning w0))).
Proof.
  intros Hall Hbytes Hn. split.
  - destruct (run_neverLower env datagrams w Hall Hbytes) as [_ Hm].
    exact (Hm cid n Hn).
  - intros now bytes remote w0 cached packet nonce Hreg Hparse Hnonce Hack Hle.
    destruct (notReactorByte bytes) eqn:Hbyte.
    + now apply (handleMessage_behind env now bytes remote w0 cached packet nonce).
    + rewrite (handleMessage_exempt env now bytes remote w0 cached packet nonce)
        by assumption.
      now rewrite (proj2 (Z.leb_le _ _) Hle).
Qed.

End Gate.

(** * The statements on concrete inputs *)

Lemma duplicate_reliable_is_dropped_witness :
  let w1 := handleMessage plainEnv 1000 reliable5 client (oneClient seenFour) in
  let wm :=
    Server.runEvents plainEnv
      [Server.Datagram 1200 join9 client; Server.Tick 2000] w1 in
  let w2 := handleMessage plainEnv 2500 reliable5 client wm in
  (w2 = wm \/ w2 = emit behindWarning wm)
  /\ count isAckSend w2 = count isAckSend wm
  /\ count isDispatch w2 = count isDispatch wm
  /\ (5 <= lastNonce seenFour -> w1 = emit behindWarning (oneClient seenFour))
  /\ (lastNonce seenFour < 5 ->
      count isAckSend w1 = S (count isAckSend (oneClient seenFour))
      /\ count isDispatch w1
         = (count isDispatch (oneClient seenFour)
            + List.length [StartGameMessage 32])%nat).
Proof.
  apply (duplicate_reliable_is_dropped plainEnv 1000 2500 reliable5 client
           (oneClient seenFour) 1 seenFour 5 [StartGameMessage 32]
           [Server.Datagram 1200 join9 client; Server.Tick 2000]).
  - intros id Hlt. apply lookup_singleton_ne. simpl in Hlt. lia.
  - reflexivity.
  - reflexivity.
  - reflexivity.
  - reflexivity.
  - repeat constructor.
  - intros other Hother. vm_compute in Hother. congruence.
Defined.

(** C1 fails as it is written: the client sends Reliable(nonce=5) twice;
    one Acknowledge(5) goes out, not two, and the listener of the child
    runs once. *)
Lemma duplicate_reliable_counterexample :
  let w1 := handleMessage plainEnv 1000 reliable5 client (oneClient seenFour) in
  let w2 := handleMessage plainEnv 1001 reliable5 client w1 in
  parse plainEnv reliable5 = Parsed (ReliablePacket 5 [StartGameMessage 32])
  /\ lastNonceOf w1 1 = Some 5
  /\ effects w2
     = [Dispatch 1 (StartGameMessage 32);
        SocketSend client (serialize plainEnv (AcknowledgePacket 5 []));
        behindWarning]
  /\ count isAckSend w2 = 1%nat
  /\ count isDispatch w2 = 1%nat
  /\ count isAckSend w2 <> 2%nat.
Proof.
  cbn zeta. repeat split; try reflexivity. vm_compute. discriminate.
Qed.

Lemma tick_retransmits_or_disconnects_witness :
  (exists es,
      effects (tick plainEnv 1000 (oneClient onePending))
      = effects (oneClient onePending) ++ es
      /\ objects (tick plainEnv 1000 (oneClient onePending)) !! 1
         = Some (set_sentPackets
                   [mkSentPacket 2 (serialize plainEnv (PingPacket 2)) 1000
                      false;
                    mkSentPacket 1 [1; 0; 1] 1000 false]
                   (set_nonce 2 onePending))
      /\ mget (fmt client)
           (connections (tick plainEnv 1000 (oneClient onePending)))
         = Some 1
      /\ List.filter (sentTo client) es
         = [SocketSend client (serialize plainEnv (PingPacket 2));
            SocketSend client [1; 0; 1]])
  /\ (exists es,
         effects (tick plainEnv 2000 (oneClient silentClient))
         = effects (oneClient silentClient) ++ es
         /\ mget (fmt client)
              (connections (tick plainEnv 2000 (oneClient silentClient)))
            = None
         /\ ~ In (SocketSend client [1; 0; 8]) es).
Proof.
  assert (Hok : forall c, rinfo c = client -> registryOk (oneClient c)).
  { intros c Hr. split; [repeat constructor; now intros ?%elem_of_nil |].
    intros k cid Hget. simpl in Hget.
    destruct (decide (fmt client = k)) as [<-|]; [|discriminate].
    inversion Hget; subst. now rewrite <- Hr. }
  split.
  - destruct (tick_retransmits_or_disconnects plainEnv 1000
                (oneClient onePending) (fmt client) 1 onePending
                (Hok onePending eq_refl) eq_refl eq_refl)
      as [es [He H]].
    change (presumedDead onePending) with false in H. cbv iota in H.
    destruct H as [_ [H1 [H2 [H3 _]]]]; [simpl; lia |].
    exists es. repeat split; assumption.
  - destruct (tick_retransmits_or_disconnects plainEnv 2000
                (oneClient silentClient) (fmt client) 1 silentClient
                (Hok silentClient eq_refl) eq_refl eq_refl)
      as [es [He H]].
    change (presumedDead silentClient) with true in H. cbv iota in H.
    destruct H as [H1 [_ [_ [_ H5]]]].
    exists es. split; [exact He |]. split; [exact H1 |].
    apply (H5 (mkSentPacket 8 [1; 0; 8] 0 false)). now left.
Defined.

(** C2 fails as it is written.  With eight packets in flight, all
    unacknowledged and older than 500 ms, the tick sends none of them
    again and leaves their [sentAt] as it is: it removes the connection
    instead.  With eight packets in flight of which only the newest is
    acknowledged, the ping that the tick records pushes the oldest packet
    out of the deque before the loop that sends again, so that packet,
    unacknowledged and older than 500 ms, is not sent again. *)
Lemma tick_retransmission_counterexample :
  let dead := tick plainEnv 2000 (oneClient silentClient) in
  let busy := tick plainEnv 2000 (oneClient busyClient) in
  sentPackets silentClient = eightUnacked
  /\ forallb (due 2000) eightUnacked = true
  /\ mget (fmt client) (connections dead) = None
  /\ sentPackets (the dead 1) = eightUnacked
  /\ Forall (fun s => ~ In (SocketSend client (buffer s)) (effects dead))
       eightUnacked
  /\ In (mkSentPacket 1 [1; 0; 1] 0 false) (sentPackets busyClient)
  /\ due 2000 (mkSentPacket 1 [1; 0; 1] 0 false) = true
  /\ effects busy
     = SocketSend client (serialize plainEnv (PingPacket 9))
       :: map (fun n => SocketSend client [1; 0; n]) [7; 6; 5; 4; 3; 2]
  /\ ~ In (SocketSend client [1; 0; 1]) (effects busy).
Proof.
  cbn zeta. repeat split; try reflexivity.
  - repeat constructor; vm_compute; intros [H | [H | []]]; discriminate.
  - vm_compute. tauto.
  - vm_compute. intros H. repeat (destruct H as [H | H]; [discriminate |]).
    exact H.
Qed.

Lemma sentPackets_bounded_newest_first_witness :
  exists c',
    objects (sendAll plainEnv oversizedCalls (oneClient seenFour)) !! 1
    = Some c'
    /\ sentPackets c'
       = [mkSentPacket 2 (serialize plainEnv (ReliablePacket 2 [])) 30 false;
          mkSentPacket 1 (serialize plainEnv (PingPacket 1)) 10 false].
Proof.
  destruct (sentPackets_bounded_newest_first plainEnv oversizedCalls
              (oneClient seenFour) 1 seenFour eq_refl)
    as [c' [H1 [H2 _]]]; [simpl; lia |].
  exists c'. split; [exact H1 | rewrite H2; reflexivity].
Defined.

Lemma lastNonce_never_lowered_witness :
  exists n',
    lastNonceOf
      (run plainEnv [(1000, reliable5, client); (1001, reliable5, client)]
         (oneClient seenFour)) 1 = Some n'
    /\ 4 <= n'.
Proof.
  apply (lastNonce_never_lowered_without_reactor_byte plainEnv
           [(1000, reliable5, client); (1001, reliable5, client)]
           (oneClient seenFour) 1 4).
  - intros id Hlt. apply lookup_singleton_ne. simpl in Hlt. lia.
  - repeat constructor.
  - reflexivity.
Defined.

(** C4 fails as it is written: a reliable packet with nonce 3 whose first
    child is a reactor handshake, not a mod declaration, arrives when the
    last-seen nonce is 5; the byte at offset 5 of the datagram is 0xff, so
    the packet is handled and the last-seen nonce goes down to 3. *)
Lemma reactor_byte_counterexample :
  let w1 := handleMessage plainEnv 1000 reliable5 client (oneClient seenFour) in
  let w2 := handleMessage plainEnv 1001 reactor3 client w1 in
  parse plainEnv reactor3
  = Parsed (ReliablePacket 3
              [ReactorMessage (ReactorHandshakeMessage "client" "1.0.0" 0)])
  /\ lastNonceOf w1 1 = Some 5
  /\ lastNonceOf w2 1 = Some 3
  /\ effects w2
     = effects w1
       ++ [behindWarning;
           Dispatch 1
             (ReactorMessage (ReactorHandshakeMessage "client" "1.0.0" 0));
           SocketSend client (serialize plainEnv (AcknowledgePacket 3 []))].
Proof. cbn zeta. repeat split; reflexivity. Qed.


(** C6: the policy requires [modA] and a reactor client that declared no
    mods sends JoinGame for an open room.  [checkClientMods] disconnects
    the client with the missing-required-mod message for [modA] and
    [any], and yet returns [true]; the listener goes on and hands the
    disconnected client to [handleRemoteJoin] of the room. *)
Theorem missing_required_mod_join_proceeds :
  usingReactor reactorClient = true
  /\ mods reactorClient = []
  /\ parse modAEnv join9 = Parsed (ReliablePacket 9 [JoinGameMessage 32])
  /\ checkClientMods modAEnv 1000 1 lobbyWorker
     = (Some true,
        disconnect modAEnv 1000 1
          (Localized missing_required_mod ["modA"; "any"]) lobbyWorker)
  /\ effects (handleMessage modAEnv 1000 join9 client lobbyWorker)
     = [Dispatch 1 (JoinGameMessage 32);
        SocketSend client
          (serialize modAEnv
             (DisconnectPacket (Localized missing_required_mod ["modA"; "any"])));
        Log LogInfo "Remove %s";
        Log LogInfo "%s joining room %s";
        RoomHandleRemoteJoin 32 1;
        SocketSend client (serialize modAEnv (AcknowledgePacket 9 []))].
Proof. repeat split; reflexivity. Qed.

(** C7: a truncated datagram, which the codec rejects, and a datagram
    with a root tag that the protocol does not have come from an endpoint
    without a connection.  Neither is a hello, and for each the worker
    hands out a client id and registers a connection for the endpoint,
    whereas a reliable packet from the same endpoint leaves the worker as
    it is. *)
Theorem undecodable_datagram_registers_connection :
  parse plainEnv truncated = Malformed
  /\ parse plainEnv unknownTag = UnknownRoot
  /\ mget (fmt client) (connections noClient) = None
  /\ connections (handleMessage plainEnv 1000 truncated client noClient)
     = [(fmt client, 1)]
  /\ connections (handleMessage plainEnv 1000 unknownTag client noClient)
     = [(fmt client, 1)]
  /\ objects (handleMessage plainEnv 1000 truncated client noClient) !! 1
     = Some (newConnection plainEnv client 1)
  /\ connections (handleMessage plainEnv 1000 truncated client noClient)
     <> connections noClient
  /\ handleMessage plainEnv 1000 reliable5 client noClient = noClient.
Proof.
  split; [reflexivity |]. split; [reflexivity |]. split; [reflexivity |].
  split; [exact (proj1 (unknown_endpoint_registration plainEnv 1000 truncated
                          client noClient eq_refl)) |].
  split; [exact (proj1 (unknown_endpoint_registration plainEnv 1000 unknownTag
                          client noClient eq_refl)) |].
  split; [exact (proj2 (unknown_endpoint_registration plainEnv 1000 truncated
                          client noClient eq_refl)) |].
  split; [vm_compute; discriminate |].
  exact (unknown_endpoint_registration plainEnv 1000 reliable5 client
           noClient eq_refl).
Qed.

(** * Further properties of the worker *)

Import Server ServerSpec.

(** ** What every listener leaves as it is *)

Lemma stable_intro (c0 c : Connection) :
  rinfo c = rinfo c0 -> clientId c = clientId c0 ->
  (dequesOk c0 -> dequesOk c) -> (modsOk c0 -> modsOk c) -> stable c0 c.
Proof. unfold stable. auto. Qed.

Lemma stable_refl (c : Connection) : stable c c.
Proof. apply stable_intro; auto. Qed.

Ltac stable_same :=
  apply stable_intro;
  [reflexivity | reflexivity | exact (fun D => D) | exact (fun M => M)].

Lemma stable_trans (c0 c1 c2 : Connection) :
  stable c0 c1 -> stable c1 c2 -> stable c0 c2.
Proof.
  intros [R1 [I1 [D1 M1]]] [R2 [I2 [D2 M2]]].
  apply stable_intro; try congruence; auto.
Qed.

Section Steady.
Context (env : Env).

Lemma steady_refl (w : Worker) : steady w w.
Proof.
  split; [reflexivity |]. split; [auto |]. split; [auto |]. intros id.
  destruct (objects w !! id); [apply stable_refl | exact I].
Qed.

Lemma steady_emit (w0 : Worker) (e : Effect) (w : Worker) :
  steady w0 w -> steady w0 (emit e w).
Proof. intros H. exact H. Qed.

Lemma steady_log (w0 : Worker) (level : LogLevel) (message : string)
      (w : Worker) :
  steady w0 w -> steady w0 (log level message w).
Proof. intros H. exact H. Qed.

Lemma steady_modify (w0 : Worker) (cid : Z) (f : Connection -> Connection)
      (w : Worker) :
  (forall c, objects w !! cid = Some c -> stable c (f c)) ->
  steady w0 w -> steady w0 (modify cid f w).
Proof.
  intros Hf [Hid [Hreg [Hnd Hobj]]]. split; [exact Hid |].
  split; [exact Hreg |]. split; [exact Hnd |]. intros id.
  rewrite objects_modify. specialize (Hobj id).
  destruct (decide (cid = id)) as [->|Hne]; [|exact Hobj].
  destruct (objects w0 !! id) as [c0|], (objects w !! id) as [c|] eqn:E;
    simpl; try assumption.
  eapply stable_trans; [exact Hobj | now apply Hf].
Qed.

Lemma elem_of_mdelete {V : Type} (k : string) (m : list (string * V))
      (x : string) :
  x ∈ map fst (mdelete k m) -> x ∈ map fst m.
Proof.
  induction m as [|[k' v] m IH]; simpl; [trivial |].
  destruct (decide (k' = k)); simpl; rewrite !elem_of_cons; intuition.
Qed.

Lemma NoDup_mdelete {V : Type} (k : string) (m : list (string * V)) :
  NoDup (map fst m) -> NoDup (map fst (mdelete k m)).
Proof.
  induction m as [|[k' v] m IH]; simpl; intros H; [exact H |].
  inversion H as [|? ? Hnot Hrest]; subst.
  destruct (decide (k' = k)); [now apply IH |]. simpl.
  constructor; [|now apply IH]. intros Hin. apply Hnot.
  now apply elem_of_mdelete in Hin.
Qed.

Lemma steady_removeConnection (w0 : Worker) (cid : Z) (w : Worker) :
  steady w0 w -> steady w0 (removeConnection cid w).
Proof.
  intros [Hid [Hreg [Hnd Hobj]]]. split; [exact Hid |]. split; [|split].
  - intros k v H. apply Hreg. simpl in H. now apply mget_mdelete_Some in H.
  - intros H. simpl. apply NoDup_mdelete. now apply Hnd.
  - exact Hobj.
Qed.

Lemma stable_sentPackets (c : Connection) (sent : list SentPacket) :
  (List.length sent <= 8)%nat -> stable c (set_sentPackets sent c).
Proof.
  intros H.
  apply stable_intro; [reflexivity | reflexivity | | exact (fun M => M)].
  intros [_ Hr]. split; [exact H | exact Hr].
Qed.

Lemma steady_deliver (w0 : Worker) (now cid : Z) (packet : RootPacket)
      (w : Worker) :
  steady w0 w -> steady w0 (deliver env now cid packet w).
Proof.
  intros H. unfold deliver, socketSend.
  destruct (nonceOf packet); [|now apply steady_emit].
  destruct (isAcknowledge packet); apply steady_emit; [exact H |].
  apply steady_modify; [|exact H]. intros c _. apply stable_sentPackets.
  rewrite length_take. lia.
Qed.

Lemma steady_disconnect (w0 : Worker) (now cid : Z) (reason : Reason)
      (w : Worker) :
  steady w0 w -> steady w0 (disconnect env now cid reason w).
Proof.
  intros H. unfold disconnect, connectionSendPacket.
  assert (H3 : steady w0
                 (removeConnection cid
                    (modify cid (set_sentDisconnect true)
                       (deliver env now cid (DisconnectPacket reason) w)))).
  { apply steady_removeConnection, steady_modify;
      [intros c _; stable_same | now apply steady_deliver]. }
  destruct (room _); [now apply steady_emit | exact H3].
Qed.

Lemma steady_abruptRemove (w0 : Worker) (cid : Z) (w : Worker) :
  steady w0 w -> steady w0 (abruptRemove cid w).
Proof.
  intros H. unfold abruptRemove.
  destruct (room _); [apply steady_emit |]; now apply steady_removeConnection.
Qed.

Lemma steady_joinError (w0 : Worker) (cid : Z) (reason : Reason) (w : Worker) :
  steady w0 w -> steady w0 (joinError cid reason w).
Proof. intros H. exact H. Qed.

Lemma steady_getNextNonce (w0 : Worker) (cid : Z) (w : Worker) :
  steady w0 w -> steady w0 (snd (getNextNonce env cid w)).
Proof.
  intros H. apply steady_modify; [|exact H]. intros c _. stable_same.
Qed.

Create HintDb steady.
#[local] Hint Resolve steady_emit steady_log steady_deliver
  steady_disconnect steady_joinError steady_removeConnection
  steady_getNextNonce : steady.
#[local] Hint Extern 1 (steady _ (modify _ _ _)) =>
  apply steady_modify; [intros ? ?; stable_same |] : steady.

Ltac steady_cases :=
  repeat match goal with
         | |- steady _ (if ?b then _ else _) => destruct b
         | |- steady _ (match ?x with _ => _ end) => destruct x
         | |- steady _ (snd (if ?b then _ else _)) => destruct b
         | |- steady _ (snd (match ?x with _ => _ end)) => destruct x
         | |- steady _ (snd (_, _)) => cbn [snd]
         end.

Ltac steady_solve :=
  steady_cases;
  repeat first
         [ assumption
         | apply steady_modify; [intros ? ?; stable_same |]
         | progress eauto 10 with steady ].

Lemma steady_onNonced (w0 : Worker) (now cid nonce : Z) (w : Worker) :
  steady w0 w -> steady w0 (onNonced env now cid nonce w).
Proof.
  intros H. unfold onNonced, connectionSendPacket. apply steady_deliver.
  apply steady_modify; [|exact H]. intros c _.
  apply stable_intro; [reflexivity | reflexivity | | exact (fun M => M)].
  intros [Hs _]. split; [exact Hs |]. cbn. rewrite length_take. lia.
Qed.

Lemma steady_sendPluginChunks (w0 : Worker) (now cid i : Z)
      (chunks : list (list (string * string))) (w : Worker) :
  steady w0 w -> steady w0 (sendPluginChunks env now cid i chunks w).
Proof.
  revert i w. induction chunks as [|chunk more IH]; intros i w H; [exact H |].
  cbn [sendPluginChunks]. unfold getNextNonce, connectionSendPacket.
  cbn zeta beta iota. apply IH. steady_solve.
Qed.

Lemma stable_hello (c : Connection) (clientver : Z) (uname : string)
      (lang : Z) (modcount : option Z) :
  hasIdentified c = false ->
  stable c
    (let c1 :=
       set_clientVersion clientver
         (set_language lang
            (set_username uname
               (set_usingReactor
                  (match modcount with Some _ => true | None => false end)
                  (set_hasIdentified true c)))) in
     match modcount with
     | Some m => set_numMods m c1
     | None => c1
     end).
Proof.
  intros Hnew.
  apply stable_intro; try (now destruct modcount).
  intros [Hzero Hsize]. rewrite (Hzero Hnew) in Hsize.
  destruct modcount as [m|]; (split; [discriminate |]); cbn; lia.
Qed.

Lemma steady_onModdedHello (w0 : Worker) (now cid clientver : Z)
      (uname : string) (lang : Z) (modcount : option Z) (w : Worker) :
  steady w0 w ->
  steady w0 (onModdedHello env now cid clientver uname lang modcount w).
Proof.
  intros H. unfold onModdedHello.
  destruct (hasIdentified (the w cid)) eqn:Hnew; [exact H |].
  match goal with
  | |- context [modify cid ?f w] =>
      assert (H1 : steady w0 (modify cid f w))
  end.
  { apply steady_modify; [|exact H]. intros c Hc.
    apply stable_hello. now rewrite <- (the_Some _ _ _ Hc). }
  clear H. revert H1.
  match goal with
  | |- context [modify cid ?f w] => generalize (modify cid f w)
  end.
  intros w1 H1. unfold getNextNonce. cbn zeta beta iota.
  steady_cases; try apply steady_emit; try apply steady_sendPluginChunks;
    steady_solve.
Qed.

Lemma msize_mset (k : string) (v : ClientMod) (m : list (string * ClientMod)) :
  msize (mset k v m) <= msize m + 1.
Proof.
  unfold msize. induction m as [|[k' v'] m IH]; simpl; [lia |].
  destruct (decide (k' = k)); simpl in *; lia.
Qed.

Lemma steady_onModDeclaration (w0 : Worker) (cid declNetId : Z)
      (declared : ReactorMod) (w : Worker) :
  steady w0 w -> steady w0 (onModDeclaration cid declNetId declared w).
Proof.
  intros H. unfold onModDeclaration.
  destruct (numMods (the w cid) <=? msize (mods (the w cid))) eqn:Hfull;
    [exact H |].
  apply Z.leb_gt in Hfull.
  match goal with
  | |- context [modify cid ?f w] =>
      assert (H1 : steady w0 (modify cid f w))
  end.
  { apply steady_modify; [|exact H]. intros c Hc.
    rewrite (the_Some _ _ _ Hc) in Hfull.
    apply stable_intro; [reflexivity | reflexivity | exact (fun D => D) |].
    intros [Hzero Hsize]. split; [exact Hzero |]. cbn.
    pose proof (msize_mset (rmodId declared)
                  (mkClientMod declNetId (rmodId declared)
                     (rmodVersion declared) (rmodSide declared))
                  (mods c)). lia. }
  steady_solve.
Qed.

Lemma steady_onDisconnect (w0 : Worker) (now cid : Z) (w : Worker) :
  steady w0 w -> steady w0 (onDisconnect env now cid w).
Proof.
  intros H. unfold onDisconnect. cbn zeta. apply steady_removeConnection.
  steady_solve.
Qed.

Lemma markAcked_length (now nonce : Z) (sent sent' : list SentPacket) (rtt : Z) :
  markAcked now nonce sent = Some (sent', rtt) ->
  List.length sent' = List.length sent.
Proof.
  revert sent' rtt. induction sent as [|s rest IH]; intros sent' rtt H;
    [discriminate |].
  simpl in H. destruct (sentNonce s =? nonce).
  - inversion H; subst. reflexivity.
  - destruct (markAcked now nonce rest) as [[rest' r]|]; [|discriminate].
    inversion H; subst. simpl. f_equal. eapply IH. reflexivity.
Qed.

Lemma steady_onAcknowledge (w0 : Worker) (now cid nonce : Z) (w : Worker) :
  steady w0 w -> steady w0 (onAcknowledge now cid nonce w).
Proof.
  intros H. unfold onAcknowledge. apply steady_modify; [|exact H].
  intros c _. destruct (markAcked now nonce (sentPackets c))
    as [[sent' rtt]|] eqn:E; [|apply stable_refl].
  apply markAcked_length in E.
  apply stable_intro; [reflexivity | reflexivity | | exact (fun M => M)].
  intros [Hs Hr]. split; [cbn; now rewrite E | exact Hr].
Qed.

Lemma steady_checkConfigEntries (w0 : Worker) (now cid : Z)
      (entries : list (string * ModConfig)) (w : Worker) :
  steady w0 w -> steady w0 (snd (checkConfigEntries env now cid entries w)).
Proof.
  revert w. induction entries as [|[entryId modConfig] more IH]; intros w H;
    [exact H |].
  simpl. destruct (mget entryId (mods (the w cid))), modConfig;
    steady_cases; try apply IH; steady_solve.
Qed.

Lemma steady_checkClientMods (w0 : Worker) (now cid : Z) (w : Worker) :
  steady w0 w -> steady w0 (snd (checkClientMods env now cid w)).
Proof.
  intros H. unfold checkClientMods.
  destruct (negb (usingReactor (the w cid))); [exact H |].
  destruct (msize (mods (the w cid)) <? numMods (the w cid));
    [cbn [snd]; steady_solve |].
  destruct (reactor env); [cbn [snd]; steady_solve | exact H |].
  pose proof (steady_checkConfigEntries w0 now cid (modsConfig o) w H) as Hc.
  destruct (checkConfigEntries env now cid (modsConfig o) w) as [[r|] w1];
    cbn [snd] in *; [exact Hc |].
  steady_solve.
Qed.

Lemma steady_onJoinGame (w0 : Worker) (now cid code : Z) (w : Worker) :
  steady w0 w -> steady w0 (onJoinGame env now cid code w).
Proof.
  intros H. unfold onJoinGame. destruct (room (the w cid)); [exact H |].
  pose proof (steady_checkClientMods w0 now cid w H) as Hc.
  destruct (checkClientMods env now cid w) as [[[|]|] w1]; cbn [snd] in Hc;
    try exact Hc.
  destruct (beforeJoin env cid code _) as [canceled alteredCode].
  steady_solve.
Qed.

Lemma steady_onHostOnly (w0 : Worker) (now cid : Z)
      (message rebroadcast : ChildMessage) (w : Worker) :
  steady w0 w -> steady w0 (onHostOnly env now cid message rebroadcast w).
Proof.
  intros H. unfold onHostOnly.
  destruct (getPlayer w cid) as [[r ishost]|]; steady_solve.
Qed.

Lemma steady_onKickPlayer (w0 : Worker) (now cid : Z) (w : Worker) :
  steady w0 w -> steady w0 (onKickPlayer env now cid w).
Proof.
  intros H. unfold onKickPlayer.
  destruct (getPlayer w cid) as [[r ishost]|]; steady_solve.
Qed.

Lemma steady_emitChild (w0 : Worker) (now cid : Z) (message : ChildMessage)
      (w : Worker) :
  steady w0 w -> steady w0 (emitChild env now cid message w).
Proof.
  intros H. unfold emitChild.
  destruct message as [| | | | |[|]|];
    auto using steady_onJoinGame, steady_onHostOnly, steady_onKickPlayer,
      steady_onModDeclaration, steady_emit.
Qed.

Lemma steady_emitChildren (w0 : Worker) (now cid : Z)
      (children : list ChildMessage) (w : Worker) :
  steady w0 w -> steady w0 (emitChildren env now cid children w).
Proof.
  unfold emitChildren. revert w.
  induction children as [|m children IH]; intros w H; [exact H |].
  simpl. apply IH. now apply steady_emitChild.
Qed.

Lemma steady_emitDecoded (w0 : Worker) (now cid : Z) (packet : RootPacket)
      (w : Worker) :
  steady w0 w -> steady w0 (emitDecoded env now cid packet w).
Proof.
  intros H. destruct packet; simpl;
    auto using steady_emitChildren, steady_onNonced, steady_onModdedHello,
      steady_onDisconnect, steady_onAcknowledge.
Qed.

Lemma steady_tickConnection (w0 : Worker) (now cid : Z) (w : Worker) :
  steady w0 w -> steady w0 (tickConnection env now cid w).
Proof.
  intros H. unfold tickConnection.
  destruct (_ && _); [now apply steady_abruptRemove, steady_log |].
  unfold getNextNonce, connectionSendPacket. cbn zeta beta iota.
  match goal with
  | |- context [resendLoop now ?r (sentPackets (the ?w2 cid))] =>
      assert (H2 : steady w0 w2) by steady_solve;
      rewrite (resendLoop_spec now r (sentPackets (the w2 cid)));
      generalize dependent w2
  end.
  intros w2 H2. cbn iota. 
  change (steady w0
            (modify cid
               (set_sentPackets (map (refresh now) (sentPackets (the w2 cid))))
               w2)).
  apply steady_modify; [|exact H2]. intros c Hc.
  rewrite (the_Some _ _ _ Hc).
  apply stable_intro; [reflexivity | reflexivity | | exact (fun M => M)].
  intros [Hs Hr]. split; [cbn; now rewrite length_map | exact Hr].
Qed.

Lemma steady_tick_fold (w0 : Worker) (now : Z) (entries : list (string * Z))
      (w : Worker) :
  steady w0 w ->
  steady w0
    (fold_left
       (fun w1 (entry : string * Z) =>
          match mget (fst entry) (connections w1) with
          | Some cid => tickConnection env now cid w1
          | None => w1
          end)
       entries w).
Proof.
  revert w. induction entries as [|e entries IH]; intros w H; [exact H |].
  simpl. apply IH. destruct (mget (fst e) (connections w));
    [now apply steady_tickConnection | exact H].
Qed.

Lemma steady_tick (now : Z) (w : Worker) : steady w (tick env now w).
Proof. rewrite tick_unfold. apply steady_tick_fold, steady_refl. Qed.

End Steady.

(** ** The states that the worker reaches *)

Section Invariant.
Context (env : Env).

Lemma steady_wellFormed (w0 w : Worker) :
  steady w0 w -> wellFormed w0 -> wellFormed w.
Proof.
  intros [Hid [Hreg [Hnd Hobj]]] [Hall [[Hdup Hkey] [Hsound Hown]]].
  assert (Hback : forall id c,
             objects w !! id = Some c ->
             exists c0, objects w0 !! id = Some c0 /\ stable c0 c).
  { intros id c Hc. specialize (Hobj id). rewrite Hc in Hobj.
    destruct (objects w0 !! id) as [c0|]; [|contradiction]. now exists c0. }
  assert (Hforth : forall id c0,
             objects w0 !! id = Some c0 ->
             exists c, objects w !! id = Some c /\ stable c0 c).
  { intros id c0 Hc. specialize (Hobj id). rewrite Hc in Hobj.
    destruct (objects w !! id) as [c|]; [|contradiction]. now exists c. }
  split; [|split; [split |split]].
  - intros id Hlt. rewrite Hid in Hlt. specialize (Hall id Hlt).
    specialize (Hobj id). rewrite Hall in Hobj.
    now destruct (objects w !! id).
  - now apply Hnd.
  - intros k cid Hk. apply Hreg in Hk.
    destruct (Hsound k cid Hk) as [c0 Hc0].
    destruct (Hforth cid c0 Hc0) as [c [Hc [Hr _]]].
    rewrite (the_Some _ _ _ Hc), Hr, <- (the_Some _ _ _ Hc0).
    now apply Hkey.
  - intros k cid Hk. apply Hreg in Hk.
    destruct (Hsound k cid Hk) as [c0 Hc0].
    destruct (Hforth cid c0 Hc0) as [c [Hc _]]. now exists c.
  - intros id c Hc. destruct (Hback id c Hc) as [c0 [Hc0 [_ [Hi [Hd Hm]]]]].
    destruct (Hown id c0 Hc0) as [Hi0 [Hd0 Hm0]].
    split; [congruence |]. split; auto.
Qed.

Lemma mget_None_not_in {V : Type} (k : string) (m : list (string * V)) :
  mget k m = None -> k ∉ map fst m.
Proof.
  induction m as [|[k' v] m IH]; simpl; intros H; [apply not_elem_of_nil |].
  destruct (decide (k' = k)); [discriminate |].
  apply not_elem_of_cons. split; [congruence | now apply IH].
Qed.

Lemma mget_app {V : Type} (k : string) (a b : list (string * V)) :
  mget k (a ++ b)
  = match mget k a with Some v => Some v | None => mget k b end.
Proof.
  induction a as [|[k' v] a IH]; simpl; [reflexivity |].
  now destruct (decide (k' = k)).
Qed.

Lemma createConnection_wellFormed (remote : RemoteInfo) (w : Worker) :
  mget (fmt remote) (connections w) = None ->
  wellFormed w -> wellFormed (snd (createConnection env remote w)).
Proof.
  intros Hnone [Hall [[Hdup Hkey] [Hsound Hown]]].
  destruct (createConnection_spec env remote w Hnone)
    as [w1 [E [Hconn [Hobj [Hlast Heff]]]]].
  rewrite E. cbn [snd]. set (id := lastClientId w + 1) in *.
  assert (Hfresh : objects w !! id = None) by (apply Hall; unfold id; lia).
  assert (Hother : forall k cid,
             mget k (connections w) = Some cid -> cid <> id).
  { intros k cid Hk ->. destruct (Hsound _ _ Hk) as [c Hc]. congruence. }
  assert (Hreg : forall k cid,
             mget k (connections w1) = Some cid ->
             mget k (connections w) = Some cid
             \/ (k = fmt remote /\ cid = id)).
  { intros k cid Hk. rewrite Hconn, mget_app in Hk.
    destruct (mget k (connections w)) as [v|]; [left; congruence |].
    right. simpl in Hk. destruct (decide (fmt remote = k)); [|discriminate].
    inversion Hk; subst. now split. }
  split; [|split; [split |split]].
  - intros id' Hlt. rewrite Hobj, lookup_insert_ne by lia.
    apply Hall. lia.
  - rewrite Hconn, map_app. apply NoDup_app. split; [exact Hdup |]. split.
    + intros x Hx Hin. simpl in Hin. apply list_elem_of_singleton in Hin.
      subst x. now apply (mget_None_not_in _ _ Hnone).
    + simpl. apply NoDup_singleton.
  - intros k cid Hk. unfold the. rewrite Hobj.
    destruct (Hreg _ _ Hk) as [Hold | [-> ->]].
    + rewrite lookup_total_insert_ne by (symmetry; now apply (Hother k)).
      now apply Hkey.
    + now rewrite lookup_total_insert_eq.
  - intros k cid Hk. rewrite Hobj.
    destruct (Hreg _ _ Hk) as [Hold | [-> ->]].
    + rewrite lookup_insert_ne by (symmetry; now apply (Hother k)).
      now apply (Hsound k).
    + rewrite lookup_insert_eq. now eexists.
  - intros id' c Hc. rewrite Hobj in Hc.
    destruct (decide (id = id')) as [<-|Hne].
    + rewrite lookup_insert_eq in Hc. inversion Hc; subst.
      split; [reflexivity |]. split; [split; simpl; lia |].
      split; [reflexivity | simpl; unfold msize; simpl; lia].
    + rewrite lookup_insert_ne in Hc by assumption. now apply Hown.
Qed.

Lemma getOrCreateConnection_wellFormed (remote : RemoteInfo) (w : Worker) :
  wellFormed w -> wellFormed (snd (getOrCreateConnection env remote w)).
Proof.
  intros H. unfold getOrCreateConnection.
  destruct (mget (fmt remote) (connections w)) eqn:E; [exact H |].
  now apply createConnection_wellFormed.
Qed.

Lemma handleMessage_wellFormed (now : Z) (bytes : Buffer)
      (remote : RemoteInfo) (w : Worker) :
  wellFormed w -> wellFormed (handleMessage env now bytes remote w).
Proof.
  intros H. unfold handleMessage.
  destruct (parse env bytes) as [| |packet].
  - pose proof (getOrCreateConnection_wellFormed remote w H) as H1.
    destruct (getOrCreateConnection env remote w) as [cid w1]. exact H1.
  - pose proof (getOrCreateConnection_wellFormed remote w H) as H1.
    destruct (getOrCreateConnection env remote w) as [cid w1]. exact H1.
  - destruct (mget (fmt remote) (connections w)) as [cached|] eqn:Hget.
    + apply (steady_wellFormed w); [|exact H].
      assert (Hmod : forall n w1, steady w w1 ->
                       steady w (modify cached (set_lastNonce n) w1)).
      { intros n w1 H1. apply steady_modify; [|exact H1].
        intros c _. stable_same. }
      destruct (nonceOf packet) as [n|];
        [|apply steady_emitDecoded, steady_refl].
      destruct (isAcknowledge packet);
        [apply steady_emitDecoded, steady_refl |].
      destruct (n <=? lastNonce (the w cached)).
      * destruct (notReactorByte bytes);
          [apply steady_log, steady_refl |].
        apply steady_emitDecoded, Hmod, steady_log, steady_refl.
      * apply steady_emitDecoded, Hmod, steady_refl.
    + destruct (negb (isModdedHello packet)); [exact H |].
      pose proof (createConnection_wellFormed remote w Hget H) as H1.
      destruct (createConnection env remote w) as [connection w1].
      cbn [snd] in H1. apply (steady_wellFormed w1); [|exact H1].
      apply steady_emitDecoded.
      destruct (nonceOf packet); [|apply steady_refl].
      apply steady_modify; [|apply steady_refl]. intros c _. stable_same.
Qed.

Lemma newWorker_wellFormed : wellFormed newWorker.
Proof.
  split; [|split; [split |split]].
  - intros id _. apply lookup_empty.
  - constructor.
  - intros k cid Hk. discriminate.
  - intros k cid Hk. discriminate.
  - intros id c Hc. simpl in Hc. rewrite lookup_empty in Hc. discriminate.
Qed.

Lemma runEvents_wellFormed (events : list Event) (w : Worker) :
  wellFormed w -> wellFormed (runEvents env events w).
Proof.
  unfold runEvents. revert w.
  induction events as [|e events IH]; intros w H; [exact H |].
  simpl. apply IH. destruct e as [now bytes remote | now]; simpl.
  - now apply handleMessage_wellFormed.
  - apply (steady_wellFormed w); [apply steady_tick | exact H].
Qed.

(** X14.  In every state that the worker reaches from its construction,
    by datagrams and turns of the ticker in any order, the registry is
    consistent: it holds a key once; the connection it gives for a key
    exists and is the connection of that endpoint; a connection object
    carries the client id it is known by; and no client id above the last
    one handed out is in use. *)
Theorem reachable_registry_is_consistent (events : list Event) :
  let w := runEvents env events newWorker in
  NoDup (map fst (connections w))
  /\ (forall k cid,
        mget k (connections w) = Some cid ->
        exists c, objects w !! cid = Some c /\ fmt (rinfo c) = k)
  /\ (forall id c,
        objects w !! id = Some c -> clientId c = id /\ id <= lastClientId w).
Proof.
  intros w.
  destruct (runEvents_wellFormed events newWorker newWorker_wellFormed)
    as [Hall [[Hdup Hkey] [Hsound Hown]]]. fold w in Hall, Hdup, Hkey, Hsound, Hown.
  split; [exact Hdup |]. split.
  - intros k cid Hk. destruct (Hsound k cid Hk) as [c Hc]. exists c.
    split; [exact Hc |]. rewrite <- (the_Some _ _ _ Hc). now apply Hkey.
  - intros id c Hc. split; [now apply Hown |].
    destruct (Z_le_gt_dec id (lastClientId w)) as [Hle|Hgt]; [exact Hle |].
    rewrite Hall in Hc by lia. discriminate.
Qed.

(** X15.  In every state that the worker reaches from its construction,
    every connection has at most eight sent packets and at most eight
    received nonces on record, and holds no more mods than its hello
    announced: none at all before its hello. *)
Theorem reachable_connections_are_bounded
        (events : list Event) (id : Z) (c : Connection) :
  objects (runEvents env events newWorker) !! id = Some c ->
  (List.length (sentPackets c) <= 8)%nat
  /\ (List.length (receivedPackets c) <= 8)%nat
  /\ msize (mods c) <= Z.max 0 (numMods c)
  /\ (hasIdentified c = false -> mods c = []).
Proof.
  intros Hc.
  destruct (runEvents_wellFormed events newWorker newWorker_wellFormed)
    as [_ [_ [_ Hown]]].
  destruct (Hown id c Hc) as [_ [[Hs Hr] [Hzero Hsize]]].
  split; [exact Hs |]. split; [exact Hr |]. split; [exact Hsize |].
  intros Hnew. rewrite (Hzero Hnew) in Hsize. unfold msize in Hsize.
  destruct (mods c); [reflexivity | simpl in Hsize; lia].
Qed.

End Invariant.

(** ** The registry *)

Section Registry.
Context (env : Env).

Lemma mget_mset_eq {K V : Type} `{EqDecision K} (k : K) (v : V)
      (m : list (K * V)) :
  mget k (mset k v m) = Some v.
Proof.
  induction m as [|[k' v'] m IH]; simpl.
  - now rewrite decide_True.
  - destruct (decide (k' = k)) as [->|Hne]; simpl.
    + now rewrite decide_True.
    + now rewrite decide_False.
Qed.

Lemma mget_mset_ne {K V : Type} `{EqDecision K} (k k' : K) (v : V)
      (m : list (K * V)) :
  k <> k' -> mget k' (mset k v m) = mget k' m.
Proof.
  intros Hne. induction m as [|[k0 v0] m IH]; simpl.
  - now rewrite decide_False.
  - destruct (decide (k0 = k)) as [->|Hk]; simpl.
    + now rewrite !decide_False.
    + now rewrite IH.
Qed.

(** X16.  [getOrCreateConnection] looks a connection up or registers a
    new one, and asking again gives the same connection.  After the call
    the registry has the connection under the key of the endpoint, every
    other key is as before, and nothing went out.  When the endpoint was
    registered, the worker is unchanged; otherwise the connection is a
    new object whose client id is one more than the last one handed
    out. *)
Theorem getOrCreateConnection_is_idempotent (remote : RemoteInfo) (w : Worker) :
  let cid := fst (getOrCreateConnection env remote w) in
  let w1 := snd (getOrCreateConnection env remote w) in
  mget (fmt remote) (connections w1) = Some cid
  /\ getOrCreateConnection env remote w1 = (cid, w1)
  /\ (forall k, k <> fmt remote ->
        mget k (connections w1) = mget k (connections w))
  /\ effects w1 = effects w
  /\ match mget (fmt remote) (connections w) with
     | Some cached => cid = cached /\ w1 = w
     | None =>
         cid = lastClientId w + 1 /\ lastClientId w1 = cid
         /\ objects w1 = <[cid := newConnection env remote cid]> (objects w)
     end.
Proof.
  unfold getOrCreateConnection.
  destruct (mget (fmt remote) (connections w)) as [cached|] eqn:Hget;
    cbn [fst snd].
  - rewrite Hget. repeat split; reflexivity.
  - unfold createConnection, getNextClientId. cbn [fst snd connections
      with_connections with_objects with_lastClientId objects lastClientId
      effects].
    rewrite mget_mset_eq. repeat split; try reflexivity.
    intros k Hne. now apply mget_mset_ne.
Qed.

End Registry.

(** ** Acknowledgements *)

Section Acknowledgements.
Context (env : Env).

Lemma markAcked_spec (now nonce : Z) (sent : list SentPacket) :
  match markAcked now nonce sent with
  | None => Forall (fun s => sentNonce s <> nonce) sent
  | Some (sent', rtt) =>
      exists pre s post,
        sent = pre ++ s :: post
        /\ Forall (fun s => sentNonce s <> nonce) pre
        /\ sentNonce s = nonce
        /\ sent' = pre ++ ackedEntry s :: post
        /\ rtt = now - sentAt s
  end.
Proof.
  induction sent as [|s rest IH]; simpl; [constructor |].
  destruct (sentNonce s =? nonce) eqn:E.
  - apply Z.eqb_eq in E. exists [], s, rest. repeat split; auto.
  - apply Z.eqb_neq in E.
    destruct (markAcked now nonce rest) as [[rest' rtt]|].
    + destruct IH as [pre [s' [post [-> [Hpre [Hs [-> ->]]]]]]].
      exists (s :: pre), s', post. repeat split; auto.
    + now constructor.
Qed.

(** X17.  An Acknowledge from a registered endpoint is handled whatever
    its nonce is, also one that is not above the last-seen nonce.  It is
    never answered and never logged, it registers nothing, and it leaves
    the last-seen nonce, the received nonces and every other connection
    as they are.  In the deque of sent packets it marks the first entry
    with its nonce as acknowledged, and only that one, and the round trip
    is measured from the time that entry was sent; when no entry has the
    nonce, the connection is unchanged. *)
Theorem acknowledge_marks_first_match
        (now : Z) (bytes : Buffer) (remote : RemoteInfo) (w : Worker)
        (cached : Z) (c : Connection) (nonce : Z) (missing : list Z) :
  mget (fmt remote) (connections w) = Some cached ->
  objects w !! cached = Some c ->
  parse env bytes = Parsed (AcknowledgePacket nonce missing) ->
  let w' := handleMessage env now bytes remote w in
  effects w' = effects w
  /\ connections w' = connections w
  /\ lastClientId w' = lastClientId w
  /\ (forall id, id <> cached -> objects w' !! id = objects w !! id)
  /\ exists c',
      objects w' !! cached = Some c'
      /\ ((Forall (fun s => sentNonce s <> nonce) (sentPackets c) /\ c' = c)
          \/ exists pre s post,
               sentPackets c = pre ++ s :: post
               /\ Forall (fun s => sentNonce s <> nonce) pre
               /\ sentNonce s = nonce
               /\ c' = set_roundTripPing (now - sentAt s)
                         (set_sentPackets (pre ++ ackedEntry s :: post) c)).
Proof.
  intros Hget Hc Hparse w'. unfold w', handleMessage.
  rewrite Hparse, Hget. cbn [nonceOf isAcknowledge emitDecoded].
  unfold onAcknowledge. repeat split.
  - intros id Hne. rewrite objects_modify. now rewrite decide_False.
  - rewrite objects_modify, decide_True, Hc by reflexivity. cbn [fmap option_fmap option_map].
    pose proof (markAcked_spec now nonce (sentPackets c)) as Hm.
    destruct (markAcked now nonce (sentPackets c)) as [[sent' rtt]|].
    + destruct Hm as [pre [s [post [Hs [Hpre [Hn [-> ->]]]]]]].
      eexists. split; [reflexivity |]. right. exists pre, s, post.
      repeat split; assumption.
    + exists c. split; [reflexivity |]. left. now split.
Qed.

Lemma markAcked_first (now nonce : Z) (pre post : list SentPacket)
      (s : SentPacket) :
  Forall (fun p => sentNonce p <> nonce) pre -> sentNonce s = nonce ->
  markAcked now nonce (pre ++ s :: post)
  = Some (pre ++ ackedEntry s :: post, now - sentAt s).
Proof.
  intros Hpre Hs. induction Hpre as [|p pre Hp _ IH]; simpl.
  - now rewrite (proj2 (Z.eqb_eq _ _) Hs).
  - now rewrite (proj2 (Z.eqb_neq _ _) Hp), IH.
Qed.

Lemma acked_not_presumedDead (c : Connection) (s : SentPacket) :
  In s (sentPackets c) -> acked s = true -> presumedDead c = false.
Proof.
  intros Hin Hacked. unfold presumedDead. apply andb_false_iff. right.
  apply not_true_is_false. intros Hall.
  rewrite forallb_forall in Hall. specialize (Hall s Hin).
  now rewrite Hacked in Hall.
Qed.

Lemma deliver_connections (now cid : Z) (packet : RootPacket) (w : Worker) :
  connections (deliver env now cid packet w) = connections w.
Proof.
  unfold deliver.
  destruct (nonceOf packet); [destruct (isAcknowledge packet) |]; reflexivity.
Qed.

Lemma sendAll_connections (calls : list SendCall) (w : Worker) :
  connections (sendAll env calls w) = connections w.
Proof.
  revert w. induction calls as [|[[now to] packet] calls IH]; intros w;
    [reflexivity |].
  change (sendAll env ((now, to, packet) :: calls) w)
    with (sendAll env calls (default w (sendPacket env now to packet w))).
  rewrite IH. unfold sendPacket.
  destruct (writable packet); [apply deliver_connections | reflexivity].
Qed.

(** X18.  An acknowledgement keeps a connection alive for as long as the
    acknowledged packet is on record.  The Acknowledge listener marks the
    first packet on record with the nonce.  Whatever [sendPacket] is then
    called with, as long as the packets recorded for the connection since
    then and those in front of the acknowledged one are fewer than eight,
    the acknowledged packet is still in the deque when the ticker comes
    to the connection: the connection is not presumed dead, however many
    packets are in flight, and the turn of the ticker leaves it
    registered, sends it a ping and records the ping.  (The ping takes
    the next nonce of the connection, as the spec describes
    [getNextNonce], for a counter within the 16 bits of a nonce.) *)
Theorem acknowledged_connection_survives_tick
        (now now' cid nonce : Z) (calls : list SendCall) (w : Worker)
        (c : Connection) (pre post : list SentPacket) (s : SentPacket) :
  objects w !! cid = Some c ->
  sentPackets c = pre ++ s :: post ->
  Forall (fun p => sentNonce p <> nonce) pre ->
  sentNonce s = nonce ->
  (List.length (sentPackets c) <= 8)%nat ->
  (List.length (newEntries env cid calls) + List.length pre < 8)%nat ->
  0 <= Net.nonce c < 65535 ->
  let w1 := sendAll env calls (onAcknowledge now cid nonce w) in
  let w2 := tickConnection env now' cid w1 in
  exists c1,
    objects w1 !! cid = Some c1
    /\ sentPackets c1
       = take 8%nat
           (newEntries env cid calls ++ pre ++ ackedEntry s :: post)
    /\ In (ackedEntry s) (sentPackets c1)
    /\ presumedDead c1 = false
    /\ connections w2 = connections w
    /\ objects w2 !! cid
       = Some (set_sentPackets (map (refresh now') (withPing env now' c1))
                 (set_nonce (Net.nonce c + 1) c1))
    /\ In (SocketSend (rinfo c) (serialize env (PingPacket (Net.nonce c + 1))))
          (effects w2).
Proof.
  intros Hc Hsent Hpre Hs Hlen Hroom Hnonce w1 w2.
  set (c0 := set_roundTripPing (now - sentAt s)
               (set_sentPackets (pre ++ ackedEntry s :: post) c)).
  assert (Hc0 : objects (onAcknowledge now cid nonce w) !! cid = Some c0).
  { unfold onAcknowledge. rewrite objects_modify, decide_True, Hc
      by reflexivity. cbn [fmap option_fmap option_map].
    now rewrite Hsent, (markAcked_first now nonce pre post s Hpre Hs). }
  assert (Hlen0 : (List.length (sentPackets c0) <= 8)%nat).
  { unfold c0. cbn [sentPackets set_roundTripPing set_sentPackets].
    rewrite Hsent in Hlen. rewrite length_app in *. exact Hlen. }
  pose proof (sendAll_lookup env calls _ cid c0 Hc0 Hlen0) as Hc1.
  fold w1 in Hc1.
  set (c1 := set_sentPackets
               (take 8%nat (newEntries env cid calls ++ sentPackets c0)) c0)
    in Hc1.
  assert (Hin : In (ackedEntry s) (sentPackets c1)).
  { unfold c1, c0. cbn [sentPackets set_roundTripPing set_sentPackets].
    apply list_elem_of_In.
    apply (list_elem_of_lookup_2 _
             (List.length (newEntries env cid calls) + List.length pre)).
    rewrite lookup_take_lt by lia.
    rewrite lookup_app_r by lia.
    replace (List.length (newEntries env cid calls) + List.length pre
             - List.length (newEntries env cid calls))%nat
      with (List.length pre + 0)%nat by lia.
    now rewrite lookup_app_r, Nat.add_comm, Nat.add_sub by lia. }
  assert (Hdead : presumedDead c1 = false)
    by (now apply (acked_not_presumedDead c1 (ackedEntry s))).
  exists c1. split; [exact Hc1 |]. split; [reflexivity |].
  split; [exact Hin |]. split; [exact Hdead |].
  destruct (tickConnection_spec env now' cid w1 c1 Hc1) as [Ho [Hconn Heff]].
  fold w2 in Ho, Hconn, Heff.
  rewrite Hdead in Hconn. unfold tickedObject in Ho. rewrite Hdead in Ho.
  split; [rewrite Hconn; unfold w1; now rewrite sendAll_connections |].
  assert (Hnext : nextNonce env c1 = Net.nonce c + 1).
  { unfold nextNonce. change (Net.nonce c1) with (Net.nonce c).
    now rewrite (proj2 (Z.ltb_lt _ _)) by lia. }
  rewrite Hnext in Ho. split; [exact Ho |].
  rewrite Heff. unfold tickedEffects. rewrite Hdead, Hnext.
  apply in_or_app. right. now left.
Qed.

End Acknowledgements.

(** ** Packets that carry a nonce *)

Section Nonced.
Context (env : Env).

Lemma steady_lookup (w0 w : Worker) (id : Z) (c0 : Connection) :
  steady w0 w -> objects w0 !! id = Some c0 ->
  exists c, objects w !! id = Some c /\ rinfo c = rinfo c0.
Proof.
  intros [_ [_ [_ Hobj]]] Hc. specialize (Hobj id). rewrite Hc in Hobj.
  destruct (objects w !! id) as [c|]; [|contradiction].
  exists c. split; [reflexivity | apply Hobj].
Qed.

Lemma onNonced_spec (now cid nonce : Z) (w : Worker) (c : Connection) :
  objects w !! cid = Some c ->
  effects (onNonced env now cid nonce w)
  = effects w
    ++ [SocketSend (rinfo c) (serialize env (AcknowledgePacket nonce []))]
  /\ objects (onNonced env now cid nonce w) !! cid
     = Some (set_receivedPackets (take 8%nat (nonce :: receivedPackets c)) c)
  /\ connections (onNonced env now cid nonce w) = connections w.
Proof.
  intros Hc. unfold onNonced, connectionSendPacket, deliver, socketSend.
  cbn [nonceOf isAcknowledge].
  match goal with
  | |- context [modify cid ?f w] =>
      assert (Ho : objects (modify cid f w) !! cid = Some (f c))
        by (rewrite objects_modify, decide_True, Hc by reflexivity;
            reflexivity);
      assert (Hconn : connections (modify cid f w) = connections w)
        by reflexivity;
      assert (Heff : effects (modify cid f w) = effects w) by reflexivity;
      generalize dependent (modify cid f w)
  end.
  intros w1 Ho Hconn Heff. rewrite (the_Some _ _ _ Ho).
  split; [cbn; now rewrite Heff |]. split; [exact Ho | exact Hconn].
Qed.

(** X19.  A Reliable packet or a Ping from a registered endpoint whose
    nonce is above the last-seen nonce is answered with one Acknowledge.
    The children of a Reliable packet are handed to their listeners
    first; then the Acknowledge, which carries the nonce of the packet,
    goes to the endpoint of the sender as the last thing that happens;
    and the nonce is put in front of the received nonces, of which the
    eight newest are kept. *)
Theorem fresh_packet_is_acknowledged_last
        (now : Z) (bytes : Buffer) (remote : RemoteInfo) (w : Worker)
        (cached : Z) (c : Connection) (packet : RootPacket) (nonce : Z)
        (children : list ChildMessage) :
  mget (fmt remote) (connections w) = Some cached ->
  objects w !! cached = Some c ->
  parse env bytes = Parsed packet ->
  packet = ReliablePacket nonce children
  \/ (packet = PingPacket nonce /\ children = []) ->
  lastNonce c < nonce ->
  let w1 :=
    emitChildren env now cached children
      (modify cached (set_lastNonce nonce) w) in
  let w' := handleMessage env now bytes remote w in
  exists c1,
    objects w1 !! cached = Some c1
    /\ effects w'
       = effects w1
         ++ [SocketSend (rinfo c) (serialize env (AcknowledgePacket nonce []))]
    /\ objects w' !! cached
       = Some (set_receivedPackets (take 8%nat (nonce :: receivedPackets c1))
                 c1)
    /\ connections w' = connections w1.
Proof.
  intros Hget Hc Hparse Hkind Hfresh w1 w'.
  assert (Hsteady : steady w w1).
  { unfold w1. apply steady_emitChildren, steady_modify; [|apply steady_refl].
    intros c0 _. stable_same. }
  destruct (steady_lookup w w1 cached c Hsteady Hc) as [c1 [Hc1 Hr]].
  assert (Hw' : w' = onNonced env now cached nonce w1).
  { unfold w', handleMessage. rewrite Hparse, Hget.
    apply Z.leb_gt in Hfresh.
    destruct Hkind as [-> | [-> ->]]; cbn [nonceOf isAcknowledge];
      rewrite (the_Some _ _ _ Hc), Hfresh; reflexivity. }
  destruct (onNonced_spec now cached nonce w1 c1 Hc1) as [He [Ho Hk]].
  exists c1. rewrite Hw', <- Hr. repeat split; assumption.
Qed.

End Nonced.

(** ** Leaving *)

Section Leaving.
Context (env : Env).

(** X20.  A Disconnect packet from a registered endpoint ends the
    connection.  The endpoint is no longer registered afterwards.  When
    the connection had not started a disconnect itself, one Disconnect
    packet is sent back, and a leave event is emitted when it was in a
    room; when it had, nothing is sent, so that two sides never answer
    each other's Disconnect in turn.  A later datagram from the endpoint
    that decodes to a packet other than a hello is ignored; one that does
    not decode (it is malformed or its root tag is unknown) registers the
    endpoint anew, as a new connection with the next client id.  (What
    [Connection.disconnect] does is as the spec describes it.) *)
Theorem disconnect_packet_ends_the_connection
        (now : Z) (bytes : Buffer) (remote : RemoteInfo) (w : Worker)
        (cached : Z) (c : Connection) (reason : Reason) :
  mget (fmt remote) (connections w) = Some cached ->
  objects w !! cached = Some c ->
  fmt (rinfo c) = fmt remote ->
  parse env bytes = Parsed (DisconnectPacket reason) ->
  let w' := handleMessage env now bytes remote w in
  mget (fmt remote) (connections w') = None
  /\ effects w'
     = effects w
       ++ (if sentDisconnect c then []
           else [SocketSend (rinfo c)
                   (serialize env (DisconnectPacket NoReason));
                 Log LogInfo "Remove %s"]
                ++ match room c with
                   | Some code => [EmitClientLeave cached code]
                   | None => []
                   end)
       ++ [Log LogInfo "Remove %s"]
  /\ (forall now' bytes' packet,
        parse env bytes' = Parsed packet -> isModdedHello packet = false ->
        handleMessage env now' bytes' remote w' = w')
  /\ (forall now' bytes',
        parse env bytes' = Malformed \/ parse env bytes' = UnknownRoot ->
        let w'' := handleMessage env now' bytes' remote w' in
        mget (fmt remote) (connections w'') = Some (lastClientId w + 1)
        /\ objects w'' !! (lastClientId w + 1)
           = Some (newConnection env remote (lastClientId w + 1))).
Proof.
  intros Hget Hc Hr Hparse w'.
  assert (Hw' : w' = onDisconnect env now cached w).
  { unfold w', handleMessage. now rewrite Hparse, Hget. }
  assert (Hnone : mget (fmt remote) (connections w') = None).
  { rewrite Hw'. unfold onDisconnect. rewrite (the_Some _ _ _ Hc).
    destruct (sentDisconnect c); cbn [negb].
    - cbn. rewrite (the_Some _ _ _ Hc), Hr. apply mget_mdelete.
    - cbn [removeConnection log emit connections with_effects
             with_connections].
      rewrite (the_Some _ _ _ (disconnect_lookup env now cached NoReason w c Hc)).
      cbn [rinfo set_sentDisconnect]. rewrite Hr. apply mget_mdelete. }
  split; [exact Hnone |]. split; [|split].
  - rewrite Hw'. unfold onDisconnect. rewrite (the_Some _ _ _ Hc).
    destruct (sentDisconnect c); cbn [negb].
    + reflexivity.
    + cbn [removeConnection log emit effects with_effects with_connections].
      rewrite disconnect_effects, (the_Some _ _ _ Hc).
      now rewrite <- !app_assoc.
  - intros now' bytes' packet Hp Hhello. unfold handleMessage.
    now rewrite Hp, Hnone, Hhello.
  - intros now' bytes' Hbad w''.
    assert (Hid : lastClientId w' = lastClientId w).
    { rewrite Hw'.
      exact (proj1 (keeps_onDisconnect env w now cached w (keeps_refl w))). }
    pose proof (unknown_endpoint_registration env now' bytes' remote w' Hnone)
      as Hnew.
    cbn zeta in Hnew. fold w'' in Hnew. rewrite Hid in Hnew.
    assert (Hboth : connections w''
                    = connections w' ++ [(fmt remote, lastClientId w + 1)]
                    /\ objects w'' !! (lastClientId w + 1)
                       = Some (newConnection env remote (lastClientId w + 1)))
      by (destruct Hbad as [E | E]; rewrite E in Hnew; exact Hnew).
    destruct Hboth as [Hconn Hobj]. split; [|exact Hobj].
    rewrite Hconn, mget_app, Hnone. cbn. now rewrite decide_True.
Qed.

End Leaving.

(** ** The hello *)

Section Hello.
Context (env : Env).

Lemma count_app (p : Effect -> bool) (w w' : Worker) (es : list Effect) :
  effects w' = effects w ++ es ->
  count p w' = (count p w + List.length (List.filter p es))%nat.
Proof.
  intros H. unfold count. now rewrite H, List.filter_app, length_app.
Qed.

Lemma sameButSent_refl (c : Connection) : sameButSent c c.
Proof. reflexivity. Qed.

Lemma sameButSent_trans (c0 c1 c2 : Connection) :
  sameButSent c0 c1 -> sameButSent c1 c2 -> sameButSent c0 c2.
Proof. unfold sameButSent. congruence. Qed.

Lemma sends_refl (cid : Z) (w : Worker) : sends cid w w.
Proof.
  repeat split; try reflexivity.
  - exists []. now rewrite app_nil_r.
  - intros c0 Hc. exists c0. now split.
Qed.

Lemma sends_log (cid : Z) (w0 : Worker) (level : LogLevel) (message : string)
      (w : Worker) :
  sends cid w0 w -> sends cid w0 (log level message w).
Proof.
  intros [Hk [Hc [Hd [[es He] Ho]]]]. unfold log.
  split; [exact Hk |]. split; [now rewrite count_emit, Hc, Nat.add_0_r |].
  split; [now rewrite count_emit, Hd, Nat.add_0_r |]. split; [|exact Ho].
  exists (es ++ [Log level message]). cbn. now rewrite He, <- app_assoc.
Qed.

Lemma sends_modify (cid : Z) (w0 : Worker) (f : Connection -> Connection)
      (w : Worker) :
  (forall c, sameButSent c (f c)) ->
  sends cid w0 w -> sends cid w0 (modify cid f w).
Proof.
  intros Hf [Hk [Hc [Hd [He Ho]]]]. repeat split; try assumption.
  intros c0 Hc0. destruct (Ho c0 Hc0) as [c [Hobj Hs]].
  exists (f c). rewrite objects_modify, decide_True, Hobj by reflexivity.
  split; [reflexivity |]. eapply sameButSent_trans; [exact Hs | apply Hf].
Qed.

Lemma sends_deliver (cid : Z) (w0 : Worker) (now : Z) (packet : RootPacket)
      (w : Worker) :
  (tag packet =? 9) = false ->
  sends cid w0 w -> sends cid w0 (deliver env now cid packet w).
Proof.
  intros Htag H.
  assert (Hemit : forall r w1, sends cid w0 w1 ->
                    sends cid w0 (socketSend r (serialize env packet) w1)).
  { intros r w1 [Hk [Hc [Hd [[es He] Ho]]]]. unfold socketSend.
    split; [exact Hk |].
    split; [now rewrite count_emit, Hc, Nat.add_0_r |].
    split; [rewrite count_emit, Hd; cbn; rewrite Htag; lia |].
    split; [|exact Ho].
    eexists (es ++ [_]). cbn. now rewrite He, <- app_assoc. }
  unfold deliver. destruct (nonceOf packet); [|now apply Hemit].
  destruct (isAcknowledge packet); apply Hemit; [exact H |].
  apply sends_modify; [reflexivity | exact H].
Qed.

Lemma sends_getNextNonce (cid : Z) (w0 w : Worker) :
  sends cid w0 w -> sends cid w0 (snd (getNextNonce env cid w)).
Proof. intros H. apply sends_modify; [reflexivity | exact H]. Qed.

Lemma sends_sendPluginChunks (cid : Z) (w0 : Worker) (now i : Z)
      (chunks : list (list (string * string))) (w : Worker) :
  sends cid w0 w -> sends cid w0 (sendPluginChunks env now cid i chunks w).
Proof.
  revert i w. induction chunks as [|chunk more IH]; intros i w H; [exact H |].
  cbn [sendPluginChunks]. unfold getNextNonce, connectionSendPacket.
  cbn zeta beta iota. apply IH. apply sends_deliver; [reflexivity |].
  apply sends_modify; [reflexivity | exact H].
Qed.

Lemma hello_rejected (now cid : Z) (reason : Reason) (w1 : Worker)
      (c1 : Connection) :
  objects w1 !! cid = Some c1 ->
  let w' := disconnect env now cid reason w1 in
  objects w' !! cid = Some (set_sentDisconnect true c1)
  /\ connections w' = mdelete (fmt (rinfo c1)) (connections w1)
  /\ In (SocketSend (rinfo c1) (serialize env (DisconnectPacket reason)))
        (effects w')
  /\ count isClientConnect w' = count isClientConnect w1.
Proof.
  intros Hc w'. split; [now apply disconnect_lookup |].
  split; [unfold w'; now rewrite disconnect_connections, (the_Some _ _ _ Hc) |].
  pose proof (disconnect_effects env now cid reason w1) as He.
  rewrite (the_Some _ _ _ Hc) in He. fold w' in He. split.
  - rewrite He. apply in_or_app. right. now left.
  - rewrite (count_app _ _ _ _ He). destruct (room c1); cbn; lia.
Qed.

(** X21.  The hello of a connection is taken in once.  A second hello
    changes nothing.  The first one records the version, the name, the
    language and the kind of the client, and is then decided by the
    version and the policy alone.  A client with a version that the
    server does not list, a modded client on a server without Reactor
    and a normal client on a server that requires Reactor are sent a
    Disconnect packet with the reason and are removed from the registry,
    and no connect event is emitted.  Every other client stays
    registered, is sent no Disconnect packet, and one connect event is
    emitted for it, as the last thing that happens.  (What
    [Connection.disconnect] does is as the spec describes it.) *)
Theorem hello_is_decided_by_version_and_policy
        (now cid clientver : Z) (uname : string) (lang : Z)
        (modcount : option Z) (w : Worker) (c : Connection) :
  objects w !! cid = Some c ->
  let w' := onModdedHello env now cid clientver uname lang modcount w in
  let c1 := identified clientver uname lang modcount c in
  if hasIdentified c then w' = w
  else
    match helloVerdict env clientver modcount with
    | Some reason =>
        objects w' !! cid = Some (set_sentDisconnect true c1)
        /\ connections w' = mdelete (fmt (rinfo c)) (connections w)
        /\ In (SocketSend (rinfo c) (serialize env (DisconnectPacket reason)))
              (effects w')
        /\ count isClientConnect w' = count isClientConnect w
    | None =>
        (exists c', objects w' !! cid = Some c' /\ sameButSent c1 c')
        /\ connections w' = connections w
        /\ count isDisconnectSend w' = count isDisconnectSend w
        /\ count isClientConnect w' = S (count isClientConnect w)
        /\ exists before, effects w' = effects w ++ before ++ [EmitClientConnect cid]
    end.
Proof.
  intros Hc w' c1. unfold w', onModdedHello. rewrite (the_Some _ _ _ Hc).
  destruct (hasIdentified c) eqn:Hnew; [reflexivity |].
  fold (identified clientver uname lang modcount).
  set (w1 := modify cid (identified clientver uname lang modcount) w).
  assert (Hc1 : objects w1 !! cid = Some c1).
  { unfold w1. now rewrite objects_modify, decide_True, Hc by reflexivity. }
  assert (Hr : rinfo c1 = rinfo c) by (unfold c1; now destruct modcount).
  assert (Hreject : forall reason level message,
             let w' := disconnect env now cid reason (log level message w1) in
             objects w' !! cid = Some (set_sentDisconnect true c1)
             /\ connections w' = mdelete (fmt (rinfo c)) (connections w)
             /\ In (SocketSend (rinfo c)
                      (serialize env (DisconnectPacket reason))) (effects w')
             /\ count isClientConnect w' = count isClientConnect w).
  { intros reason level message.
    destruct (hello_rejected now cid reason (log level message w1) c1 Hc1)
      as [Ho [Hk [Hi Hn]]].
    rewrite Hr in Hk, Hi. repeat split; try assumption.
    rewrite Hn. unfold log. now rewrite count_emit, Nat.add_0_r. }
  assert (Haccept : forall w2,
             sends cid (log LogInfo "%s connected, language: %s" w1) w2 ->
             let w' := emit (EmitClientConnect cid) w2 in
             (exists c', objects w' !! cid = Some c' /\ sameButSent c1 c')
             /\ connections w' = connections w
             /\ count isDisconnectSend w' = count isDisconnectSend w
             /\ count isClientConnect w' = S (count isClientConnect w)
             /\ exists before,
                 effects w' = effects w ++ before ++ [EmitClientConnect cid]).
  { intros w2 [Hk [Hn [Hd [[es He] Ho]]]].
    assert (Hcnt : forall p, count p w1 = count p w) by reflexivity.
    split; [now apply Ho |]. split; [exact Hk |].
    split; [rewrite count_emit, Hd; unfold log;
            now rewrite count_emit, Hcnt, !Nat.add_0_r |].
    split; [rewrite count_emit, Hn; unfold log; rewrite count_emit, Hcnt;
            cbn; lia |].
    eexists (_ :: es). cbn. rewrite He. cbn.
    now rewrite <- !app_assoc. }
  unfold helloVerdict.
  destruct (bool_decide (clientver ∈ validVersions env)); cbn [negb];
    [|apply Hreject].
  destruct modcount as [m|], (reactor env) as [| |o];
    try apply Hreject; try (apply Haccept, sends_refl).
  - unfold getNextNonce, connectionSendPacket. cbn zeta beta iota.
    apply Haccept, sends_sendPluginChunks, sends_deliver; [reflexivity |].
    apply sends_modify; [reflexivity | apply sends_refl].
  - unfold getNextNonce, connectionSendPacket. cbn zeta beta iota.
    apply Haccept, sends_sendPluginChunks, sends_deliver; [reflexivity |].
    apply sends_modify; [reflexivity | apply sends_refl].
  - destruct (allowNormalClients o); cbn [negb];
      [apply Haccept, sends_refl | apply Hreject].
Qed.

End Hello.

(** ** The mod check and the join *)

Section Joining.
Context (env : Env).

Lemma count_disconnect_wire (p : Effect -> bool) (now cid : Z)
      (reason : Reason) (w : Worker) :
  (forall e, isWire e = true -> p e = false) ->
  count p (disconnect env now cid reason w) = count p w.
Proof.
  intros Hp.
  rewrite (count_app _ _ _ _ (disconnect_effects env now cid reason w)).
  cbn [List.filter app]. rewrite !Hp by reflexivity.
  destruct (room (the w cid)); cbn [List.filter app];
    rewrite ?Hp by reflexivity; cbn; lia.
Qed.

Lemma count_disconnect_sent (now cid : Z) (reason : Reason) (w : Worker) :
  count isDisconnectSend (disconnect env now cid reason w)
  = S (count isDisconnectSend w).
Proof.
  rewrite (count_app _ _ _ _ (disconnect_effects env now cid reason w)).
  destruct (room (the w cid)); cbn; lia.
Qed.

Lemma checkConfigEntries_wire (p : Effect -> bool) (now cid : Z)
      (entries : list (string * ModConfig)) (w : Worker) :
  (forall e, isWire e = true -> p e = false) ->
  count p (snd (checkConfigEntries env now cid entries w)) = count p w.
Proof.
  intros Hp. revert w.
  induction entries as [|[entryId modConfig] more IH]; intros w;
    [reflexivity |].
  cbn [checkConfigEntries].
  repeat match goal with
         | |- context [match ?x with _ => _ end] =>
             lazymatch x with
             | checkConfigEntries _ _ _ _ _ => fail
             | _ => destruct x
             end
         end;
    cbn [snd]; rewrite ?IH, ?count_disconnect_wire by assumption;
    reflexivity.
Qed.

Lemma checkClientMods_wire (p : Effect -> bool) (now cid : Z) (w : Worker) :
  (forall e, isWire e = true -> p e = false) ->
  count p (snd (checkClientMods env now cid w)) = count p w.
Proof.
  intros Hp. unfold checkClientMods.
  destruct (negb (usingReactor (the w cid))); [reflexivity |].
  destruct (msize (mods (the w cid)) <? numMods (the w cid));
    [cbn [snd]; now apply count_disconnect_wire |].
  destruct (reactor env) as [| |o];
    [cbn [snd]; now apply count_disconnect_wire | reflexivity |].
  pose proof (checkConfigEntries_wire p now cid (modsConfig o) w Hp) as Hc.
  destruct (checkConfigEntries env now cid (modsConfig o) w) as [[r|] w1];
    cbn [snd] in *; [exact Hc |].
  destruct (negb (allowExtraMods o)); [|exact Hc].
  destruct (firstExtraMod _ _); cbn [snd]; [|exact Hc].
  now rewrite count_disconnect_wire.
Qed.

Lemma checkConfigEntries_disconnects (now cid : Z)
      (entries : list (string * ModConfig)) (w : Worker) :
  let r := checkConfigEntries env now cid entries w in
  (snd r = w
   \/ (count isDisconnectSend w < count isDisconnectSend (snd r))%nat)
  /\ (fst r = Some (Some false) ->
      (count isDisconnectSend w < count isDisconnectSend (snd r))%nat).
Proof.
  revert w. induction entries as [|[entryId modConfig] more IH]; intros w.
  - cbn. split; [now left | discriminate].
  - assert (Hstep : forall reason,
               let r :=
                 checkConfigEntries env now cid more
                   (disconnect env now cid reason w) in
               (snd r = w
                \/ (count isDisconnectSend w
                    < count isDisconnectSend (snd r))%nat)
               /\ (fst r = Some (Some false) ->
                   (count isDisconnectSend w
                    < count isDisconnectSend (snd r))%nat)).
    { intros reason r. subst r.
      destruct (IH (disconnect env now cid reason w)) as [[E | Hlt] _];
        assert (count isDisconnectSend w
                < count isDisconnectSend
                    (snd (checkConfigEntries env now cid more
                            (disconnect env now cid reason w))))%nat
        by (try rewrite E; rewrite ?count_disconnect_sent in *; lia);
        split; auto. }
    assert (Hfail : forall reason,
               (disconnect env now cid reason w = w
                \/ (count isDisconnectSend w
                    < count isDisconnectSend
                        (disconnect env now cid reason w))%nat)
               /\ (Some (Some false) = Some (Some false) ->
                   (count isDisconnectSend w
                    < count isDisconnectSend
                        (disconnect env now cid reason w))%nat)).
    { intros reason. rewrite count_disconnect_sent. split; auto. }
    cbn [checkConfigEntries].
    destruct (mget entryId (mods (the w cid))) as [clientMod|],
      modConfig as [| |version banned optional];
      try apply Hstep; try apply IH; try apply Hfail.
    + destruct banned; [apply Hfail |].
      destruct version as [v|]; [|apply IH].
      destruct (Js.truthy v && negb (minimatch env (modVersion clientMod) v));
        [apply Hfail | apply IH].
    + cbn. split; [now left | discriminate].
    + destruct (negb optional); [apply Hstep | apply IH].
Qed.

Lemma disconnect_the_proj {A : Type} (proj : Connection -> A)
      (now cid id : Z) (reason : Reason) (w : Worker) :
  (forall c, proj (set_sentDisconnect true c) = proj c) ->
  proj (the (disconnect env now cid reason w) id) = proj (the w id).
Proof.
  intros Hproj.
  unfold disconnect, removeConnection, log, connectionSendPacket, deliver,
    socketSend, emit. cbn [nonceOf].
  match goal with
  | |- context [room (the ?w0 cid)] => destruct (room (the w0 cid))
  end; exact (the_modify_proj proj (set_sentDisconnect true) cid id w Hproj).
Qed.

(** The loop over the policy ends without an answer only at an entry
    that is [false] for a mod that the client does not have. *)
Lemma checkConfigEntries_undefined (now cid : Z)
      (entries : list (string * ModConfig)) (w : Worker) :
  fst (checkConfigEntries env now cid entries w) = Some None ->
  exists entryId,
    In (entryId, ModFalse) entries
    /\ mget entryId (mods (the w cid)) = None.
Proof.
  revert w. induction entries as [|[entryId modConfig] more IH]; intros w;
    [discriminate |].
  assert (Hnext : forall w1,
             mods (the w1 cid) = mods (the w cid) ->
             fst (checkConfigEntries env now cid more w1) = Some None ->
             exists entryId0,
               In (entryId0, ModFalse) ((entryId, modConfig) :: more)
               /\ mget entryId0 (mods (the w cid)) = None).
  { intros w1 Hmods H. destruct (IH w1 H) as [e [Hin Hget]].
    exists e. split; [now right | now rewrite <- Hmods]. }
  assert (Hdisc : forall reason,
             mods (the (disconnect env now cid reason w) cid)
             = mods (the w cid))
    by (intros reason; now apply disconnect_the_proj).
  cbn [checkConfigEntries].
  destruct (mget entryId (mods (the w cid))) as [clientMod|] eqn:Hget,
    modConfig as [| |version banned optional]; cbn [fst];
    try discriminate; try (apply Hnext; auto; fail).
  - destruct banned; [discriminate |].
    destruct version as [v|]; [|now apply Hnext].
    destruct (Js.truthy v && negb (minimatch env (modVersion clientMod) v));
      [discriminate | now apply Hnext].
  - intros _. exists entryId. split; [now left | exact Hget].
  - destruct (negb optional); apply Hnext; auto.
Qed.

(** X22.  When the mod check answers [false], it has sent the client a
    Disconnect packet.  A check that sends no Disconnect packet leaves the
    worker exactly as it was; and for a client that does not use Reactor
    the answer is [true] and the worker is unchanged, whatever the
    policy.  The check can also end without an answer: only at a policy
    entry that is [false] for a mod that the client has not declared.
    When that is the first entry of the policy, nothing at all has
    happened by then, and the JoinGame listener drops the join of a client
    with Reactor without a Disconnect packet, a join error or a log line.
    When extra mods are not allowed, a mod of the client without a policy
    entry is turned away, unless its id is the name of a property that a
    plain object inherits, such as [constructor]: the lookup in the policy
    finds that property.  (What [Connection.disconnect] does is as the
    spec describes it.) *)
Theorem failed_mod_check_disconnects (now cid : Z) (w : Worker) :
  let r := checkClientMods env now cid w in
  (fst r = Some false ->
   (count isDisconnectSend w < count isDisconnectSend (snd r))%nat)
  /\ (snd r = w
      \/ (count isDisconnectSend w < count isDisconnectSend (snd r))%nat)
  /\ (usingReactor (the w cid) = false -> r = (Some true, w))
  /\ (fst r = None ->
      exists o entryId,
        reactor env = ReactorObj o
        /\ In (entryId, ModFalse) (modsConfig o)
        /\ mget entryId (mods (the w cid)) = None)
  /\ (forall o entryId more code,
        reactor env = ReactorObj o ->
        modsConfig o = (entryId, ModFalse) :: more ->
        usingReactor (the w cid) = true ->
        numMods (the w cid) <= msize (mods (the w cid)) ->
        mget entryId (mods (the w cid)) = None ->
        r = (None, w)
        /\ (room (the w cid) = None -> onJoinGame env now cid code w = w))
  /\ (forall o clientMod,
        reactor env = ReactorObj o ->
        modsConfig o = [] -> allowExtraMods o = false ->
        usingReactor (the w cid) = true ->
        numMods (the w cid) <= 1 ->
        mods (the w cid) = [(modId clientMod, clientMod)] ->
        r = if bool_decide (modId clientMod ∈ objectPrototypeNames)
            then (Some true, w)
            else (Some false,
                  disconnect env now cid
                    (Localized mod_not_recognised [modId clientMod]) w))
  /\ (bool_decide ("constructor" ∈ objectPrototypeNames) = true
      /\ bool_decide ("toString" ∈ objectPrototypeNames) = true
      /\ bool_decide ("__proto__" ∈ objectPrototypeNames) = true
      /\ bool_decide ("modA" ∈ objectPrototypeNames) = false).
Proof.
  intros r.
  assert (Hextra : forall o clientMod,
             reactor env = ReactorObj o ->
             modsConfig o = [] -> allowExtraMods o = false ->
             usingReactor (the w cid) = true ->
             numMods (the w cid) <= 1 ->
             mods (the w cid) = [(modId clientMod, clientMod)] ->
             r = if bool_decide (modId clientMod ∈ objectPrototypeNames)
                 then (Some true, w)
                 else (Some false,
                       disconnect env now cid
                         (Localized mod_not_recognised [modId clientMod]) w)).
  { intros o clientMod Hcfg Hmods Hextra Hreactor Hnum Hdeclared.
    unfold r, checkClientMods. rewrite Hreactor, Hdeclared. cbn [negb].
    assert (Hall : (msize [(modId clientMod, clientMod)]
                    <? numMods (the w cid)) = false)
      by (apply Z.ltb_ge; unfold msize; simpl; lia).
    rewrite Hall, Hcfg, Hmods, Hextra. cbn [checkConfigEntries negb].
    rewrite Hdeclared. cbn [firstExtraMod]. unfold unrecognised.
    cbn [mget].
    now destruct (bool_decide (modId clientMod ∈ objectPrototypeNames)). }
  assert (Hsilent : forall o entryId more code,
             reactor env = ReactorObj o ->
             modsConfig o = (entryId, ModFalse) :: more ->
             usingReactor (the w cid) = true ->
             numMods (the w cid) <= msize (mods (the w cid)) ->
             mget entryId (mods (the w cid)) = None ->
             r = (None, w)
             /\ (room (the w cid) = None ->
                 onJoinGame env now cid code w = w)).
  { intros o entryId more code Hcfg Hmods Hreactor Hall Hget.
    assert (Hr : r = (None, w)).
    { unfold r, checkClientMods. rewrite Hreactor. cbn [negb].
      rewrite (proj2 (Z.ltb_ge _ _) Hall), Hcfg, Hmods.
      cbn [checkConfigEntries]. now rewrite Hget. }
    split; [exact Hr |]. intros Hroom. unfold onJoinGame.
    rewrite Hroom. fold r. now rewrite Hr. }
  cut ((fst r = Some false ->
        (count isDisconnectSend w < count isDisconnectSend (snd r))%nat)
       /\ (snd r = w
           \/ (count isDisconnectSend w < count isDisconnectSend (snd r))%nat)
       /\ (usingReactor (the w cid) = false -> r = (Some true, w))
       /\ (fst r = None ->
           exists o entryId,
             reactor env = ReactorObj o
             /\ In (entryId, ModFalse) (modsConfig o)
             /\ mget entryId (mods (the w cid)) = None)).
  { intros [H1 [H2 [H3 H4]]].
    split; [exact H1 |]. split; [exact H2 |]. split; [exact H3 |].
    split; [exact H4 |]. split; [exact Hsilent |]. split; [exact Hextra |].
    repeat split; reflexivity. }
  clear Hsilent Hextra. unfold r, checkClientMods.
  assert (Hfail : forall reason,
             (count isDisconnectSend w
              < count isDisconnectSend (disconnect env now cid reason w))%nat)
    by (intros reason; rewrite count_disconnect_sent; lia).
  destruct (usingReactor (the w cid)); cbn [negb];
    [|split; [discriminate | split; [now left | split; [reflexivity | discriminate]]]].
  destruct (msize (mods (the w cid)) <? numMods (the w cid));
    [cbn [fst snd];
     split; [auto | split; [auto | split; discriminate]] |].
  destruct (reactor env) as [| |o] eqn:Hcfg;
    [cbn [fst snd]; split; [auto | split; [auto | split; discriminate]]
    |cbn [fst snd];
     split; [discriminate | split; [now left | split; discriminate]] |].
  destruct (checkConfigEntries_disconnects now cid (modsConfig o) w)
    as [Hsame Hfalse].
  pose proof (checkConfigEntries_undefined now cid (modsConfig o) w) as Hundef.
  destruct (checkConfigEntries env now cid (modsConfig o) w) as [[res|] w1];
    cbn [fst snd] in *.
  - split; [intros ->; now apply Hfalse |].
    split; [exact Hsame |]. split; [discriminate |].
    intros ->. destruct (Hundef eq_refl) as [entryId [Hin Hget]].
    now exists o, entryId.
  - assert (Hle : (count isDisconnectSend w <= count isDisconnectSend w1)%nat)
      by (destruct Hsame as [-> | Hlt]; lia).
    destruct (negb (allowExtraMods o));
      [|cbn [fst snd];
        split; [discriminate | split; [exact Hsame | split; discriminate]]].
    destruct (firstExtraMod _ _) as [clientMod|]; cbn [fst snd];
      [|split; [discriminate | split; [exact Hsame | split; discriminate]]].
    pose proof (count_disconnect_sent now cid
                  (Localized mod_not_recognised [modId clientMod]) w1)
      as Hsent.
    split; [intros _; lia | split; [right; lia | split; discriminate]].
Qed.

Lemma isWire_not_roomCall (e : Effect) : isWire e = true -> isRoomCall e = false.
Proof. now destruct e. Qed.

(** X23.  The JoinGame listener calls into a room only for a client that
    is eligible.  Either it makes no call into any room at all; or the
    client was in no room, passed the mod check, the join was not
    canceled, the room to join exists, the client is not banned from it,
    the room is not full and its game has not started, the requirement on
    the mods of the host is met, and the one thing that follows the check
    is the remote join of that room by that client. *)
Theorem join_admits_only_eligible (now cid code : Z) (w : Worker) :
  let w' := onJoinGame env now cid code w in
  count isRoomCall w' = count isRoomCall w
  \/ exists w1 target r,
      room (the w cid) = None
      /\ checkClientMods env now cid w = (Some true, w1)
      /\ beforeJoin env cid code (option_map roomCode (mget code (rooms w1)))
         = (false, Some target)
      /\ mget target (rooms w1) = Some r
      /\ (connectionAddress w1 cid ∉ bans r)
      /\ Z.of_nat (List.length (members r)) < maxPlayers r
      /\ state r <> Started
      /\ hostRequirementError env w1 cid r = None
      /\ w' = emit (RoomHandleRemoteJoin (roomCode r) cid)
                (log LogInfo "%s joining room %s" w1).
Proof.
  intros w'. unfold w', onJoinGame.
  destruct (room (the w cid)) eqn:Hroom; [now left |].
  pose proof (checkClientMods_wire isRoomCall now cid w isWire_not_roomCall)
    as Hcheck.
  destruct (checkClientMods env now cid w) as [[[|]|] w1] eqn:Hmods;
    cbn [snd] in Hcheck; [|left; exact Hcheck ..].
  destruct (beforeJoin env cid code (option_map roomCode (mget code (rooms w1))))
    as [canceled alteredCode] eqn:Hhook.
  destruct canceled; [left; exact Hcheck |].
  destruct alteredCode as [target|]; cbn [mbind option_bind];
    [|left; unfold joinError, log; rewrite !count_emit, Hcheck; cbn [isRoomCall]; lia].
  destruct (mget target (rooms w1)) as [r|] eqn:Hfound;
    [|left; unfold joinError, log; rewrite !count_emit, Hcheck; cbn [isRoomCall]; lia].
  destruct (bool_decide (connectionAddress w1 cid ∈ bans r)) eqn:Hban.
  { left. rewrite count_disconnect_wire by apply isWire_not_roomCall.
    unfold log. rewrite count_emit, Hcheck. cbn [isRoomCall]. lia. }
  apply bool_decide_eq_false in Hban.
  destruct (maxPlayers r <=? Z.of_nat (List.length (members r))) eqn:Hfull;
    [left; unfold joinError, log; rewrite !count_emit, Hcheck; cbn [isRoomCall]; lia |].
  apply Z.leb_gt in Hfull.
  destruct (hostRequirementError env w1 cid r) as [e|] eqn:Hhost.
  - left. destruct (state r); unfold joinError, log;
      rewrite ?count_emit, Hcheck; cbn [isRoomCall]; lia.
  - destruct (state r) eqn:Hstate;
      try (right; exists w1, target, r; repeat split; auto; congruence).
    left. unfold joinError, log. rewrite !count_emit, Hcheck.
    cbn [isRoomCall]. lia.
Qed.

(** X24.  What the host may do.  For an AlterGame, StartGame or EndGame
    message from the host of a room, the worker disconnects nobody: it
    has the room decode the message and broadcasts it again with the code
    of the room of the sender in place of the code that the message
    carries, and an EndGame is broadcast without its advertisement flag.
    A KickPlayer message from the host has no effect in the worker.
    (The player of a connection and its host flag are as the spec
    describes [getPlayer].) *)
Theorem host_messages_are_rebroadcast
        (now cid : Z) (message : ChildMessage) (w : Worker) (r : Room) :
  hostOnly message = true ->
  getPlayer w cid = Some (r, true) ->
  let w' := emitChild env now cid message w in
  exists code,
    room (the w cid) = Some code
    /\ mget code (rooms w) = Some r
    /\ hostid r = cid
    /\ w' = match rebroadcastOf code message with
            | Some again =>
                emit (RoomBroadcast (roomCode r) [again])
                  (emit (RoomDecode (roomCode r) message cid)
                     (emit (Dispatch cid message) w))
            | None => emit (Dispatch cid message) w
            end.
Proof.
  intros Hhost Hplayer w'.
  assert (Hp : getPlayer (emit (Dispatch cid message) w) cid = Some (r, true))
    by exact Hplayer.
  unfold getPlayer in Hplayer.
  destruct (room (the w cid)) as [code|] eqn:Hroom; [|discriminate].
  destruct (mget code (rooms w)) as [r0|] eqn:Hfound; [|discriminate].
  destruct (bool_decide (cid ∈ members r0)); [|discriminate].
  inversion Hplayer as [[Hr Hid]]. subst r0.
  apply bool_decide_eq_true in Hid.
  exists code. split; [reflexivity |]. split; [exact Hfound |].
  split; [exact Hid |].
  unfold w'. destruct message; try discriminate; cbn [emitChild rebroadcastOf];
    unfold onHostOnly, onKickPlayer, ownRoomCode; rewrite Hp;
    cbn [negb]; try reflexivity;
    change (the (emit ?e w) cid) with (the w cid); now rewrite Hroom.
Qed.

End Joining.

(** ** Rooms *)

Section RoomCodes.

Lemma drawLoop_spec (gen : nat -> Z) (fuel k : nat) (rooms : list (Z * Room)) :
  match drawLoop gen fuel k rooms with
  | Some code =>
      exists j, (k <= j < k + fuel)%nat /\ code = gen j
                /\ mget code rooms = None
                /\ forall i, (k <= i < j)%nat -> mget (gen i) rooms <> None
  | None => forall i, (k <= i < k + fuel)%nat -> mget (gen i) rooms <> None
  end.
Proof.
  revert k. induction fuel as [|fuel IH]; intros k; simpl; [intros i; lia |].
  destruct (mget (gen k) rooms) as [r|] eqn:E.
  - specialize (IH (S k)).
    assert (Hk : forall i, (k <= i)%nat -> i <> k -> (S k <= i)%nat)
      by (intros; lia).
    destruct (drawLoop gen fuel (S k) rooms) as [code|].
    + destruct IH as [j [Hj [-> [Hfree Htaken]]]]. exists j.
      split; [lia |]. split; [reflexivity |]. split; [exact Hfree |].
      intros i Hi. destruct (decide (i = k)) as [->|Hne]; [congruence |].
      apply Htaken. lia.
    + intros i Hi. destruct (decide (i = k)) as [->|Hne]; [congruence |].
      apply IH. lia.
  - exists k. split; [lia |]. split; [reflexivity |]. split; [exact E |].
    intros i Hi. lia.
Qed.

(** X25.  Room codes.  [generateRoomCode] throws a RangeError for a
    length other than 4 and 6 and throws nothing else.  A code it
    returns is the first draw of the generator that is not the code of a
    room; when it has not returned within its fuel, every draw so far
    was taken, so that a free draw within the fuel gives a result.
    [createRoom] with a generated code succeeds: the room is registered
    under the code, not started and without members; every other code,
    the connections and the outside are as before; and creating a room
    with the same code again fails with an error. *)
Theorem generated_code_is_free_and_creates_a_room
        (v1Gen v2Gen : nat -> Z) (fuel : nat) (len : Z) (w : Worker)
        (int2code : Z -> string) (options : GameSettings) :
  let gen := if len =? 4 then v1Gen else v2Gen in
  match generateRoomCode v1Gen v2Gen fuel len w with
  | Some (RangeError _) => len <> 4 /\ len <> 6
  | Some (Error _) => False
  | Some (Returns code) =>
      (len = 4 \/ len = 6)
      /\ (exists j,
            (j < fuel)%nat /\ code = gen j
            /\ forall i, (i < j)%nat -> mget (gen i) (rooms w) <> None)
      /\ mget code (rooms w) = None
      /\ exists w1,
          createRoom int2code code options w
          = Returns (newRoom code options, w1)
          /\ mget code (rooms w1) = Some (newRoom code options)
          /\ (forall other, other <> code ->
                mget other (rooms w1) = mget other (rooms w))
          /\ connections w1 = connections w
          /\ objects w1 = objects w
          /\ effects w1 = effects w
          /\ createRoom int2code code options w1
             = Error ("A room with code '" +:+ int2code code
                      +:+ "' already exists.")
  | None =>
      (len = 4 \/ len = 6)
      /\ forall i, (i < fuel)%nat -> mget (gen i) (rooms w) <> None
  end.
Proof.
  intros gen. unfold generateRoomCode.
  destruct (len =? 4) eqn:E4; cbn [negb andb].
  - apply Z.eqb_eq in E4.
    pose proof (drawLoop_spec gen fuel 0 (rooms w)) as Hd. fold gen.
    destruct (drawLoop gen fuel 0 (rooms w)) as [code|]; cbn [option_map].
    + destruct Hd as [j [Hj [-> [Hfree Htaken]]]].
      split; [now left |]. split.
      { exists j. split; [lia |]. split; [reflexivity |].
        intros i Hi. apply Htaken. lia. }
      split; [exact Hfree |]. unfold createRoom. rewrite Hfree.
      eexists. split; [reflexivity |]. cbn [rooms with_rooms connections
        objects effects]. rewrite mget_mset_eq.
      repeat split; try reflexivity.
      intros other Hne. apply mget_mset_ne. congruence.
    + split; [now left |]. intros i Hi. apply Hd. lia.
  - apply Z.eqb_neq in E4. destruct (len =? 6) eqn:E6; cbn [negb].
    + apply Z.eqb_eq in E6.
      pose proof (drawLoop_spec gen fuel 0 (rooms w)) as Hd. fold gen.
      destruct (drawLoop gen fuel 0 (rooms w)) as [code|]; cbn [option_map].
      * destruct Hd as [j [Hj [-> [Hfree Htaken]]]].
        split; [now right |]. split.
        { exists j. split; [lia |]. split; [reflexivity |].
          intros i Hi. apply Htaken. lia. }
        split; [exact Hfree |]. unfold createRoom. rewrite Hfree.
        eexists. split; [reflexivity |]. cbn [rooms with_rooms connections
          objects effects]. rewrite mget_mset_eq.
        repeat split; try reflexivity.
        intros other Hne. apply mget_mset_ne. congruence.
      * split; [now right |]. intros i Hi. apply Hd. lia.
    + apply Z.eqb_neq in E6. now split.
Qed.

Lemma gameListLoop_spec (now socketPort : Z) (options : GameSettings)
      (detailsOf : Room -> RoomDetails) (w : Worker)
      (entries : list (Z * Room)) (returnList : list GameListing) :
  (List.length returnList < 10)%nat ->
  gameListLoop now socketPort options detailsOf w entries returnList
  = take 10%nat
      (returnList
       ++ map (listingOf now socketPort detailsOf w)
            (List.filter (listable options detailsOf) entries)).
Proof.
  revert returnList.
  induction entries as [|[gameCode room] more IH]; intros returnList Hlen.
  - simpl. rewrite app_nil_r. symmetry. apply take_ge. lia.
  - cbn [gameListLoop List.filter]. unfold listable at 1. cbn [fst snd].
    destruct (gameCode =? 32); cbn [negb andb]; [now apply IH |].
    destruct (bool_decide (hostid room ∈ members room)); cbn [andb];
      [|now apply IH].
    destruct (matchesOptions options (settings (detailsOf room)));
      [|now apply IH].
    cbn [map].
    remember (listingOf now socketPort detailsOf w (gameCode, room)) as l
      eqn:El.
    unfold listingOf in El. cbn [fst snd] in El. rewrite <- El.
    rewrite (cons_middle l returnList
               (map (listingOf now socketPort detailsOf w)
                  (List.filter (listable options detailsOf) more))).
    rewrite app_assoc.
    destruct (10 <=? List.length (returnList ++ [l]))%nat eqn:Hfull.
    + apply Nat.leb_le in Hfull. symmetry. apply take_app_length'.
      rewrite length_app in *. simpl in *. lia.
    + apply Nat.leb_gt in Hfull. now apply IH.
Qed.

(** X26.  The list that the GetGameList listener builds holds the
    listings of the rooms that pass its test, in the order of the rooms,
    and never more than the first ten of them.  So every listing is the
    listing of a room that is not registered under the code of a local
    game (32), whose host is one of its connections, and whose settings
    match the options of the request. *)
Theorem game_list_is_filtered_and_capped
        (now socketPort : Z) (options : GameSettings)
        (detailsOf : Room -> RoomDetails) (w : Worker) :
  let listed := gameList now socketPort options detailsOf w in
  listed
  = take 10%nat
      (map (listingOf now socketPort detailsOf w)
         (List.filter (listable options detailsOf) (rooms w)))
  /\ (List.length listed <= 10)%nat
  /\ forall listing,
      In listing listed ->
      exists entry,
        In entry (rooms w)
        /\ fst entry <> 32
        /\ hostid (snd entry) ∈ members (snd entry)
        /\ matchesOptions options (settings (detailsOf (snd entry))) = true
        /\ listing = listingOf now socketPort detailsOf w entry.
Proof.
  intros listed.
  assert (E : listed
              = take 10%nat
                  (map (listingOf now socketPort detailsOf w)
                     (List.filter (listable options detailsOf) (rooms w)))).
  { unfold listed, gameList. rewrite gameListLoop_spec by (simpl; lia).
    reflexivity. }
  split; [exact E |]. split; [rewrite E, length_take; lia |].
  intros listing Hin. rewrite E in Hin.
  apply list_elem_of_In, elem_of_take in Hin as [i [Hin _]].
  apply list_elem_of_lookup_2, list_elem_of_In in Hin.
  apply in_map_iff in Hin as [entry [<- Hentry]].
  apply filter_In in Hentry as [Hentry Hl]. exists entry.
  unfold listable in Hl. apply andb_true_iff in Hl as [Hl Hm].
  apply andb_true_iff in Hl as [Hcode Hhost].
  apply negb_true_iff, Z.eqb_neq in Hcode.
  apply bool_decide_eq_true in Hhost. repeat split; assumption.
Qed.

Lemma toInt32_small (z : Z) : 0 <= z < 2 ^ 31 -> toInt32 z = z.
Proof. intros H. unfold toInt32. rewrite Z.mod_small; lia. Qed.

Lemma land_pow2 (a m : Z) :
  0 <= m -> Z.land a (2 ^ m) = if Z.testbit a m then 2 ^ m else 0.
Proof.
  intros Hm. apply Z.bits_inj'. intros n Hn.
  rewrite Z.land_spec, Z.pow2_bits_eqb by assumption.
  destruct (Z.eqb_spec m n) as [->|Hne].
  - rewrite andb_true_r. destruct (Z.testbit a n) eqn:E.
    + now rewrite Z.pow2_bits_true.
    + now rewrite Z.bits_0.
  - rewrite andb_false_r. destruct (Z.testbit a m).
    + rewrite Z.pow2_bits_false; [reflexivity | congruence].
    + now rewrite Z.bits_0.
Qed.

(** X27.  The map filter of a GetGameList request is a bit mask.  For a
    map number from 0 to 30 and a mask that is a non-negative 32-bit
    integer, a room passes the test of the listener exactly when its
    keywords are those of the request, bit number [map] of the mask is
    set, and its number of impostors is the requested one or the request
    asks for 0, that is, for any number. *)
Theorem map_filter_tests_the_bit_of_the_map
        (options roomSettings : GameSettings) :
  0 <= gameMap roomSettings <= 30 ->
  0 <= gameMap options < 2 ^ 31 ->
  matchesOptions options roomSettings
  = (keywords roomSettings =? keywords options)
    && Z.testbit (gameMap options) (gameMap roomSettings)
    && ((numImpostors roomSettings =? numImpostors options)
        || (numImpostors options =? 0)).
Proof.
  intros Hmap Hmask. unfold matchesOptions. f_equal. f_equal.
  unfold bitAnd, shiftLeft.
  assert (Hpow : 0 < 2 ^ gameMap roomSettings < 2 ^ 31).
  { split; [apply Z.pow_pos_nonneg; lia |].
    apply Z.pow_lt_mono_r; lia. }
  rewrite (toInt32_small 1) by lia.
  rewrite Z.mod_small, Z.shiftl_1_l by lia.
  rewrite !(toInt32_small (2 ^ gameMap roomSettings)) by lia.
  rewrite (toInt32_small (gameMap options)) by lia.
  rewrite land_pow2 by lia.
  destruct (Z.testbit (gameMap options) (gameMap roomSettings));
    [|reflexivity].
  apply negb_true_iff, Z.eqb_neq. lia.
Qed.

End RoomCodes.

(** ** The default configuration *)

Section Defaults.
Context (env : Env).

(** X28.  With the [reactor] entry of the default configuration, the
    policy turns no client away.  The hello listener lets in every
    client that sends its first hello with a version that the server
    lists, a normal client and a modded one: the connection stays
    registered, no Disconnect packet is sent, and one connect event is
    emitted for it, as the last thing that happens.  And the mod check
    answers [true] and leaves the worker unchanged for every client that
    has declared as many mods as its hello announced, whatever these mods
    are. *)
Theorem default_policy_turns_no_client_away :
  reactor env = defaultReactor ->
  (forall (now cid clientver : Z) (uname : string) (lang : Z)
          (modcount : option Z) (w : Worker) (c : Connection),
      objects w !! cid = Some c -> hasIdentified c = false ->
      clientver ∈ validVersions env ->
      let w' := onModdedHello env now cid clientver uname lang modcount w in
      helloVerdict env clientver modcount = None
      /\ connections w' = connections w
      /\ count isDisconnectSend w' = count isDisconnectSend w
      /\ count isClientConnect w' = S (count isClientConnect w)
      /\ (exists c',
             objects w' !! cid = Some c'
             /\ sameButSent (identified clientver uname lang modcount c) c')
      /\ exists before,
          effects w' = effects w ++ before ++ [EmitClientConnect cid])
  /\ (forall now cid w,
        numMods (the w cid) <= msize (mods (the w cid)) ->
        checkClientMods env now cid w = (Some true, w)).
Proof.
  intros Hdefault. split.
  - intros now cid clientver uname lang modcount w c Hc Hnew Hvalid w'.
    split.
    { unfold helloVerdict.
      rewrite bool_decide_eq_true_2, Hdefault by assumption.
      now destruct modcount. }
    unfold w', onModdedHello. rewrite (the_Some _ _ _ Hc), Hnew.
    fold (identified clientver uname lang modcount).
    set (w1 := modify cid (identified clientver uname lang modcount) w).
    assert (Hc1 : objects w1 !! cid
                  = Some (identified clientver uname lang modcount c)).
    { unfold w1. now rewrite objects_modify, decide_True, Hc by reflexivity. }
    assert (Haccept : forall w2,
               sends cid (log LogInfo "%s connected, language: %s" w1) w2 ->
               let w' := emit (EmitClientConnect cid) w2 in
               connections w' = connections w
               /\ count isDisconnectSend w' = count isDisconnectSend w
               /\ count isClientConnect w' = S (count isClientConnect w)
               /\ (exists c',
                      objects w' !! cid = Some c'
                      /\ sameButSent
                           (identified clientver uname lang modcount c) c')
               /\ exists before,
                   effects w' = effects w ++ before ++ [EmitClientConnect cid]).
    { intros w2 [Hk [Hn [Hd [[es He] Ho]]]].
      assert (Hcnt : forall p, count p w1 = count p w) by reflexivity.
      split; [exact Hk |].
      split; [rewrite count_emit, Hd; unfold log;
              now rewrite count_emit, Hcnt, !Nat.add_0_r |].
      split; [rewrite count_emit, Hn; unfold log; rewrite count_emit, Hcnt;
              cbn; lia |].
      split; [now apply Ho |].
      eexists (_ :: es). cbn. rewrite He. cbn.
      now rewrite <- !app_assoc. }
    rewrite bool_decide_eq_true_2, Hdefault by assumption. cbn [negb].
    destruct modcount as [m|]; cbn [defaultReactor allowNormalClients negb].
    + unfold getNextNonce, connectionSendPacket. cbn zeta beta iota.
      apply Haccept, sends_sendPluginChunks, sends_deliver; [reflexivity |].
      apply sends_modify; [reflexivity | apply sends_refl].
    + apply Haccept, sends_refl.
  - intros now cid w Hall. unfold checkClientMods.
    destruct (negb (usingReactor (the w cid))); [reflexivity |].
    apply Z.ltb_ge in Hall. now rewrite Hall, Hdefault.
Qed.

End Defaults.

(** ** Mods *)

Section Mods.
Context (env : Env).

(** X29.  A mod declaration is recorded or dropped.  When the
    connection holds as many mods as its hello announced, or more, the
    declaration changes nothing.  Otherwise the mod is recorded under its
    id, in place of an earlier mod with that id; every other id is as
    before; the table still holds no more mods than announced; and at
    most one line is logged, none once the table holds more than four
    mods.  Neither case touches the registry or another connection. *)
Theorem mod_declaration_is_recorded_or_dropped
        (cid declNetId : Z) (declared : ReactorMod) (w : Worker)
        (c : Connection) :
  objects w !! cid = Some c ->
  let w' := onModDeclaration cid declNetId declared w in
  let clientMod :=
    mkClientMod declNetId (rmodId declared) (rmodVersion declared)
      (rmodSide declared) in
  if numMods c <=? msize (mods c) then w' = w
  else
    connections w' = connections w
    /\ (forall id, id <> cid -> objects w' !! id = objects w !! id)
    /\ objects w' !! cid
       = Some (set_mods (mset (rmodId declared) clientMod (mods c)) c)
    /\ mget (rmodId declared) (mods (the w' cid)) = Some clientMod
    /\ (forall other, other <> rmodId declared ->
          mget other (mods (the w' cid)) = mget other (mods c))
    /\ msize (mods (the w' cid)) <= numMods c
    /\ (effects w' = effects w
        \/ exists line, effects w' = effects w ++ [Log LogInfo line])
    /\ (4 < msize (mods (the w' cid)) -> effects w' = effects w).
Proof.
  intros Hc w' clientMod. unfold w', onModDeclaration.
  rewrite (the_Some _ _ _ Hc).
  destruct (numMods c <=? msize (mods c)) eqn:Hfull; [reflexivity |].
  apply Z.leb_gt in Hfull.
  fold clientMod.
  set (w1 := modify cid
               (fun c0 => set_mods (mset (rmodId declared) clientMod (mods c0)) c0)
               w).
  change (modify cid
            (fun c0 => set_mods (mset (modId clientMod) clientMod (mods c0)) c0)
            w) with w1.
  assert (Hc1 : objects w1 !! cid
                = Some (set_mods (mset (rmodId declared) clientMod (mods c)) c)).
  { unfold w1. now rewrite objects_modify, decide_True, Hc by reflexivity. }
  assert (Hthe : forall w2, objects w2 = objects w1 ->
                   mods (the w2 cid)
                   = mset (rmodId declared) clientMod (mods c)).
  { intros w2 E. unfold the. rewrite E. fold (the w1 cid).
    now rewrite (the_Some _ _ _ Hc1). }
  assert (Hother : forall id, id <> cid -> objects w1 !! id = objects w !! id).
  { intros id Hne. unfold w1. rewrite objects_modify.
    now rewrite decide_False by congruence. }
  pose proof (msize_mset (rmodId declared) clientMod (mods c)) as Hsize.
  rewrite (Hthe w1 eq_refl).
  destruct (msize (mset (rmodId declared) clientMod (mods c)) =? 4) eqn:E4;
    [|destruct (msize (mset (rmodId declared) clientMod (mods c)) <? 4)
        eqn:L4];
    (split; [reflexivity |]); (split; [exact Hother |]);
    (split; [exact Hc1 |]);
    try change (the (log ?a ?b w1) cid) with (the w1 cid);
    rewrite (Hthe w1 eq_refl);
    (split; [apply mget_mset_eq |]);
    (split; [intros other Hne; apply mget_mset_ne; congruence |]);
    (split; [lia |]).
  - apply Z.eqb_eq in E4. split; [right; now eexists | lia].
  - apply Z.ltb_lt in L4. split; [right; now eexists | lia].
  - split; [now left | reflexivity].
Qed.

Lemma hostModsError_None (block : bool)
      (clientMods hostMods : list (string * ClientMod)) :
  hostModsError block clientMods hostMods = None
  <-> forall id h,
        In (id, h) hostMods -> compared block h = true ->
        exists m, mget id clientMods = Some m /\ modVersion m = modVersion h.
Proof.
  unfold compared. induction hostMods as [|[hostModId hostMod] more IH]; simpl.
  - split; [intros _ id h [] | reflexivity].
  - destruct (isClientside (networkSide hostMod) && block) eqn:Hskip.
    + rewrite IH. split.
      * intros H id h [E | Hin] Hcmp; [|now apply H].
        inversion E; subst. rewrite Hskip in Hcmp. discriminate.
      * intros H id h Hin. apply H. now right.
    + destruct (mget hostModId clientMods) as [m|] eqn:Hget.
      * destruct (String.eqb (modVersion m) (modVersion hostMod)) eqn:Hv;
          cbn [negb].
        -- apply String.eqb_eq in Hv. rewrite IH. split.
           ++ intros H id h [E | Hin] Hcmp; [|now apply H].
              inversion E; subst. now exists m.
           ++ intros H id h Hin. apply H. now right.
        -- apply String.eqb_neq in Hv. split; [discriminate |].
           intros H. destruct (H hostModId hostMod) as [m' [Hm' Hv']];
             [now left | now rewrite Hskip |]. congruence.
      * split; [discriminate |].
        intros H. destruct (H hostModId hostMod) as [m' [Hm' _]];
          [now left | now rewrite Hskip |]. congruence.
Qed.

Lemma clientModsError_None (block : bool)
      (hostMods clientMods : list (string * ClientMod)) :
  clientModsError block hostMods clientMods = None
  <-> forall id m,
        In (id, m) clientMods -> compared block m = true ->
        is_Some (mget id hostMods).
Proof.
  unfold compared.
  induction clientMods as [|[clientModId clientMod] more IH]; simpl.
  - split; [intros _ id m [] | reflexivity].
  - destruct (isClientside (networkSide clientMod) && block) eqn:Hskip.
    + rewrite IH. split.
      * intros H id m [E | Hin] Hcmp; [|now apply (H id m)].
        inversion E; subst. rewrite Hskip in Hcmp. discriminate.
      * intros H id m Hin. apply (H id m). now right.
    + destruct (mget clientModId hostMods) as [h|] eqn:Hget.
      * rewrite IH. split.
        -- intros H id m [E | Hin] Hcmp; [|now apply (H id m)].
           inversion E; subst. rewrite Hget. now eexists.
        -- intros H id m Hin. apply (H id m). now right.
      * split; [discriminate |].
        intros H. destruct (H clientModId clientMod) as [h Hh];
          [now left | now rewrite Hskip |]. congruence.
Qed.

(** X30.  The requirement on the mods of the host.  When the
    configuration asks for it and the host of the room is one of its
    connections, the requirement raises no join error exactly when the
    host and the client are of the same kind (both use Reactor or neither
    does), the client has every compared mod of the host at the version
    of the host, and the host has every compared mod of the client.  A
    client-side mod is not compared when client-side mods are blocked. *)
Theorem host_requirement_compares_mods (w : Worker) (cid : Z) (r : Room) :
  match reactor env with
  | ReactorFalse => False
  | ReactorTrue => True
  | ReactorObj o => requireHostMods o = true
  end ->
  hostid r <> 0 -> hostid r ∈ members r ->
  let host := the w (hostid r) in
  let c := the w cid in
  let block :=
    match reactor env with
    | ReactorObj o => blockClientSideOnly o
    | _ => true
    end in
  hostRequirementError env w cid r = None
  <-> usingReactor host = usingReactor c
      /\ (forall id h,
            In (id, h) (mods host) -> compared block h = true ->
            exists m, mget id (mods c) = Some m
                      /\ modVersion m = modVersion h)
      /\ (forall id m,
            In (id, m) (mods c) -> compared block m = true ->
            is_Some (mget id (mods host))).
Proof.
  intros Hreq Hhost Hin host c block. unfold hostRequirementError.
  assert (Hcond :
            (match reactor env with
             | ReactorFalse => false
             | ReactorTrue => true
             | ReactorObj o => requireHostMods o
             end) && negb (hostid r =? 0)
            && bool_decide (hostid r ∈ members r) = true).
  { rewrite bool_decide_eq_true_2 by assumption.
    apply Z.eqb_neq in Hhost. rewrite Hhost.
    destruct (reactor env); [contradiction | reflexivity | now rewrite Hreq]. }
  rewrite Hcond. fold host c block.
  rewrite <- hostModsError_None, <- clientModsError_None.
  destruct (usingReactor host), (usingReactor c); cbn [negb andb];
    try (split; [discriminate | intros [? _]; discriminate]);
    destruct (hostModsError block (mods c) (mods host));
    (split; [intros H; try discriminate; now repeat split
            |intros [_ [H1 H2]]; try discriminate; exact H2]).
Qed.

End Mods.

(** * The further statements on concrete inputs *)

Import ServerScenario.

Lemma reachable_connections_are_bounded_witness :
  (List.length (sentPackets pinged) <= 8)%nat
  /\ (List.length (receivedPackets pinged) <= 8)%nat
  /\ msize (mods pinged) <= Z.max 0 (numMods pinged)
  /\ (hasIdentified pinged = false -> mods pinged = []).
Proof.
  apply (reachable_connections_are_bounded plainEnv
           [Datagram 1000 truncated client; Tick 2000] 1 pinged).
  reflexivity.
Defined.

Lemma acknowledge_marks_first_match_witness :
  let w' := handleMessage wireEnv 700 [10; 0; 1] client (oneClient onePending) in
  effects w' = effects (oneClient onePending)
  /\ connections w' = connections (oneClient onePending)
  /\ lastClientId w' = lastClientId (oneClient onePending)
  /\ (forall id, id <> 1 ->
        objects w' !! id = objects (oneClient onePending) !! id)
  /\ exists c',
      objects w' !! 1 = Some c'
      /\ ((Forall (fun s => sentNonce s <> 1) (sentPackets onePending)
           /\ c' = onePending)
          \/ exists pre s post,
               sentPackets onePending = pre ++ s :: post
               /\ Forall (fun s => sentNonce s <> 1) pre
               /\ sentNonce s = 1
               /\ c' = set_roundTripPing (700 - sentAt s)
                         (set_sentPackets (pre ++ ackedEntry s :: post)
                            onePending)).
Proof.
  apply (acknowledge_marks_first_match wireEnv 700 [10; 0; 1] client
           (oneClient onePending) 1 onePending 1 []);
    reflexivity.
Defined.

Lemma acknowledged_connection_survives_tick_witness :
  let w1 := sendAll plainEnv threeCalls
              (onAcknowledge 700 1 1 (oneClient onePending)) in
  let w2 := tickConnection plainEnv 2000 1 w1 in
  exists c1,
    objects w1 !! 1 = Some c1
    /\ sentPackets c1
       = [mkSentPacket 2 (serialize plainEnv (ReliablePacket 2 [])) 30 false;
          mkSentPacket 1 (serialize plainEnv (PingPacket 1)) 10 false;
          mkSentPacket 1 [1; 0; 1] 0 true]
    /\ presumedDead c1 = false
    /\ connections w2 = connections (oneClient onePending)
    /\ In (SocketSend client (serialize plainEnv (PingPacket 2))) (effects w2).
Proof.
  destruct (acknowledged_connection_survives_tick plainEnv 700 2000 1 1
              threeCalls (oneClient onePending) onePending [] []
              (mkSentPacket 1 [1; 0; 1] 0 false))
    as [c1 [H1 [H2 [_ [H4 [H5 [_ H7]]]]]]];
    [reflexivity | reflexivity | constructor | reflexivity | simpl; lia
    | simpl; lia | simpl; lia |].
  exists c1. split; [exact H1 |]. split; [rewrite H2; reflexivity |].
  split; [exact H4 |]. split; [exact H5 | exact H7].
Defined.

Lemma fresh_packet_is_acknowledged_last_witness :
  let w1 :=
    emitChildren wireEnv 1000 1 []
      (modify 1 (set_lastNonce 5) (oneClient seenFour)) in
  let w' := handleMessage wireEnv 1000 [12; 0; 5] client (oneClient seenFour) in
  exists c1,
    objects w1 !! 1 = Some c1
    /\ effects w'
       = effects w1
         ++ [SocketSend (rinfo seenFour)
               (serialize wireEnv (AcknowledgePacket 5 []))]
    /\ objects w' !! 1
       = Some (set_receivedPackets (take 8%nat (5 :: receivedPackets c1)) c1)
    /\ connections w' = connections w1.
Proof.
  apply (fresh_packet_is_acknowledged_last wireEnv 1000 [12; 0; 5] client
           (oneClient seenFour) 1 seenFour (PingPacket 5) 5 []);
    [reflexivity | reflexivity | reflexivity | right; now split | reflexivity].
Defined.

Lemma disconnect_packet_ends_the_connection_witness :
  let w' := handleMessage wireEnv 1000 [9] client (oneClient seenFour) in
  mget (fmt client) (connections w') = None
  /\ effects w'
     = [SocketSend client (serialize wireEnv (DisconnectPacket NoReason));
        Log LogInfo "Remove %s"; Log LogInfo "Remove %s"]
  /\ handleMessage wireEnv 1001 reliable5 client w' = w'
  /\ mget (fmt client)
       (connections (handleMessage wireEnv 1002 truncated client w'))
     = Some 2.
Proof.
  destruct (disconnect_packet_ends_the_connection wireEnv 1000 [9] client
              (oneClient seenFour) 1 seenFour NoReason
              eq_refl eq_refl eq_refl eq_refl)
    as [H1 [H2 [H3 H4]]].
  cbn zeta. split; [exact H1 |]. split; [exact H2 |]. split.
  - apply (H3 1001 reliable5 (ReliablePacket 5 [StartGameMessage 32]));
      reflexivity.
  - apply (H4 1002 truncated). now left.
Defined.

Lemma hello_is_decided_by_version_and_policy_witness :
  let w' := onModdedHello plainEnv 1000 1 50516550 "bob" 0 None
              (oneClient newcomer) in
  (exists c',
      objects w' !! 1 = Some c'
      /\ sameButSent (identified 50516550 "bob" 0 None newcomer) c')
  /\ connections w' = connections (oneClient newcomer)
  /\ count isDisconnectSend w' = count isDisconnectSend (oneClient newcomer)
  /\ count isClientConnect w' = S (count isClientConnect (oneClient newcomer))
  /\ exists before,
      effects w'
      = effects (oneClient newcomer) ++ before ++ [EmitClientConnect 1].
Proof.
  exact (hello_is_decided_by_version_and_policy plainEnv 1000 1 50516550
           "bob" 0 None (oneClient newcomer) newcomer eq_refl).
Defined.

Lemma host_messages_are_rebroadcast_witness :
  exists code,
    room (the partyWorker 2) = Some code
    /\ mget code (rooms partyWorker) = Some party
    /\ hostid party = 2
    /\ emitChild plainEnv 1000 2 (StartGameMessage 99) partyWorker
       = match rebroadcastOf code (StartGameMessage 99) with
         | Some again =>
             emit (RoomBroadcast (roomCode party) [again])
               (emit (RoomDecode (roomCode party) (StartGameMessage 99) 2)
                  (emit (Dispatch 2 (StartGameMessage 99)) partyWorker))
         | None => emit (Dispatch 2 (StartGameMessage 99)) partyWorker
         end.
Proof.
  apply (host_messages_are_rebroadcast plainEnv 1000 2 (StartGameMessage 99)
           partyWorker party);
    reflexivity.
Defined.

Lemma map_filter_tests_the_bit_of_the_map_witness :
  matchesOptions anyImpostors (mkSettings 0 2 1 10)
  = (keywords (mkSettings 0 2 1 10) =? keywords anyImpostors)
    && Z.testbit (gameMap anyImpostors) (gameMap (mkSettings 0 2 1 10))
    && ((numImpostors (mkSettings 0 2 1 10) =? numImpostors anyImpostors)
        || (numImpostors anyImpostors =? 0)).
Proof.
  apply (map_filter_tests_the_bit_of_the_map anyImpostors (mkSettings 0 2 1 10));
    simpl; lia.
Defined.

Lemma failed_mod_check_disconnects_witness :
  checkClientMods modBEnv 1000 1 lobbyWorker = (None, lobbyWorker)
  /\ onJoinGame modBEnv 1000 1 32 lobbyWorker = lobbyWorker
  /\ effects (handleMessage modBEnv 1000 join9 client lobbyWorker)
     = [Dispatch 1 (JoinGameMessage 32);
        SocketSend client (serialize modBEnv (AcknowledgePacket 9 []))].
Proof.
  destruct (failed_mod_check_disconnects modBEnv 1000 1 lobbyWorker)
    as [_ [_ [_ [_ [Hsilent _]]]]].
  destruct (Hsilent
              {| blockClientSideOnly := true;
                 modsConfig := [("modB", ModFalse)]; allowExtraMods := true;
                 requireHostMods := true; allowNormalClients := true |}
              "modB" [] 32 eq_refl eq_refl eq_refl)
    as [Hcheck Hjoin]; [vm_compute; discriminate | reflexivity |].
  split; [exact Hcheck |]. split; [now apply Hjoin | reflexivity].
Defined.

Lemma default_policy_turns_no_client_away_witness :
  (let w' := onModdedHello (scenarioEnv defaultReactor) 1000 1 50516550 "bob"
               0 (Some 2) (oneClient newcomer) in
   connections w' = connections (oneClient newcomer)
   /\ count isDisconnectSend w' = 0%nat
   /\ count isClientConnect w' = 1%nat)
  /\ checkClientMods (scenarioEnv defaultReactor) 1000 1
       (oneClient reactorClient)
     = (Some true, oneClient reactorClient).
Proof.
  destruct (default_policy_turns_no_client_away (scenarioEnv defaultReactor)
              eq_refl) as [Hhello Hcheck].
  split.
  - destruct (Hhello 1000 1 50516550 "bob" 0 (Some 2) (oneClient newcomer)
                newcomer eq_refl eq_refl)
      as [_ [H1 [H2 [H3 _]]]]; [constructor |].
    cbn zeta. split; [exact H1 |]. split; [exact H2 | exact H3].
  - apply (Hcheck 1000 1 (oneClient reactorClient)). vm_compute.
    discriminate.
Defined.

Lemma mod_declaration_is_recorded_or_dropped_witness :
  let w' := onModDeclaration 1 7 (mkReactorMod "modA" "1.0" Both)
              (oneClient modded) in
  let clientMod := mkClientMod 7 "modA" "1.0" Both in
  connections w' = connections (oneClient modded)
  /\ (forall id, id <> 1 -> objects w' !! id = objects (oneClient modded) !! id)
  /\ objects w' !! 1
     = Some (set_mods (mset "modA" clientMod (mods modded)) modded)
  /\ mget "modA" (mods (the w' 1)) = Some clientMod
  /\ (forall other, other <> "modA" ->
        mget other (mods (the w' 1)) = mget other (mods modded))
  /\ msize (mods (the w' 1)) <= numMods modded
  /\ (effects w' = effects (oneClient modded)
      \/ exists line,
          effects w' = effects (oneClient modded) ++ [Log LogInfo line])
  /\ (4 < msize (mods (the w' 1)) -> effects w' = effects (oneClient modded)).
Proof.
  exact (mod_declaration_is_recorded_or_dropped 1 7
           (mkReactorMod "modA" "1.0" Both) (oneClient modded) modded eq_refl).
Defined.

Lemma host_requirement_compares_mods_witness :
  usingReactor (the (moddedParty "1.0") 2) = true
  /\ mods (the (moddedParty "1.0") 2) = [("modA", modA "1.0"); ("skin", skin)]
  /\ mods (the (moddedParty "1.0") 1) = [("modA", modA "1.0")]
  /\ hostRequirementError modAEnv (moddedParty "1.0") 1 party = None
  /\ (forall id h,
        In (id, h) (mods (the (moddedParty "1.0") 2)) ->
        compared true h = true ->
        exists m, mget id (mods (the (moddedParty "1.0") 1)) = Some m
                  /\ modVersion m = modVersion h)
  /\ hostRequirementError modAEnv (moddedParty "0.9") 1 party <> None.
Proof.
  assert (Hhost : hostid party ∈ members party) by (simpl; set_solver).
  destruct (host_requirement_compares_mods modAEnv (moddedParty "1.0") 1
              party eq_refl ltac:(discriminate) Hhost)
    as [Hforth _].
  destruct (host_requirement_compares_mods modAEnv (moddedParty "0.9") 1
              party eq_refl ltac:(discriminate) Hhost)
    as [Hold _].
  split; [reflexivity |]. split; [reflexivity |]. split; [reflexivity |].
  split; [reflexivity |]. split.
  - exact (proj1 (proj2 (Hforth eq_refl))).
  - intros Hnone. destruct (Hold Hnone) as [_ [Hversions _]].
    destruct (Hversions "modA" (modA "1.0")) as [m [Hm Hv]];
      [now left | reflexivity |].
    vm_compute in Hm. inversion Hm; subst. discriminate.
Defined.
